(** * c-chess-cli: the string buffer module (str.c) and the option parser
      (options.c), embedded over an explicit C memory.

    The embedding follows the C sources function by function.  A [str_t]
    is a struct (len, alloc, buf) living at an address; its buffer is a
    heap block reached through the [buf] pointer.  Every function is a
    computation over the program state (the struct store and the heap),
    so aliasing between arguments, reallocation and dangling pointers are
    all visible.

    Platform: LP64 (size_t, intmax_t: 64 bits; int, unsigned: 32 bits),
    two's complement, as on the POSIX systems the program targets. *)

From stdpp Require Import base gmap list strings.
From Stdlib Require Import ZArith Lia.

Local Open Scope Z_scope.

(** ** Machine integers *)

Definition sizeof_size_t : Z := 8.
Definition SIZE_MOD : Z := 2 ^ (8 * sizeof_size_t).
Definition SIZE_MAX : Z := SIZE_MOD - 1.
Definition INT_MIN : Z := - 2 ^ 31.
Definition INT_MAX : Z := 2 ^ 31 - 1.
Definition UINT_MAX : Z := 2 ^ 32 - 1.
Definition INTMAX_MIN : Z := - 2 ^ 63.
Definition INTMAX_MAX : Z := 2 ^ 63 - 1.
Definition UINTMAX_MAX : Z := 2 ^ 64 - 1.

(** size_t arithmetic is modulo 2^64. *)
Definition size_wrap (z : Z) : Z := z mod SIZE_MOD.

(** Conversion of an int to (uintmax_t). *)
Definition to_uintmax (z : Z) : Z := z mod 2 ^ 64.

(** Conversion to intmax_t, two's complement. *)
Definition to_intmax (z : Z) : Z :=
  let u := z mod 2 ^ 64 in if u <? 2 ^ 63 then u else u - 2 ^ 64.

(** imaxabs; the one overflowing case, INTMAX_MIN, wraps to itself. *)
Definition imaxabs (i : Z) : Z := to_intmax (Z.abs i).

(** A byte is stored as its unsigned value 0..255.  [(char)next] keeps the
    low eight bits; a [char] read from memory and passed as an [int]
    argument is sign-extended. *)
Definition char_of_int (z : Z) : Z := z mod 256.
Definition int_of_char (v : Z) : Z := if 128 <=? v then v - 256 else v.

Definition EOF : Z := -1.

(** ** Memory *)

Definition block := nat.
Definition addr := nat.

(** A byte pointer: NULL, or an offset into a heap block. *)
Inductive ptr : Type :=
| NULL
| Ptr (b : block) (o : Z).

(** A pointer to a [str_t] object; [None] is the null pointer. *)
Definition sptr : Type := option addr.

(** One byte of storage: indeterminate (fresh from malloc) or a value. *)
Inductive cell : Type :=
| Undef
| Byte (v : Z).

(** A heap block is live with its cells, or has been released.  Released
    blocks keep their identity, so a dangling pointer never aliases a
    later allocation. *)
Inductive blk : Type :=
| Live (cells : list cell)
| Freed.

Record str_t : Type := mk_str { len : Z; alloc : Z; buf : ptr }.

Record state : Type := mk_state {
  vars : gmap addr str_t;
  heap : gmap block blk
}.

Definition empty_state : state := mk_state ∅ ∅.

#[global] Instance ptr_eq_dec : EqDecision ptr.
Proof. solve_decision. Defined.
#[global] Instance cell_eq_dec : EqDecision cell.
Proof. solve_decision. Defined.
#[global] Instance str_t_eq_dec : EqDecision str_t.
Proof. solve_decision. Defined.

(** ** Outcomes and the computation monad *)

(** How a call can end: it returns; an [assert] fails and the process
    aborts; [die] prints a diagnostic and exits with failure; the
    behaviour is undefined (invalid memory access, bad [va_arg]); or a
    loop never terminates. *)
Inductive outcome (A : Type) : Type :=
| Ret (a : A)
| Abort
| Exit (fmt : string) (args : list (list Z))
| Stuck
| Diverge.
Arguments Ret {A} a.
Arguments Abort {A}.
Arguments Exit {A} fmt args.
Arguments Stuck {A}.
Arguments Diverge {A}.

Definition M (A : Type) : Type := state → outcome (A * state).

Definition ret {A} (a : A) : M A := λ st, Ret (a, st).
Definition bind {A B} (m : M A) (k : A → M B) : M B :=
  λ st, match m st with
        | Ret (a, st') => k a st'
        | Abort => Abort
        | Exit f l => Exit f l
        | Stuck => Stuck
        | Diverge => Diverge
        end.
Definition stuck {A} : M A := λ _, Stuck.
Definition abort {A} : M A := λ _, Abort.
Definition diverge {A} : M A := λ _, Diverge.
Definition get : M state := λ st, Ret (st, st).
Definition put (st : state) : M unit := λ _, Ret (tt, st).

Notation "x <- m ;; k" := (bind m (λ x, k))
  (at level 100, m at next level, right associativity,
   format "'[v' x  <-  m  ;;  '/' k ']'").
Notation "m ;;; k" := (bind m (λ _, k))
  (at level 100, right associativity).

Definition lift_opt {A} (o : option A) : M A :=
  match o with Some a => ret a | None => stuck end.

(** Modelled from the spec: [die], declared in util.h and not part of the
    sources at hand, "prints a diagnostic and terminates with a non-zero
    status".  The diagnostic is kept as the format and its arguments. *)
Definition die {A} (fmt : string) (args : list (list Z)) : M A :=
  λ _, Exit fmt args.

(** ** Memory primitives *)

Definition nat_of (z : Z) : nat := Z.to_nat z.

Definition block_cells (st : state) (b : block) : option (list cell) :=
  match heap st !! b with
  | Some (Live cs) => Some cs
  | _ => None
  end.

Definition set_block (b : block) (x : blk) (st : state) : state :=
  mk_state (vars st) (<[b := x]> (heap st)).

(** The cells from a pointer to the end of its block; the pointer may sit
    one past the end. *)
Definition cells_from (st : state) (p : ptr) : option (list cell) :=
  match p with
  | NULL => None
  | Ptr b o =>
      match block_cells st b with
      | Some cs =>
          if (0 <=? o) && (o <=? Z.of_nat (length cs))
          then Some (drop (nat_of o) cs) else None
      | None => None
      end
  end.

Definition ptr_add (p : ptr) (k : Z) : ptr :=
  match p with
  | NULL => NULL
  | Ptr b o => Ptr b (o + k)
  end.

(** [p - q] and [p > q], defined for pointers into one block. *)
Definition ptr_diff (p q : ptr) : option Z :=
  match p, q with
  | Ptr b o, Ptr b' o' => if decide (b = b') then Some (o - o') else None
  | _, _ => None
  end.

(** [*p] as an rvalue: the byte must be in bounds and determinate. *)
Definition load (p : ptr) : M Z :=
  λ st, match cells_from st p with
        | Some (Byte v :: _) => Ret (v, st)
        | _ => Stuck
        end.

(** [*p = v]. *)
Definition store (p : ptr) (v : Z) : M unit :=
  λ st, match p with
        | NULL => Stuck
        | Ptr b o =>
            match block_cells st b with
            | Some cs =>
                if (0 <=? o) && (o <? Z.of_nat (length cs))
                then Ret (tt, set_block b (Live (<[nat_of o := Byte v]> cs)) st)
                else Stuck
            | None => Stuck
            end
        end.

(** malloc: a new block of [n] indeterminate bytes.  Allocation failure
    is not modelled; the sources never test for it. *)
Definition malloc (n : Z) : M ptr :=
  λ st, let b := fresh (dom (heap st)) in
        Ret (Ptr b 0, set_block b (Live (replicate (nat_of n) Undef)) st).

(** free: a no-op on NULL; otherwise the pointer must be the start of a
    live block. *)
Definition free (p : ptr) : M unit :=
  λ st, match p with
        | NULL => Ret (tt, st)
        | Ptr b o =>
            match block_cells st b with
            | Some _ => if o =? 0 then Ret (tt, set_block b Freed st) else Stuck
            | None => Stuck
            end
        end.

(** realloc: the old object is released and a new one returned, holding
    the old bytes up to the smaller of the two sizes. *)
Definition realloc (p : ptr) (n : Z) : M ptr :=
  match p with
  | NULL => malloc n
  | Ptr b o =>
      λ st, match block_cells st b with
            | Some cs =>
                if o =? 0 then
                  let b' := fresh (dom (heap st)) in
                  let cs' := take (nat_of n) (cs ++ replicate (nat_of n - length cs) Undef) in
                  Ret (Ptr b' 0, set_block b' (Live cs') (set_block b Freed st))
                else Stuck
            | None => Stuck
            end
  end.

(** strlen on the cells from a pointer: the index of the first zero byte;
    running off the block or into indeterminate bytes is undefined. *)
Fixpoint cstr_len (cs : list cell) : option nat :=
  match cs with
  | [] => None
  | Undef :: _ => None
  | Byte v :: r => if v =? 0 then Some 0%nat else S <$> cstr_len r
  end.

Definition strlen (p : ptr) : M Z :=
  λ st, match cells_from st p ≫= cstr_len with
        | Some n => Ret (Z.of_nat n, st)
        | None => Stuck
        end.

(** memchr(p, c, n): scans at most [n] bytes, stopping at the first match;
    returns the index of the match. *)
Fixpoint memchr_cells (cs : list cell) (c : Z) (n : nat) (i : Z) {struct n}
    : option (option Z) :=
  match n with
  | O => Some None
  | S n' =>
      match cs with
      | Byte v :: r => if v =? c then Some (Some i) else memchr_cells r c n' (i + 1)
      | _ => None
      end
  end.

Definition memchr (p : ptr) (c : Z) (n : Z) : M ptr :=
  λ st, match cells_from st p ≫= (λ cs, memchr_cells cs c (nat_of n) 0) with
        | Some (Some i) => Ret (ptr_add p i, st)
        | Some None => Ret (NULL, st)
        | None => Stuck
        end.

(** memcpy(dst, src, n).  Both ranges must lie inside live blocks.  The
    bytes are read, then written; a source that partly overlaps the
    destination is undefined, while [dst = src] copies each byte onto
    itself. *)
Definition ranges_clash (dst src : ptr) (n : Z) : bool :=
  match dst, src with
  | Ptr b o, Ptr b' o' =>
      bool_decide (b = b') && negb (o =? o') && (o <? o' + n) && (o' <? o + n)
  | _, _ => false
  end.

Definition memcpy (dst src : ptr) (n : Z) : M unit :=
  λ st, match dst, cells_from st src with
        | Ptr b o, Some scs =>
            match block_cells st b with
            | Some dcs =>
                if (0 <=? o) && (o + n <=? Z.of_nat (length dcs))
                   && (n <=? Z.of_nat (length scs)) && negb (ranges_clash dst src n)
                then
                  let dcs' := take (nat_of o) dcs ++ take (nat_of n) scs
                              ++ drop (nat_of (o + n)) dcs in
                  Ret (tt, set_block b (Live dcs') st)
                else Stuck
            | None => Stuck
            end
        | _, _ => Stuck
        end.

(** Access to the [str_t] objects. *)
Definition load_str (s : sptr) : M str_t :=
  λ st, match s with
        | Some a => match vars st !! a with
                    | Some v => Ret (v, st)
                    | None => Stuck
                    end
        | None => Stuck
        end.

Definition store_str (s : sptr) (v : str_t) : M unit :=
  λ st, match s with
        | Some a => match vars st !! a with
                    | Some _ => Ret (tt, mk_state (<[a := v]> (vars st)) (heap st))
                    | None => Stuck
                    end
        | None => Stuck
        end.

(** A local [str_t] variable comes into existence, and goes away. *)
Definition new_var (v : str_t) : M addr :=
  λ st, let a := fresh (dom (vars st)) in
        Ret (a, mk_state (<[a := v]> (vars st)) (heap st)).

Definition del_var (a : addr) : M unit :=
  λ st, Ret (tt, mk_state (delete a (vars st)) (heap st)).

(** A string literal: a static array holding the bytes and the
    terminator.  Each evaluation yields a pointer to such an array. *)
Definition literal (bs : list Z) : M ptr :=
  λ st, let b := fresh (dom (heap st)) in
        Ret (Ptr b 0, set_block b (Live (Byte <$> (bs ++ [0]))) st).

(** A local array of [n] chars, and the end of its lifetime. *)
Definition local_array (n : Z) : M ptr := malloc n.
Definition end_local (p : ptr) : M unit := free p.

(** The bytes of the C string at [p], without the terminator. *)
Fixpoint cell_values (cs : list cell) : option (list Z) :=
  match cs with
  | [] => Some []
  | Undef :: _ => None
  | Byte v :: r => (v ::.) <$> cell_values r
  end.

Definition cstr_at (st : state) (p : ptr) : option (list Z) :=
  cs ← cells_from st p; n ← cstr_len cs; cell_values (take n cs).

Definition read_cstr (p : ptr) : M (list Z) :=
  λ st, match cstr_at st p with
        | Some bs => Ret (bs, st)
        | None => Stuck
        end.

(** ** str.c *)

(** [str_round_up]: the loop [while (p2 < n) p2 *= 2], with the
    multiplication in size_t.  [None] is returned when the fuel runs
    out. *)
Fixpoint round_up_loop (fuel : nat) (p2 n : Z) : option Z :=
  match fuel with
  | O => None
  | S fuel' => if p2 <? n then round_up_loop fuel' (size_wrap (p2 * 2)) n else Some p2
  end.

(** Sixty-four rounds decide the loop: [p2] is either at least [n] by
    then or has wrapped to 0 for good (lemma [round_up_loop_fuel]). *)
Definition str_round_up (n : Z) : option Z :=
  round_up_loop 64 (2 * sizeof_size_t) n.

Definition round_up (n : Z) : M Z :=
  match str_round_up n with
  | Some p => ret p
  | None => diverge
  end.

Section Str.

(** Whether the program is compiled with NDEBUG, which removes every
    [assert]. *)
Variable NDEBUG : bool.

Definition assert (e : M bool) : M unit :=
  if NDEBUG then ret tt
  else (b <- e ;; if b : bool then ret tt else abort).

Definition str_ok (s : sptr) : M bool :=
  match s with
  | None => ret false
  | Some _ =>
      v <- load_str s ;;
      r <- round_up (size_wrap (len v + 1)) ;;
      if negb (r <=? alloc v) then ret false else
      match buf v with
      | NULL => ret false
      | _ =>
          c <- load (ptr_add (buf v) (len v)) ;;
          if negb (c =? 0) then ret false else
          p <- memchr (buf v) 0 (len v) ;;
          ret (bool_decide (p = NULL))
      end
  end.

Definition str_resize (s : sptr) (n : Z) : M unit :=
  assert (str_ok s) ;;;
  v <- load_str s ;;
  store_str s (mk_str n (alloc v) (buf v)) ;;;
  v <- load_str s ;;
  r <- round_up (size_wrap (n + 1)) ;;
  (if alloc v <? r then
     r' <- round_up (size_wrap (n + 1)) ;;
     store_str s (mk_str (len v) r' (buf v)) ;;;
     v <- load_str s ;;
     p <- realloc (buf v) (alloc v) ;;
     store_str s (mk_str (len v) (alloc v) p)
   else ret tt) ;;;
  v <- load_str s ;;
  store (ptr_add (buf v) n) 0.

(** [str_new] and [str_dup] build the struct in a local variable and
    return it by value. *)
Definition str_new : M str_t :=
  a <- new_var (mk_str 0 0 NULL) ;;
  r <- round_up (size_wrap (0 + 1)) ;;
  p <- malloc r ;;
  store_str (Some a) (mk_str 0 r p) ;;;
  store (ptr_add p 0) 0 ;;;
  assert (str_ok (Some a)) ;;;
  v <- load_str (Some a) ;;
  del_var a ;;;
  ret v.

Definition str_dup (src : ptr) : M str_t :=
  assert (ret (bool_decide (src ≠ NULL))) ;;;
  a <- new_var (mk_str 0 0 NULL) ;;
  n <- strlen src ;;
  r <- round_up (size_wrap (n + 1)) ;;
  p <- malloc r ;;
  store_str (Some a) (mk_str n r p) ;;;
  memcpy p src (size_wrap (n + 1)) ;;;
  assert (str_ok (Some a)) ;;;
  v <- load_str (Some a) ;;
  del_var a ;;;
  ret v.

Definition str_del (s : sptr) : M unit :=
  v <- load_str s ;;
  free (buf v) ;;;
  store_str s (mk_str 0 0 NULL).

Definition do_str_cpy (dest : sptr) (src : ptr) (n : Z) : M unit :=
  str_resize dest n ;;;
  v <- load_str dest ;;
  memcpy (buf v) src (size_wrap (len v + 1)).

Definition str_cpy (dest : sptr) (src : ptr) : M unit :=
  assert (b <- str_ok dest ;; ret (b && bool_decide (src ≠ NULL))) ;;;
  n <- strlen src ;;
  do_str_cpy dest src n ;;;
  assert (str_ok dest).

Definition str_cpy_s (dest src : sptr) : M unit :=
  assert (b <- str_ok dest ;; if b : bool then str_ok src else ret false) ;;;
  vs <- load_str src ;;
  do_str_cpy dest (buf vs) (len vs) ;;;
  assert (str_ok dest).

Definition str_ncpy (dest : sptr) (src : ptr) (n : Z) : M unit :=
  assert (str_ok dest) ;;;
  l <- strlen src ;;
  n <- (if l <? n then strlen src else ret n) ;;
  do_str_cpy dest src n ;;;
  v <- load_str dest ;;
  store (ptr_add (buf v) n) 0 ;;;
  assert (str_ok dest).

(** The variadic functions take their first argument and the rest of the
    argument list; reading past the supplied arguments is undefined. *)
Fixpoint putc_loop (dest : sptr) (args : list Z) (next : Z) : M unit :=
  if next =? 0 then ret tt else
  v <- load_str dest ;;
  str_resize dest (size_wrap (len v + 1)) ;;;
  v <- load_str dest ;;
  store (ptr_add (buf v) (size_wrap (len v - 1))) (char_of_int next) ;;;
  match args with
  | [] => stuck
  | c :: rest => putc_loop dest rest c
  end.

Definition _str_putc (dest : sptr) (c1 : Z) (args : list Z) : M unit :=
  assert (str_ok dest) ;;;
  putc_loop dest args c1 ;;;
  assert (str_ok dest).

Definition do_str_cat (dest : sptr) (src : ptr) (n : Z) : M unit :=
  v <- load_str dest ;;
  let oldLen := len v in
  str_resize dest (size_wrap (oldLen + n)) ;;;
  v <- load_str dest ;;
  memcpy (ptr_add (buf v) oldLen) src n.

Definition str_ncat (dest : sptr) (src : ptr) (n : Z) : M unit :=
  assert (str_ok dest) ;;;
  l <- strlen src ;;
  n <- (if l <? n then strlen src else ret n) ;;
  do_str_cat dest src n ;;;
  assert (str_ok dest).

Fixpoint cat_loop (dest : sptr) (args : list ptr) (next : ptr) : M unit :=
  match next with
  | NULL => ret tt
  | _ =>
      assert (ret (bool_decide (next ≠ NULL))) ;;;
      n <- strlen next ;;
      do_str_cat dest next n ;;;
      assert (str_ok dest) ;;;
      match args with
      | [] => stuck
      | p :: rest => cat_loop dest rest p
      end
  end.

Definition _str_cat (dest : sptr) (s1 : ptr) (args : list ptr) : M unit :=
  assert (str_ok dest) ;;;
  cat_loop dest args s1 ;;;
  assert (str_ok dest).

Fixpoint cat_s_loop (dest : sptr) (args : list sptr) (next : sptr) : M unit :=
  match next with
  | None => ret tt
  | Some _ =>
      assert (str_ok next) ;;;
      v <- load_str next ;;
      do_str_cat dest (buf v) (len v) ;;;
      assert (str_ok dest) ;;;
      match args with
      | [] => stuck
      | p :: rest => cat_s_loop dest rest p
      end
  end.

Definition _str_cat_s (dest : sptr) (s1 : sptr) (args : list sptr) : M unit :=
  assert (str_ok dest) ;;;
  cat_s_loop dest args s1 ;;;
  assert (str_ok dest).

(** Modelled from the spec: the macros [str_putc], [str_cat] and
    [str_cat_s] of str.h, which is not part of the sources at hand.  They
    pass their arguments on, followed by the end marker on which the
    loops above stop (0, respectively NULL). *)
Definition str_putc (dest : sptr) (cs : list Z) : M unit :=
  match cs ++ [0] with
  | c1 :: rest => _str_putc dest c1 rest
  | [] => stuck
  end.

Definition str_cat (dest : sptr) (ps : list ptr) : M unit :=
  match ps ++ [NULL] with
  | s1 :: rest => _str_cat dest s1 rest
  | [] => stuck
  end.

Definition str_cat_s (dest : sptr) (ss : list sptr) : M unit :=
  match ss ++ [None] with
  | s1 :: rest => _str_cat_s dest s1 rest
  | [] => stuck
  end.

(** [do_fmt_u]: the digits of [n] are written backwards from [s].  The
    do-while loop runs once per digit; twenty rounds cover every
    uintmax_t. *)
Fixpoint fmt_u_loop (fuel : nat) (n : Z) (s : ptr) : M ptr :=
  match fuel with
  | O => diverge
  | S fuel' =>
      store s (char_of_int (48 + n mod 10)) ;;;
      let s := ptr_add s (-1) in
      let n := n / 10 in
      if n =? 0 then ret s else fmt_u_loop fuel' n s
  end.

Definition do_fmt_u (n : Z) (s : ptr) : M ptr :=
  store s 0 ;;;
  s <- fmt_u_loop 20 n (ptr_add s (-1)) ;;
  ret (ptr_add s 1).

(** The variable arguments of [str_cat_fmt], by the type they were
    passed with. *)
Inductive varg : Type :=
| VInt (i : Z)        (* int *)
| VUInt (u : Z)       (* unsigned *)
| VIMax (i : Z)       (* intmax_t *)
| VUMax (u : Z)       (* uintmax_t *)
| VStr (p : ptr)      (* const char * *)
| VStrS (s : sptr).   (* const str_t * *)

(** [va_arg(args, T)]: the next argument must have been passed as [T],
    or as the integer type of the other signedness with a value both
    types represent. *)
Definition va_int (a : varg) : option Z :=
  match a with
  | VInt i => Some i
  | VUInt u => if u <=? INT_MAX then Some u else None
  | _ => None
  end.
Definition va_unsigned (a : varg) : option Z :=
  match a with
  | VUInt u => Some u
  | VInt i => if 0 <=? i then Some i else None
  | _ => None
  end.
Definition va_intmax (a : varg) : option Z :=
  match a with
  | VIMax i => Some i
  | VUMax u => if u <=? INTMAX_MAX then Some u else None
  | _ => None
  end.
Definition va_uintmax (a : varg) : option Z :=
  match a with
  | VUMax u => Some u
  | VIMax i => if 0 <=? i then Some i else None
  | _ => None
  end.
Definition va_str (a : varg) : option ptr :=
  match a with VStr p => Some p | _ => None end.
Definition va_str_s (a : varg) : option sptr :=
  match a with VStrS s => Some s | _ => None end.

Definition va_arg {T} (get_T : varg → option T) (args : list varg) : M (T * list varg) :=
  match args with
  | a :: rest => match get_T a with Some x => ret (x, rest) | None => stuck end
  | [] => stuck
  end.

Definition ptr_gt (p q : ptr) : M bool :=
  match ptr_diff p q with Some d => ret (0 <? d) | None => stuck end.
Definition ptr_ge (p q : ptr) : M bool :=
  match ptr_diff p q with Some d => ret (0 <=? d) | None => stuck end.
Definition ptr_sub (p q : ptr) : M Z :=
  match ptr_diff p q with Some d => ret d | None => stuck end.

(** One specifier: [spec] is [pct[1]]. *)
Definition fmt_arg (dest : sptr) (spec : Z) (args : list varg) : M (list varg) :=
  arr <- local_array 24 ;;
  args' <-
    (if spec =? 115 then                                   (* 's' *)
       x <- va_arg va_str args ;;
       str_cat dest [x.1] ;;; ret x.2
     else if spec =? 83 then                               (* 'S' *)
       x <- va_arg va_str_s args ;;
       str_cat_s dest [x.1] ;;; ret x.2
     else if (spec =? 105) || (spec =? 73) then            (* 'i', 'I' *)
       x <- (if spec =? 105 then va_arg va_int args else va_arg va_intmax args) ;;
       let i := x.1 in
       s <- do_fmt_u (to_uintmax (imaxabs i)) (ptr_add arr (24 - 1)) ;;
       s <- (if i <? 0 then
               let s := ptr_add s (-1) in store s 45 ;;; ret s
             else ret s) ;;
       str_cat dest [s] ;;; ret x.2
     else if spec =? 117 then                              (* 'u' *)
       x <- va_arg va_unsigned args ;;
       s <- do_fmt_u x.1 (ptr_add arr (24 - 1)) ;;
       str_cat dest [s] ;;; ret x.2
     else if spec =? 85 then                               (* 'U' *)
       x <- va_arg va_uintmax args ;;
       s <- do_fmt_u x.1 (ptr_add arr (24 - 1)) ;;
       str_cat dest [s] ;;; ret x.2
     else
       assert (ret false) ;;; ret args) ;;
  end_local arr ;;;
  ret args'.

Fixpoint fmt_loop (fuel : nat) (dest : sptr) (fmt : ptr) (bytesLeft : Z)
    (args : list varg) : M unit :=
  match fuel with
  | O => diverge
  | S fuel' =>
      if bytesLeft =? 0 then ret tt else
      pct <- memchr fmt 37 bytesLeft ;;
      match pct with
      | NULL => str_cat dest [fmt]
      | _ =>
          assert (b <- ptr_ge pct fmt ;;
                  if b : bool then c <- load pct ;; ret (c =? 37) else ret false) ;;;
          gt <- ptr_gt pct fmt ;;
          (if gt : bool then
             d <- ptr_sub pct fmt ;; str_ncat dest fmt (size_wrap d)
           else ret tt) ;;;
          d <- ptr_sub (ptr_add pct 2) fmt ;;
          let bytesLeft := size_wrap (bytesLeft - size_wrap d) in
          let fmt := ptr_add pct 2 in
          assert (l <- strlen fmt ;; ret (l =? bytesLeft)) ;;;
          spec <- load (ptr_add pct 1) ;;
          args <- fmt_arg dest spec args ;;
          fmt_loop fuel' dest fmt bytesLeft args
      end
  end.

(** Every round but the last moves [fmt] forward by at least two bytes
    inside its block, so the length of the template bounds the number of
    rounds. *)
Definition str_cat_fmt (dest : sptr) (fmt : ptr) (args : list varg) : M unit :=
  assert (b <- str_ok dest ;; ret (b && bool_decide (fmt ≠ NULL))) ;;;
  bytesLeft <- strlen fmt ;;
  fmt_loop (S (nat_of bytesLeft)) dest fmt bytesLeft args ;;;
  assert (str_ok dest).

(** The number of cells from [p] to the end of its block bounds the
    pointer-walking loops of [str_tok]. *)
Definition span (p : ptr) : M nat :=
  λ st, Ret (match cells_from st p with Some cs => S (length cs) | None => 1%nat end, st).

Fixpoint tok_skip (fuel : nat) (s delim : ptr) (n : Z) : M ptr :=
  match fuel with
  | O => diverge
  | S fuel' =>
      c <- load s ;;
      if c =? 0 then ret s else
      m <- memchr delim c n ;;
      if bool_decide (m ≠ NULL) then tok_skip fuel' (ptr_add s 1) delim n
      else ret s
  end.

Fixpoint tok_take (fuel : nat) (s : ptr) (token : sptr) (delim : ptr) (n : Z) : M ptr :=
  match fuel with
  | O => diverge
  | S fuel' =>
      c <- load s ;;
      if c =? 0 then ret s else
      m <- memchr delim c n ;;
      if bool_decide (m = NULL) then
        str_putc token [int_of_char c] ;;;
        tok_take fuel' (ptr_add s 1) token delim n
      else ret s
  end.

Definition str_tok (s : ptr) (token : sptr) (delim : ptr) : M ptr :=
  assert (b <- str_ok token ;;
          if b && bool_decide (delim ≠ NULL)
          then c <- load delim ;; ret (negb (c =? 0)) else ret false) ;;;
  match s with
  | NULL => ret NULL
  | _ =>
      e <- literal [] ;;
      str_cpy token e ;;;
      n <- strlen delim ;;
      f <- span s ;;
      s <- tok_skip f s delim n ;;
      f <- span s ;;
      s <- tok_take f s token delim n ;;
      assert (str_ok token) ;;;
      v <- load_str token ;;
      ret (if len v =? 0 then NULL else s)
  end.

(** A stream is the sequence of bytes still to be read.  [getc_unlocked]
    yields the next byte as an unsigned char converted to int, or EOF.
    [flockfile] and [funlockfile] have no effect on a single thread of
    control. *)
Definition stream : Type := list Z.

Definition getc_unlocked (inp : stream) : Z * stream :=
  match inp with
  | [] => (EOF, [])
  | c :: rest => (c mod 256, rest)
  end.

Fixpoint getline_loop (out : sptr) (inp : stream) : M (Z * stream) :=
  match inp with
  | [] => ret (getc_unlocked [])
  | c0 :: rest =>
      let c := (getc_unlocked (c0 :: rest)).1 in
      if negb (c =? 10) && negb (c =? EOF) then
        str_putc out [c] ;;;
        getline_loop out rest
      else ret (c, rest)
  end.

Definition str_getline (out : sptr) (inp : stream) : M (Z * stream) :=
  assert (str_ok out) ;;;
  e <- literal [] ;;
  str_cpy out e ;;;
  r <- getline_loop out inp ;;
  v <- load_str out ;;
  let n := size_wrap (len v + (if r.1 =? 10 then 1 else 0)) in
  assert (str_ok out) ;;;
  ret (n, r.2).

End Str.

(** ** options.c *)

Definition bytes_of (s : string) : list Z :=
  (λ a, Z.of_N (Ascii.N_of_ascii a)) <$> String.list_ascii_of_string s.

(** [strstr(haystack, needle) != NULL]: the needle occurs somewhere in
    the haystack. *)
Fixpoint is_prefix_b (needle hay : list Z) : bool :=
  match needle, hay with
  | [], _ => true
  | x :: n', y :: h' => (x =? y) && is_prefix_b n' h'
  | _ :: _, [] => false
  end.

Fixpoint strstr_b (hay needle : list Z) : bool :=
  is_prefix_b needle hay ||
  match hay with
  | [] => false
  | _ :: h' => strstr_b h' needle
  end.

(** [strcmp(a, b) == 0]. *)
Definition strcmp_eq (a b : list Z) : bool := bool_decide (a = b).

(** atoi: leading white space, an optional sign, then decimal digits; the
    value is converted to int. *)
Definition isspace (c : Z) : bool := (c =? 32) || ((9 <=? c) && (c <=? 13)).
Definition isdigit (c : Z) : bool := (48 <=? c) && (c <=? 57).

Fixpoint atoi_digits (bs : list Z) (acc : Z) : Z :=
  match bs with
  | c :: r => if isdigit c then atoi_digits r (acc * 10 + (c - 48)) else acc
  | [] => acc
  end.

Definition to_int (z : Z) : Z :=
  let u := z mod 2 ^ 32 in if u <? 2 ^ 31 then u else u - 2 ^ 32.

Fixpoint atoi (bs : list Z) : Z :=
  match bs with
  | c :: r =>
      if isspace c then atoi r
      else if c =? 45 then to_int (- atoi_digits r 0)
      else if c =? 43 then to_int (atoi_digits r 0)
      else to_int (atoi_digits bs 0)
  | [] => 0
  end.

Record Options : Type := mk_Options {
  chess960 : bool;
  concurrency : Z;
  games : Z;
  openings : str_t;
  random : bool;
  repeat : bool
}.

Section Options.

Variable NDEBUG : bool.

Definition arg_at (argv : list ptr) (i : Z) : M ptr :=
  if i <? 0 then stuck else lift_opt (argv !! nat_of i).

(** One round of the loop over argv.  The [openings] member of the local
    [options] struct lives at address [oa]; the other members are carried
    in [o]. *)
Definition options_step (argv : list ptr) (i : Z) (oa : addr) (o : Options)
    (expectValue : bool) : M (Options * bool) :=
  cur <- arg_at argv i ;;
  c0 <- load cur ;;
  if c0 =? 45 then
    (if expectValue then
       prev <- arg_at argv (i - 1) ;;
       a <- read_cstr prev ;;
       b <- read_cstr cur ;;
       die "value expected after '%s'. found tag '%s' instead.\n" [a; b]
     else ret tt) ;;;
    tag <- read_cstr cur ;;
    if strstr_b (bytes_of "-concurrency -games -openings") tag then
      ret (o, true)
    else if strcmp_eq tag (bytes_of "-chess960") then
      ret (mk_Options true (concurrency o) (games o) (openings o) (random o) (repeat o),
           expectValue)
    else if strcmp_eq tag (bytes_of "-random") then
      ret (mk_Options (chess960 o) (concurrency o) (games o) (openings o) true (repeat o),
           expectValue)
    else if strcmp_eq tag (bytes_of "-repeat") then
      ret (mk_Options (chess960 o) (concurrency o) (games o) (openings o) (random o) true,
           expectValue)
    else die "invalid tag '%s'\n" [tag]
  else
    (if negb expectValue then
       prev <- arg_at argv (i - 1) ;;
       a <- read_cstr prev ;;
       b <- read_cstr cur ;;
       die "tag expected after '%s'. found value '%s' instead.\n" [a; b]
     else ret tt) ;;;
    prev <- arg_at argv (i - 1) ;;
    tag <- read_cstr prev ;;
    o' <-
      (if strcmp_eq tag (bytes_of "-concurrency") then
         v <- read_cstr cur ;;
         ret (mk_Options (chess960 o) (atoi v) (games o) (openings o) (random o) (repeat o))
       else if strcmp_eq tag (bytes_of "-games") then
         v <- read_cstr cur ;;
         ret (mk_Options (chess960 o) (concurrency o) (atoi v) (openings o) (random o) (repeat o))
       else
         assert NDEBUG (ret (strcmp_eq tag (bytes_of "-openings"))) ;;;
         str_cpy NDEBUG (Some oa) cur ;;;
         ret o) ;;
    ret (o', false).

Fixpoint options_loop (fuel : nat) (argc : Z) (argv : list ptr) (i : Z) (oa : addr)
    (o : Options) (expectValue : bool) : M (Z * Options * bool) :=
  match fuel with
  | O => diverge
  | S fuel' =>
      if i <? argc then
        r <- options_step argv i oa o expectValue ;;
        options_loop fuel' argc argv (i + 1) oa r.1 r.2
      else ret (i, o, expectValue)
  end.

(** The loop runs [argc - 1] rounds, [i] going from 1 to [argc]. *)
Definition options_new (argc : Z) (argv : list ptr) : M Options :=
  s <- str_new NDEBUG ;;
  oa <- new_var s ;;
  let o := mk_Options false 1 1 s false false in
  r <- options_loop (S (nat_of argc)) argc argv 1 oa o false ;;
  let '(i, o, expectValue) := r in
  (if expectValue : bool then
     prev <- arg_at argv (i - 1) ;;
     a <- read_cstr prev ;;
     die "value expected after '%s'\n" [a]
   else ret tt) ;;;
  v <- load_str (Some oa) ;;
  del_var oa ;;;
  ret (mk_Options (chess960 o) (concurrency o) (games o) v (random o) (repeat o)).

End Options.

(** ** Specification vocabulary *)

Definition is_pow2 (p : Z) : Prop := ∃ k, 0 ≤ k ∧ p = 2 ^ k.

(** A byte that can be part of a string: non-zero, in the range of an
    unsigned char. *)
Definition byte_ok (x : Z) : Prop := 0 < x < 256.

(** The struct at address [a] has length field [n] and owns the live
    block [b] with cells [cs]: the block has [alloc] cells, and [alloc] is
    at least [str_round_up (n + 1)]. *)
Definition owns (st : state) (a : addr) (b : block) (n : Z) (cs : list cell) : Prop :=
  ∃ v r,
    vars st !! a = Some v ∧ buf v = Ptr b 0 ∧ len v = n ∧
    heap st !! b = Some (Live cs) ∧ alloc v = Z.of_nat (length cs) ∧
    str_round_up (n + 1) = Some r ∧ r ≤ alloc v.

(** The struct at address [a] is a valid string buffer with content [c],
    owning the block [b]: the block starts with the bytes of [c] followed
    by the terminator, and no byte of [c] is zero. *)
Definition str_in (st : state) (a : addr) (b : block) (c : list Z) : Prop :=
  ∃ rest,
    owns st a b (Z.of_nat (length c)) ((Byte <$> c) ++ Byte 0 :: rest) ∧
    Forall byte_ok c.

(** [p] points to a readable C string with bytes [bs]. *)
Definition cstr_in (st : state) (p : ptr) (bs : list Z) : Prop :=
  ∃ rest, cells_from st p = Some ((Byte <$> bs) ++ Byte 0 :: rest) ∧ Forall byte_ok bs.

Definition ptr_block (p : ptr) : option block :=
  match p with NULL => None | Ptr b _ => Some b end.

(** What a call working on the buffer at [a], whose block was [b], leaves
    alone: every other struct, and every other block that existed. *)
Definition frame (a : addr) (b : block) (st st' : state) : Prop :=
  (∀ a', a' ≠ a → vars st' !! a' = vars st !! a') ∧
  (∀ b' x, b' ≠ b → heap st !! b' = Some x → heap st' !! b' = Some x).

(** The buffer at [a] ends with content [c]; it still owns [b] or owns a
    block that did not exist before. *)
Definition updated (a : addr) (b : block) (c : list Z) (st st' : state) : Prop :=
  ∃ b', str_in st' a b' c ∧ frame a b st st' ∧ (b' = b ∨ heap st !! b' = None).

(** A raw source string for an operation on the buffer owning [b]: a
    readable C string outside that block. *)
Definition src_in (st : state) (b : block) (p : ptr) (bs : list Z) : Prop :=
  cstr_in st p bs ∧ ptr_block p ≠ Some b.

(** A source buffer for an operation on the buffer at [a] owning [b]:
    another valid buffer, with its own block. *)
Definition str_src_in (st : state) (a : addr) (b : block) (s : sptr) (bs : list Z) : Prop :=
  ∃ a2 b2, s = Some a2 ∧ a2 ≠ a ∧ b2 ≠ b ∧ str_in st a2 b2 bs.

(** A struct value that describes a valid buffer with content [c] in
    block [b], wherever the struct is then stored. *)
Definition str_val (st : state) (v : str_t) (b : block) (c : list Z) : Prop :=
  ∃ rest r, buf v = Ptr b 0 ∧ len v = Z.of_nat (length c) ∧
    heap st !! b = Some (Live ((Byte <$> c) ++ Byte 0 :: rest)) ∧
    alloc v = Z.of_nat (length ((Byte <$> c) ++ Byte 0 :: rest)) ∧
    str_round_up (Z.of_nat (length c) + 1) = Some r ∧ r ≤ alloc v ∧ Forall byte_ok c.

(** The content of the buffer at [a], read back from memory. *)
Definition content (st : state) (a : addr) : option (list Z) :=
  match vars st !! a with
  | Some v => cstr_at st (buf v)
  | None => None
  end.

(** *** Lines of a stream *)

(** The bytes of a stream before its first newline, whether there is a
    newline, and what follows it. *)
Fixpoint line_of (inp : stream) : list Z :=
  match inp with
  | [] => []
  | x :: r => if x =? 10 then [] else x :: line_of r
  end.

Fixpoint has_newline (inp : stream) : bool :=
  match inp with
  | [] => false
  | x :: r => (x =? 10) || has_newline r
  end.

Fixpoint after_line (inp : stream) : stream :=
  match inp with
  | [] => []
  | x :: r => if x =? 10 then r else after_line r
  end.

Definition nonzero (l : list Z) : list Z := filter (λ x, x ≠ 0) l.

(** *** Tokens *)

Fixpoint take_while (f : Z → bool) (l : list Z) : list Z :=
  match l with
  | [] => []
  | x :: r => if f x then x :: take_while f r else []
  end.

Fixpoint drop_while (f : Z → bool) (l : list Z) : list Z :=
  match l with
  | [] => []
  | x :: r => if f x then drop_while f r else l
  end.

Definition is_delim (ds : list Z) (c : Z) : bool := bool_decide (c ∈ ds).
Definition non_delim (ds : list Z) (c : Z) : bool := negb (is_delim ds c).

(** The input after its leading delimiters, the maximal run of
    non-delimiters that follows, and what is left after that run. *)
Definition skip_delims (ds inp : list Z) : list Z := drop_while (is_delim ds) inp.
Definition token_of (ds inp : list Z) : list Z :=
  take_while (non_delim ds) (skip_delims ds inp).
Definition after_token (ds inp : list Z) : list Z :=
  drop_while (non_delim ds) (skip_delims ds inp).

(** *** Decimal numerals *)

(** The digits the loop of [do_fmt_u] produces for [n], most significant
    first, as character codes. *)
Fixpoint dec_digits (fuel : nat) (n : Z) : list Z :=
  match fuel with
  | O => []
  | S fuel' => (if n / 10 =? 0 then [] else dec_digits fuel' (n / 10)) ++ [48 + n mod 10]
  end.

(** The value of a digit string, and what makes a digit string the
    decimal representation of [n]: only digits, at least one, no leading
    zero unless the number is zero, and the value is [n]. *)
Definition digits_value (ds : list Z) : Z :=
  fold_left (λ acc d, acc * 10 + (d - 48)) ds 0.

Definition is_decimal (ds : list Z) (n : Z) : Prop :=
  Forall (λ d, 48 ≤ d ≤ 57) ds ∧ ds ≠ [] ∧ (hd 0 ds = 48 → ds = [48]) ∧ digits_value ds = n.

(** The text [str_cat_fmt] renders for an integer argument. *)
Definition render_int (i : Z) : list Z :=
  (if i <? 0 then [45] else []) ++ dec_digits 20 (Z.abs i).

(** *** Format templates *)

(** The text an argument contributes under a specifier: the source
    string for %s and %S, the decimal numeral for the integer
    specifiers, whose argument must have the specifier's type. *)
Inductive arg_text (st : state) (a : addr) (b : block) : Z → varg → list Z → Prop :=
| arg_text_s p bs : src_in st b p bs → arg_text st a b 115 (VStr p) bs
| arg_text_S s bs : str_src_in st a b s bs → arg_text st a b 83 (VStrS s) bs
| arg_text_i v i :
    va_int v = Some i → INT_MIN ≤ i ≤ INT_MAX → arg_text st a b 105 v (render_int i)
| arg_text_I v i :
    va_intmax v = Some i → INTMAX_MIN ≤ i ≤ INTMAX_MAX → arg_text st a b 73 v (render_int i)
| arg_text_u v u :
    va_unsigned v = Some u → 0 ≤ u ≤ UINT_MAX → arg_text st a b 117 v (render_int u)
| arg_text_U v u :
    va_uintmax v = Some u → 0 ≤ u ≤ UINTMAX_MAX → arg_text st a b 85 v (render_int u).

(** The specifier characters of a template, and the text it renders to
    given the texts of its arguments: each [%X] is replaced by the next
    text, everything else is copied. *)
Fixpoint specs_of (tmpl : list Z) : list Z :=
  match tmpl with
  | [] => []
  | x :: rest =>
      if x =? 37 then
        match rest with
        | [] => []
        | sp :: rest' => sp :: specs_of rest'
        end
      else specs_of rest
  end.

Fixpoint render (tmpl : list Z) (texts : list (list Z)) : option (list Z) :=
  match tmpl with
  | [] => Some []
  | x :: rest =>
      if x =? 37 then
        match rest with
        | [] => None
        | sp :: rest' =>
            match texts with
            | t :: ts => (t ++.) <$> render rest' ts
            | [] => None
            end
        end
      else (x ::.) <$> render rest texts
  end.

(** *** The buffer invariants *)

(** The three invariants of the buffer at [a], as str.h's users rely on
    them: the byte at index [len] is 0, no byte below [len] is 0, and
    [alloc] is at least [str_round_up (len + 1)]. *)
Definition str_invariants (st : state) (a : addr) : Prop :=
  ∃ v b cells r,
    vars st !! a = Some v ∧ buf v = Ptr b 0 ∧ heap st !! b = Some (Live cells) ∧
    0 ≤ len v ∧
    cells !! nat_of (len v) = Some (Byte 0) ∧
    (∀ i, (i < nat_of (len v))%nat → ∃ x, cells !! i = Some (Byte x) ∧ x ≠ 0) ∧
    str_round_up (len v + 1) = Some r ∧ r ≤ alloc v.

(** *** Creating a buffer and operating on it *)

(** [str_new ()] or [str_dup (src)], the result stored in a variable. *)
Definition create (NDEBUG : bool) (src : option ptr) : M addr :=
  v <- match src with
       | None => str_new NDEBUG
       | Some p => str_dup NDEBUG p
       end ;;
  new_var v.

Definition creation_ok (st : state) (src : option ptr) : Prop :=
  match src with
  | None => True
  | Some p => ∃ bs, cstr_in st p bs ∧ Z.of_nat (length bs) + 1 ≤ 2 ^ 63
  end.

(** The public mutating operations, with their arguments. *)
Inductive op : Type :=
| OpCopyFrom (src : ptr)                            (* str_cpy *)
| OpCopyFromBuffer (src : sptr)                     (* str_cpy_s *)
| OpCopyBounded (src : ptr) (n : Z)                 (* str_ncpy *)
| OpAppend (srcs : list ptr)                        (* str_cat *)
| OpAppendBuffers (srcs : list sptr)                (* str_cat_s *)
| OpAppendBounded (src : ptr) (n : Z)               (* str_ncat *)
| OpAppendChars (cs : list Z)                       (* str_putc *)
| OpAppendFormatted (fmt : ptr) (args : list varg). (* str_cat_fmt *)

Definition run_op (NDEBUG : bool) (dest : sptr) (o : op) : M unit :=
  match o with
  | OpCopyFrom p => str_cpy NDEBUG dest p
  | OpCopyFromBuffer s => str_cpy_s NDEBUG dest s
  | OpCopyBounded p n => str_ncpy NDEBUG dest p n
  | OpAppend ps => str_cat NDEBUG dest ps
  | OpAppendBuffers ss => str_cat_s NDEBUG dest ss
  | OpAppendBounded p n => str_ncat NDEBUG dest p n
  | OpAppendChars cs => str_putc NDEBUG dest cs
  | OpAppendFormatted fmt args => str_cat_fmt NDEBUG dest fmt args
  end.

Fixpoint run_ops (NDEBUG : bool) (dest : sptr) (os : list op) : M unit :=
  match os with
  | [] => ret tt
  | o :: rest => run_op NDEBUG dest o ;;; run_ops NDEBUG dest rest
  end.

(** The arguments of an operation are well-formed for the buffer at [a]
    (block [b], content [c]), and the content it is to produce: sources
    are readable strings or valid buffers with storage of their own (or,
    for [str_cpy_s], the buffer itself), characters are non-zero bytes,
    format arguments match the template. *)
Inductive op_effect (st : state) (a : addr) (b : block) (c : list Z) : op → list Z → Prop :=
| eff_cpy p bs :
    src_in st b p bs → op_effect st a b c (OpCopyFrom p) bs
| eff_cpy_self :
    op_effect st a b c (OpCopyFromBuffer (Some a)) c
| eff_cpy_s s bs :
    str_src_in st a b s bs → op_effect st a b c (OpCopyFromBuffer s) bs
| eff_ncpy p bs n :
    src_in st b p bs → 0 ≤ n →
    op_effect st a b c (OpCopyBounded p n) (take (nat_of n) bs)
| eff_cat ps bss :
    Forall2 (src_in st b) ps bss → op_effect st a b c (OpAppend ps) (c ++ concat bss)
| eff_cat_s ss bss :
    Forall2 (str_src_in st a b) ss bss →
    op_effect st a b c (OpAppendBuffers ss) (c ++ concat bss)
| eff_ncat p bs n :
    src_in st b p bs → 0 ≤ n →
    op_effect st a b c (OpAppendBounded p n) (c ++ take (nat_of n) bs)
| eff_putc cs :
    Forall (λ x, byte_ok (char_of_int x)) cs →
    op_effect st a b c (OpAppendChars cs) (c ++ (char_of_int <$> cs))
| eff_fmt fmt tmpl args texts out :
    src_in st b fmt tmpl → Z.of_nat (length tmpl) + 1 ≤ 2 ^ 63 →
    Forall3 (arg_text st a b) (specs_of tmpl) args texts →
    render tmpl texts = Some out →
    op_effect st a b c (OpAppendFormatted fmt args) (c ++ out).

(** Every operation of the sequence has well-formed arguments for the
    buffer as it is when the operation runs, and no content outgrows the
    address space. *)
Inductive ops_ok (NDEBUG : bool) (a : addr) : state → list op → Prop :=
| ops_ok_nil st : ops_ok NDEBUG a st []
| ops_ok_cons st o os :
    (∀ b c, str_in st a b c →
       ∃ c', op_effect st a b c o c' ∧ Z.of_nat (length c') + 1 ≤ 2 ^ 63) →
    (∀ st', run_op NDEBUG (Some a) o st = Ret (tt, st') → ops_ok NDEBUG a st' os) →
    ops_ok NDEBUG a st (o :: os).

(** *** Appending fragments *)

(** The spec's [append] takes raw byte sequences and buffer references in
    one list.  str.c has [str_cat] for the former and [str_cat_s] for the
    latter, so a mixed list is a run of calls, each passing fragments of
    one kind. *)
Inductive fragments : Type :=
| Raws (ps : list ptr)
| Bufs (ss : list sptr).

Fixpoint append (NDEBUG : bool) (dest : sptr) (gs : list fragments) : M unit :=
  match gs with
  | [] => ret tt
  | Raws ps :: rest => str_cat NDEBUG dest ps ;;; append NDEBUG dest rest
  | Bufs ss :: rest => str_cat_s NDEBUG dest ss ;;; append NDEBUG dest rest
  end.

(** The bytes of a group of fragments, one list per fragment. *)
Inductive fragments_in (st : state) (a : addr) (b : block) : fragments → list (list Z) → Prop :=
| frags_raw ps bss : Forall2 (src_in st b) ps bss → fragments_in st a b (Raws ps) bss
| frags_buf ss bss : Forall2 (str_src_in st a b) ss bss → fragments_in st a b (Bufs ss) bss.

(** *** Integer arguments *)

(** An argument of the type the integer specifier [sp] expects, and its
    value. *)
Inductive int_arg : Z → varg → Z → Prop :=
| int_arg_i v i : va_int v = Some i → INT_MIN ≤ i ≤ INT_MAX → int_arg 105 v i
| int_arg_I v i : va_intmax v = Some i → INTMAX_MIN ≤ i ≤ INTMAX_MAX → int_arg 73 v i
| int_arg_u v u : va_unsigned v = Some u → 0 ≤ u ≤ UINT_MAX → int_arg 117 v u
| int_arg_U v u : va_uintmax v = Some u → 0 ≤ u ≤ UINTMAX_MAX → int_arg 85 v u.

(** *** Concrete runs *)

(** The result of a run, without the final state. *)
Definition result {A} (o : outcome (A * state)) : outcome A :=
  match o with
  | Ret (x, _) => Ret x
  | Abort => Abort
  | Exit f l => Exit f l
  | Stuck => Stuck
  | Diverge => Diverge
  end.

Fixpoint literals (l : list string) : M (list ptr) :=
  match l with
  | [] => ret []
  | s :: r => p <- literal (bytes_of s) ;; ps <- literals r ;; ret (p :: ps)
  end.

(** The program started with the given command line. *)
Definition options_main (NDEBUG : bool) (cmdline : list string) : M (Options * option (list Z)) :=
  argv <- literals cmdline ;;
  o <- options_new NDEBUG (Z.of_nat (length cmdline)) argv ;;
  st <- get ;;
  ret (o, cstr_at st (buf (openings o))).

(** A token is read from " a b"; then [str_tok] is called with NULL as
    the remaining input.  The result is the pointer returned by that
    second call and the content of the token buffer after it. *)
Definition tok_after_exhausted (NDEBUG : bool) : M (ptr * option (list Z)) :=
  s <- literal (bytes_of " a b") ;;
  d <- literal (bytes_of " ") ;;
  v <- str_new NDEBUG ;;
  a <- new_var v ;;
  str_tok NDEBUG s (Some a) d ;;;
  r <- str_tok NDEBUG NULL (Some a) d ;;
  st <- get ;;
  ret (r, content st a).

(** The state a run ends in. *)
Definition final_state {A} (o : outcome (A * state)) : state :=
  match o with
  | Ret (_, st) => st
  | _ => empty_state
  end.

(** A small program state for examples: a buffer holding "ab" (made by
    [str_dup] from a literal), the literal "cd", a second buffer holding
    "ef", and literals for a format template, an input to tokenize and
    its delimiter.  Blocks are numbered in the order of allocation, from
    0 (the literal "ab") to 8 (the literal "%I"); the two buffers are the
    variables 0 and 1, with the blocks 1 and 4. *)
Definition example_setup : M unit :=
  p <- literal (bytes_of "ab") ;;
  v <- str_dup false p ;;
  new_var v ;;;
  literal (bytes_of "cd") ;;;
  q <- literal (bytes_of "ef") ;;
  w <- str_dup false q ;;
  new_var w ;;;
  literal (bytes_of "%i apples, %u oranges") ;;;
  literal (bytes_of "  a  b ") ;;;
  literal (bytes_of " ") ;;;
  literal (bytes_of "%I") ;;;
  ret tt.

Definition example_state : state := final_state (example_setup empty_state).

(** A third buffer, created from the literal "cd", and a sequence with
    each of the mutating operations, applied to it. *)
Definition example_created : state :=
  final_state (create false (Some (Ptr 2%nat 0)) example_state).

Definition example_ops : list op :=
  [ OpAppend [Ptr 0%nat 0];
    OpAppendBuffers [Some 0%nat; Some 1%nat];
    OpAppendFormatted (Ptr 5%nat 0) [VInt (-5); VInt 3];
    OpCopyFromBuffer (Some 2%nat);
    OpAppendChars [33];
    OpCopyBounded (Ptr 0%nat 0) 1;
    OpAppendBounded (Ptr 3%nat 0) 1;
    OpCopyFromBuffer (Some 1%nat);
    OpCopyFrom (Ptr 2%nat 0) ].

(** ** str.c: comparison *)

(** memcmp(p, q, n): both ranges must lie inside live blocks and hold
    determinate bytes.  The result is zero when the ranges hold the same
    bytes, and otherwise has the sign of the difference of the first pair
    of bytes that differ. *)
Fixpoint compare_bytes (xs ys : list Z) : Z :=
  match xs, ys with
  | x :: xs', y :: ys' => if x =? y then compare_bytes xs' ys' else x - y
  | _, _ => 0
  end.

Definition read_bytes (st : state) (p : ptr) (n : Z) : option (list Z) :=
  cs ← cells_from st p;
  if Z.of_nat (length cs) <? n then None else cell_values (take (nat_of n) cs).

Definition memcmp (p q : ptr) (n : Z) : M Z :=
  λ st, match read_bytes st p n, read_bytes st q n with
        | Some xs, Some ys => Ret (compare_bytes xs ys, st)
        | _, _ => Stuck
        end.

Section StrEq.

Variable NDEBUG : bool.

Definition str_eq (s1 s2 : sptr) : M bool :=
  assert NDEBUG (b <- str_ok s1 ;; if b : bool then str_ok s2 else ret false) ;;;
  v1 <- load_str s1 ;;
  v2 <- load_str s2 ;;
  if len v1 =? len v2 then
    r <- memcmp (buf v1) (buf v2) (len v1) ;;
    ret (r =? 0)
  else ret false.

End StrEq.

(** ** A loop over the tokens of a string *)

(** The way [str_tok] is meant to be called:
      while ((s = str_tok(s, &token, delim))) { ... token ... }
    The loop below collects the content of the token buffer after each
    call that does not return NULL. *)
Fixpoint tok_loop (NDEBUG : bool) (fuel : nat) (s : ptr) (token : addr) (delim : ptr)
    : M (list (list Z)) :=
  match fuel with
  | O => diverge
  | S fuel' =>
      s' <- str_tok NDEBUG s (Some token) delim ;;
      match s' with
      | NULL => ret []
      | _ =>
          st <- get ;;
          t <- lift_opt (content st token) ;;
          ts <- tok_loop NDEBUG fuel' s' token delim ;;
          ret (t :: ts)
      end
  end.

(** The tokens of an input: the maximal runs of non-delimiters, from left
    to right. *)
Fixpoint tokens_of (fuel : nat) (ds inp : list Z) : list (list Z) :=
  match fuel with
  | O => []
  | S fuel' =>
      if decide (token_of ds inp = []) then []
      else token_of ds inp :: tokens_of fuel' ds (after_token ds inp)
  end.

(** ** What a call leaves alone *)

(** Seen from the users of the module: every other valid buffer (with
    storage of its own) keeps its block and its content, and every string
    outside the block [b] reads as before. *)
Definition others_kept (a : addr) (b : block) (st st' : state) : Prop :=
  (∀ a2 b2 c2, a2 ≠ a → b2 ≠ b → str_in st a2 b2 c2 → str_in st' a2 b2 c2) ∧
  (∀ p bs, ptr_block p ≠ Some b → cstr_in st p bs → cstr_in st' p bs).

(** [example_state] with two more literals: a template with string
    specifiers (block 9) and one with a specifier that [str_cat_fmt]
    does not know (block 10). *)
Definition example_state_fmt : state :=
  final_state ((literal (bytes_of "<%s|%S>") ;;; literal (bytes_of "n=%d")) example_state).

(** ** Command lines *)

(** A well-formed option: one of the three flags, or one of the three
    value tags followed by its value. *)
Inductive option_arg : Type :=
| ArgChess960
| ArgRandom
| ArgRepeat
| ArgConcurrency (v : list Z)
| ArgGames (v : list Z)
| ArgOpenings (v : list Z).

(** The strings an option is written with. *)
Definition arg_strings (x : option_arg) : list (list Z) :=
  match x with
  | ArgChess960 => [bytes_of "-chess960"]
  | ArgRandom => [bytes_of "-random"]
  | ArgRepeat => [bytes_of "-repeat"]
  | ArgConcurrency v => [bytes_of "-concurrency"; v]
  | ArgGames v => [bytes_of "-games"; v]
  | ArgOpenings v => [bytes_of "-openings"; v]
  end.

(** A value is a string that does not start with '-'; it may be empty. *)
Definition is_value (v : list Z) : Prop := hd 0 v ≠ 45.

Definition arg_ok (x : option_arg) : Prop :=
  match x with
  | ArgConcurrency v | ArgGames v | ArgOpenings v => is_value v
  | _ => True
  end.

(** The settings a command line stands for.  The opening book is the
    content of the [openings] buffer. *)
Record settings : Type := mk_settings {
  set_chess960 : bool;
  set_concurrency : Z;
  set_games : Z;
  set_openings : list Z;
  set_random : bool;
  set_repeat : bool
}.

Definition default_settings : settings := mk_settings false 1 1 [] false false.

Definition set_option (s : settings) (x : option_arg) : settings :=
  match x with
  | ArgChess960 =>
      mk_settings true (set_concurrency s) (set_games s) (set_openings s)
        (set_random s) (set_repeat s)
  | ArgRandom =>
      mk_settings (set_chess960 s) (set_concurrency s) (set_games s) (set_openings s)
        true (set_repeat s)
  | ArgRepeat =>
      mk_settings (set_chess960 s) (set_concurrency s) (set_games s) (set_openings s)
        (set_random s) true
  | ArgConcurrency v =>
      mk_settings (set_chess960 s) (atoi v) (set_games s) (set_openings s)
        (set_random s) (set_repeat s)
  | ArgGames v =>
      mk_settings (set_chess960 s) (set_concurrency s) (atoi v) (set_openings s)
        (set_random s) (set_repeat s)
  | ArgOpenings v =>
      mk_settings (set_chess960 s) (set_concurrency s) (set_games s) v
        (set_random s) (set_repeat s)
  end.

(** The [Options] value [o] agrees with the settings [s] on the flags and
    the numbers; in the state [st] it holds them, with the opening book in
    its buffer. *)
Definition agrees (o : Options) (s : settings) : Prop :=
  chess960 o = set_chess960 s ∧ concurrency o = set_concurrency s ∧
  games o = set_games s ∧ random o = set_random s ∧ repeat o = set_repeat s.

Definition holds (st : state) (o : Options) (s : settings) : Prop :=
  agrees o s ∧ ∃ b, str_val st (openings o) b (set_openings s).

(** The ways a command line goes wrong after a well-formed part, with the
    diagnostic each one ends in.  [prev] is the string before the
    offending one.  A tag that asks for a value is, as in the sources, a
    string starting with '-' that occurs in "-concurrency -games
    -openings". *)
Definition asks_value (t : list Z) : Prop :=
  hd 0 t = 45 ∧ strstr_b (bytes_of "-concurrency -games -openings") t = true.

Inductive bad_tail (prev : list Z) : list (list Z) → string → list (list Z) → Prop :=
| bad_value v rest :
    is_value v →
    bad_tail prev (v :: rest)
      "tag expected after '%s'. found value '%s' instead.\n" [prev; v]
| bad_missing t :
    asks_value t →
    bad_tail prev [t] "value expected after '%s'\n" [t]
| bad_tag_for_value t t' rest :
    asks_value t → hd 0 t' = 45 →
    bad_tail prev (t :: t' :: rest)
      "value expected after '%s'. found tag '%s' instead.\n" [t; t']
| bad_unknown t rest :
    hd 0 t = 45 → strstr_b (bytes_of "-concurrency -games -openings") t = false →
    t ∉ [bytes_of "-chess960"; bytes_of "-random"; bytes_of "-repeat"] →
    bad_tail prev (t :: rest) "invalid tag '%s'\n" [t].

(** A command line in memory: the strings as literals, in the blocks 0,
    1, ... in order. *)
Definition example_cmdline : list string :=
  ["c-chess-cli"; "-games"; "20"; "-chess960"; "-openings"; "book.epd"; "-games"; "7"]%string.

Definition example_cmd_state : state := final_state (literals example_cmdline empty_state).

Definition example_argv : list ptr :=
  (λ k, Ptr k 0) <$> seq 0 (length example_cmdline).

(** The same command line cut short after "-openings". *)
Definition example_bad_argv : list ptr := take 5 example_argv.

(** A command line with two numbers. *)
Definition example_numbers : list string :=
  ["c-chess-cli"; "-games"; "20"; "-concurrency"; "4"]%string.

Definition example_numbers_state : state :=
  final_state (literals example_numbers empty_state).

Definition example_numbers_argv : list ptr :=
  (λ k, Ptr k 0) <$> seq 0 (length example_numbers).




(** ** A loop over the lines of a stream *)

(** The way [str_getline] is meant to be called:
      while (str_getline(&line, in)) { ... line ... }
    The loop below collects the content of the line buffer after each
    call that does not return 0. *)
Fixpoint getline_all (NDEBUG : bool) (fuel : nat) (out : addr) (inp : stream)
    : M (list (list Z)) :=
  match fuel with
  | O => diverge
  | S fuel' =>
      r <- str_getline NDEBUG (Some out) inp ;;
      if r.1 =? 0 then ret []
      else
        st <- get ;;
        l <- lift_opt (content st out) ;;
        ls <- getline_all NDEBUG fuel' out r.2 ;;
        ret (l :: ls)
  end.

(** The lines of a stream: what precedes each newline, and what follows
    the last one if that is not empty. *)
Fixpoint lines_of (fuel : nat) (inp : stream) : list (list Z) :=
  match fuel with
  | O => []
  | S fuel' =>
      match inp with
      | [] => []
      | _ => line_of inp :: lines_of fuel' (after_line inp)
      end
  end.

(** The newline a stream lacks at its end: none if the stream is empty
    or ends in a newline. *)
Definition closing (inp : stream) : list Z :=
  if decide (inp = [] ∨ last inp = Some 10) then [] else [10].

(** ** Builds with and without assertions *)

(** [m'] returns whatever [m] returns, in the same state. *)
Definition returns_as {A} (m m' : M A) : Prop :=
  ∀ st x st', m st = Ret (x, st') → m' st = Ret (x, st').

(** A computation that only inspects the state. *)
Definition state_preserving {A} (m : M A) : Prop :=
  ∀ st x st', m st = Ret (x, st') → st' = st.

(** * Lemmas *)

(** ** Rounding up *)

Lemma size_wrap_small z : 0 ≤ z < SIZE_MOD → size_wrap z = z.
Proof. intros. unfold size_wrap. apply Z.mod_small. done. Qed.

Lemma SIZE_MOD_eq : SIZE_MOD = 2 ^ 64.
Proof. reflexivity. Qed.

Lemma pow2_double k : 0 ≤ k → 2 ^ k * 2 = 2 ^ (k + 1).
Proof. intros. rewrite Z.pow_add_r by lia. lia. Qed.

Lemma round_up_loop_pow2 n fuel : ∀ k,
  0 ≤ k ≤ 63 → n ≤ 2 ^ 63 → 63 - k < Z.of_nat fuel →
  ∃ j, k ≤ j ≤ 63 ∧ round_up_loop fuel (2 ^ k) n = Some (2 ^ j)
       ∧ n ≤ 2 ^ j ∧ (k < j → 2 ^ (j - 1) < n).
Proof.
  induction fuel as [|fuel IH]; intros k Hk Hn Hf; [lia|].
  simpl. destruct (Z.ltb_spec (2 ^ k) n) as [Hlt|Hge].
  - assert (k < 63).
    { destruct (decide (k = 63)) as [->|]; [lia|lia]. }
    rewrite pow2_double by lia.
    rewrite size_wrap_small.
    2:{ rewrite SIZE_MOD_eq. split; [apply Z.pow_nonneg; lia|].
        apply Z.pow_lt_mono_r; lia. }
    destruct (IH (k + 1)) as (j & Hj & E & Hle & Hmin); [lia|lia|lia|].
    exists j. split; [lia|]. split; [done|]. split; [done|].
    intros _. destruct (decide (j = k + 1)) as [->|].
    + replace (k + 1 - 1) with k by lia. done.
    + apply Hmin. lia.
  - exists k. split; [lia|]. split; [done|]. split; [lia|]. lia.
Qed.

Lemma round_up_loop_wrapped n fuel : ∀ p2,
  (p2 = 0 ∨ ∃ k, 0 ≤ k ≤ 63 ∧ p2 = 2 ^ k) → 2 ^ 63 < n →
  round_up_loop fuel p2 n = None.
Proof.
  induction fuel as [|fuel IH]; intros p2 Hp Hn; [done|].
  simpl.
  assert (p2 < n) as Hlt.
  { destruct Hp as [->|(k & Hk & ->)]; [lia|].
    assert (2 ^ k ≤ 2 ^ 63) by (apply Z.pow_le_mono_r; lia). lia. }
  apply Z.ltb_lt in Hlt. rewrite Hlt.
  apply IH; [|done].
  destruct Hp as [->|(k & Hk & ->)]; [by left|].
  destruct (decide (k = 63)) as [->|].
  - left. reflexivity.
  - right. exists (k + 1). split; [lia|].
    rewrite pow2_double by lia. apply size_wrap_small.
    rewrite SIZE_MOD_eq. split; [apply Z.pow_nonneg; lia|].
    apply Z.pow_lt_mono_r; lia.
Qed.

Lemma round_up_loop_more fuel : ∀ p2 n r,
  round_up_loop fuel p2 n = Some r → round_up_loop (S fuel) p2 n = Some r.
Proof.
  induction fuel as [|fuel IH]; intros p2 n r E; [done|].
  simpl in E. change (round_up_loop (S (S fuel)) p2 n)
    with (if p2 <? n then round_up_loop (S fuel) (size_wrap (p2 * 2)) n else Some p2).
  destruct (p2 <? n); [by apply IH|done].
Qed.

Lemma round_up_loop_fuel fuel n :
  (64 ≤ fuel)%nat →
  round_up_loop fuel (2 * sizeof_size_t) n = round_up_loop 64 (2 * sizeof_size_t) n.
Proof.
  intros Hf. change (2 * sizeof_size_t) with (2 ^ 4).
  destruct (Z.le_gt_cases n (2 ^ 63)) as [Hn|Hn].
  - destruct (round_up_loop_pow2 n 64 4) as (j & _ & E & _); [lia|done|lia|].
    rewrite E. clear -E Hf.
    induction Hf as [|m Hm IH]; [done|]. by apply round_up_loop_more.
  - rewrite !round_up_loop_wrapped; try done; right; exists 4; (split; [lia|done]).
Qed.


Lemma str_round_up_spec n :
  n ≤ 2 ^ 63 →
  ∃ p, str_round_up n = Some p ∧ is_pow2 p ∧ 2 * sizeof_size_t ≤ p ∧ n ≤ p ∧ p ≤ 2 ^ 63 ∧
       ∀ q, is_pow2 q → 2 * sizeof_size_t ≤ q → n ≤ q → p ≤ q.
Proof.
  intros Hn. unfold str_round_up. change (2 * sizeof_size_t) with (2 ^ 4).
  destruct (round_up_loop_pow2 n 64 4) as (j & Hj & E & Hle & Hmin); [lia|done|lia|].
  exists (2 ^ j). split; [done|]. split; [exists j; split; [lia|done]|].
  split; [apply Z.pow_le_mono_r; lia|]. split; [done|].
  split; [apply Z.pow_le_mono_r; lia|].
  intros q (m & Hm & ->) Hq Hnq.
  destruct (decide (j = 4)) as [->|]; [done|].
  assert (2 ^ (j - 1) < 2 ^ m) as Hlt by (specialize (Hmin ltac:(lia)); lia).
  apply Z.pow_lt_mono_r_iff in Hlt; [|lia|lia].
  apply Z.pow_le_mono_r; lia.
Qed.

(** ** The monad *)

Lemma bind_ret {A B} (m : M A) (k : A → M B) st a st' :
  m st = Ret (a, st') → bind m k st = k a st'.
Proof. unfold bind. by intros ->. Qed.

Lemma bind_assoc {A B C} (m : M A) (f : A → M B) (g : B → M C) st :
  bind (bind m f) g st = bind m (λ x, bind (f x) g) st.
Proof. unfold bind. by destruct (m st) as [[]| | | |]. Qed.

Lemma assert_true NDEBUG (e : M bool) st :
  e st = Ret (true, st) → assert NDEBUG e st = Ret (tt, st).
Proof.
  intros E. unfold assert. destruct NDEBUG; [done|].
  by rewrite (bind_ret _ _ _ _ _ E).
Qed.

Lemma nat_of_nat (n : nat) : nat_of (Z.of_nat n) = n.
Proof. apply Nat2Z.id. Qed.

(** ** Memory primitives on a live block *)

Lemma block_cells_live st b cs :
  heap st !! b = Some (Live cs) → block_cells st b = Some cs.
Proof. unfold block_cells. by intros ->. Qed.

Lemma cells_from_live st b cs o :
  heap st !! b = Some (Live cs) → 0 ≤ o ≤ Z.of_nat (length cs) →
  cells_from st (Ptr b o) = Some (drop (nat_of o) cs).
Proof.
  intros H Ho. unfold cells_from. rewrite (block_cells_live _ _ _ H).
  destruct (Z.leb_spec 0 o); [|lia].
  destruct (Z.leb_spec o (Z.of_nat (length cs))); [done|lia].
Qed.

Lemma cells_from_inv st p cs :
  cells_from st p = Some cs →
  ∃ b o all, p = Ptr b o ∧ heap st !! b = Some (Live all) ∧
             0 ≤ o ≤ Z.of_nat (length all) ∧ cs = drop (nat_of o) all.
Proof.
  destruct p as [|b o]; [done|]. unfold cells_from, block_cells.
  destruct (heap st !! b) as [[all|]|] eqn:E; try done.
  destruct (Z.leb_spec 0 o); [|done].
  destruct (Z.leb_spec o (Z.of_nat (length all))); [|done].
  intros [= <-]. exists b, o, all. repeat split; done || lia.
Qed.

Lemma load_live st b cs o v :
  heap st !! b = Some (Live cs) → 0 ≤ o → cs !! nat_of o = Some (Byte v) →
  load (Ptr b o) st = Ret (v, st).
Proof.
  intros H Ho Hv. unfold load.
  assert (nat_of o < length cs)%nat by (eapply lookup_lt_Some; done).
  rewrite (cells_from_live _ _ _ _ H) by (unfold nat_of in *; lia).
  by rewrite (drop_S _ _ _ Hv).
Qed.

Lemma store_live st b cs o v :
  heap st !! b = Some (Live cs) → 0 ≤ o < Z.of_nat (length cs) →
  store (Ptr b o) v st = Ret (tt, set_block b (Live (<[nat_of o := Byte v]> cs)) st).
Proof.
  intros H Ho. unfold store. rewrite (block_cells_live _ _ _ H).
  destruct (Z.leb_spec 0 o); [|lia].
  destruct (Z.ltb_spec o (Z.of_nat (length cs))); [done|lia].
Qed.

Lemma byte_ok_nonzero x : byte_ok x → x ≠ 0.
Proof. unfold byte_ok. lia. Qed.

Lemma cstr_len_app bs rest :
  Forall byte_ok bs → cstr_len ((Byte <$> bs) ++ Byte 0 :: rest) = Some (length bs).
Proof.
  induction 1 as [|x bs Hx _ IH]; [done|].
  rewrite fmap_cons. cbn [app cstr_len]. apply byte_ok_nonzero in Hx.
  destruct (Z.eqb_spec x 0); [done|]. by rewrite IH.
Qed.

Lemma cell_values_bytes bs : cell_values (Byte <$> bs) = Some bs.
Proof. induction bs as [|x bs IH]; [done|]. rewrite fmap_cons. cbn [cell_values]. by rewrite IH. Qed.

Lemma strlen_cstr st p bs :
  cstr_in st p bs → strlen p st = Ret (Z.of_nat (length bs), st).
Proof.
  intros (rest & E & Hbs). unfold strlen. rewrite E. simpl.
  by rewrite cstr_len_app.
Qed.

Lemma cstr_at_cstr st p bs : cstr_in st p bs → cstr_at st p = Some bs.
Proof.
  intros (rest & E & Hbs). unfold cstr_at. rewrite E. simpl.
  rewrite cstr_len_app by done. simpl.
  rewrite take_app_length' by (by rewrite length_fmap).
  apply cell_values_bytes.
Qed.

Lemma read_cstr_cstr st p bs : cstr_in st p bs → read_cstr p st = Ret (bs, st).
Proof. intros H. unfold read_cstr. by rewrite (cstr_at_cstr _ _ _ H). Qed.

(** memchr over determinate bytes. *)
Lemma memchr_cells_absent bs rest c n i :
  (n ≤ length bs)%nat → Forall (λ x, x ≠ c) (take n bs) →
  memchr_cells ((Byte <$> bs) ++ rest) c n i = Some None.
Proof.
  revert bs i. induction n as [|n IH]; intros bs i Hn Hall; [done|].
  destruct bs as [|x bs]; [simpl in Hn; lia|].
  simpl in *. inversion Hall as [|?? Hx Hall']; subst.
  destruct (Z.eqb_spec x c); [done|]. apply IH; [lia|done].
Qed.

Lemma memchr_cells_found pre post rest c n i :
  Forall (λ x, x ≠ c) pre → (length pre < n)%nat →
  memchr_cells ((Byte <$> (pre ++ c :: post)) ++ rest) c n i
  = Some (Some (i + Z.of_nat (length pre))).
Proof.
  revert pre i. induction n as [|n IH]; intros pre i Hall Hn; [lia|].
  destruct pre as [|x pre]; simpl in *.
  - rewrite Z.eqb_refl. f_equal. f_equal. lia.
  - inversion Hall as [|?? Hx Hall']; subst.
    destruct (Z.eqb_spec x c); [done|].
    rewrite IH by (done || lia). f_equal. f_equal. lia.
Qed.

Lemma memchr_absent st p bs rest c n :
  cells_from st p = Some ((Byte <$> bs) ++ rest) →
  0 ≤ n ≤ Z.of_nat (length bs) → Forall (λ x, x ≠ c) (take (nat_of n) bs) →
  memchr p c n st = Ret (NULL, st).
Proof.
  intros E Hn Hall. unfold memchr. rewrite E. cbn [mbind option_bind].
  rewrite memchr_cells_absent; [done| |done]. unfold nat_of. lia.
Qed.

Lemma memchr_found st p pre post rest c n :
  cells_from st p = Some ((Byte <$> (pre ++ c :: post)) ++ rest) →
  Forall (λ x, x ≠ c) pre → Z.of_nat (length pre) < n →
  memchr p c n st = Ret (ptr_add p (Z.of_nat (length pre)), st).
Proof.
  intros E Hall Hn. unfold memchr. rewrite E. cbn [mbind option_bind].
  rewrite memchr_cells_found; [done|done|]. unfold nat_of. lia.
Qed.

Lemma memcpy_live st b dcs o src scs n :
  heap st !! b = Some (Live dcs) → cells_from st src = Some scs →
  0 ≤ o → 0 ≤ n → o + n ≤ Z.of_nat (length dcs) → n ≤ Z.of_nat (length scs) →
  ranges_clash (Ptr b o) src n = false →
  memcpy (Ptr b o) src n st
  = Ret (tt, set_block b (Live (take (nat_of o) dcs ++ take (nat_of n) scs
                                ++ drop (nat_of (o + n)) dcs)) st).
Proof.
  intros Hb Hs Ho Hn Hon Hns Hc. unfold memcpy. rewrite Hs.
  rewrite (block_cells_live _ _ _ Hb), Hc.
  destruct (Z.leb_spec 0 o); [|lia].
  destruct (Z.leb_spec (o + n) (Z.of_nat (length dcs))); [|lia].
  destruct (Z.leb_spec n (Z.of_nat (length scs))); [done|lia].
Qed.

Lemma load_str_some st a v : vars st !! a = Some v → load_str (Some a) st = Ret (v, st).
Proof. unfold load_str. by intros ->. Qed.

Lemma store_str_some st a v w :
  vars st !! a = Some v →
  store_str (Some a) w st = Ret (tt, mk_state (<[a := w]> (vars st)) (heap st)).
Proof. unfold store_str. by intros ->. Qed.

Lemma round_up_some n p st : str_round_up n = Some p → round_up n st = Ret (p, st).
Proof. unfold round_up. by intros ->. Qed.

(** ** Valid buffers *)

Lemma str_round_up_bound n r : str_round_up n = Some r → n ≤ 2 ^ 63.
Proof.
  intros Hr. destruct (Z.le_gt_cases n (2 ^ 63)) as [|Hgt]; [done|].
  unfold str_round_up in Hr. rewrite round_up_loop_wrapped in Hr; [done| |done].
  right. exists 4. split; [lia|done].
Qed.

Lemma owns_len_bound st a b n cs : owns st a b n cs → n + 1 ≤ 2 ^ 63.
Proof. intros (v & r & _ & _ & _ & _ & _ & Hr & _). by eapply str_round_up_bound. Qed.

Lemma str_in_len_bound st a b c : str_in st a b c → Z.of_nat (length c) + 1 ≤ 2 ^ 63.
Proof. intros (rest & H & _). by eapply owns_len_bound. Qed.

Lemma str_ok_valid st a b c :
  str_in st a b c → str_ok (Some a) st = Ret (true, st).
Proof.
  intros H. pose proof (str_in_len_bound _ _ _ _ H) as Hb.
  destruct H as (rest & (v & r & Hv & Hbuf & Hl & Hh & Ha & Hr & Hra) & Hc).
  unfold str_ok.
  rewrite (bind_ret _ _ _ _ _ (load_str_some _ _ _ Hv)).
  rewrite Hl, size_wrap_small by (rewrite SIZE_MOD_eq; lia).
  rewrite (bind_ret _ _ _ _ _ (round_up_some _ _ _ Hr)).
  destruct (Z.leb_spec r (alloc v)); [|lia]. simpl.
  rewrite Hbuf. simpl.
  erewrite bind_ret; last first.
  { eapply load_live; [done|lia|]. rewrite Z.add_0_l, nat_of_nat.
    rewrite lookup_app_r by (rewrite length_fmap; lia).
    rewrite length_fmap, Nat.sub_diag. done. }
  simpl. erewrite bind_ret; last first.
  { eapply (memchr_absent _ _ c (Byte 0 :: rest)).
    - rewrite (cells_from_live _ _ _ _ Hh) by (rewrite length_app; simpl; lia).
      done.
    - lia.
    - rewrite take_ge by (unfold nat_of; lia).
      eapply Forall_impl; [done|]. intros x. apply byte_ok_nonzero. }
  done.
Qed.

Lemma heap_fresh_none (st : state) : heap st !! fresh (dom (heap st)) = None.
Proof. apply not_elem_of_dom. apply is_fresh. Qed.

Lemma size_wrap_id z : 0 ≤ z ≤ 2 ^ 63 → size_wrap z = z.
Proof. intros. apply size_wrap_small. rewrite SIZE_MOD_eq. lia. Qed.

Lemma realloc_live st b cs n :
  heap st !! b = Some (Live cs) →
  realloc (Ptr b 0) n st
  = Ret (Ptr (fresh (dom (heap st))) 0,
         set_block (fresh (dom (heap st)))
           (Live (take (nat_of n) (cs ++ replicate (nat_of n - length cs) Undef)))
           (set_block b Freed st)).
Proof. intros H. unfold realloc. by rewrite (block_cells_live _ _ _ H). Qed.

(** Writing into the block a buffer owns. *)
Lemma owns_set_block st a b n cs cs' :
  owns st a b n cs → length cs' = length cs →
  owns (set_block b (Live cs') st) a b n cs'.
Proof.
  intros (v & r & Hv & Hbuf & Hl & Hh & Ha & Hr & Hra) Hlen.
  exists v, r. unfold set_block. cbn [vars heap].
  rewrite lookup_insert_eq, Hlen. done.
Qed.

Lemma frame_refl a b st : frame a b st st.
Proof. by split. Qed.

Lemma frame_set_block a b b' x st st' :
  frame a b st st' → b' = b ∨ heap st !! b' = None →
  frame a b st (set_block b' x st').
Proof.
  intros [Hv Hh] Hb'. split; [done|].
  intros b'' y Hne Hy. unfold set_block. cbn [heap].
  rewrite lookup_insert_ne; [by apply Hh|].
  intros <-. destruct Hb' as [->|Hn]; [done|]. by rewrite Hn in Hy.
Qed.

(** [str_resize] on a valid buffer: the struct gets the new length; the
    block is kept when it is large enough and otherwise replaced by a
    larger one starting with the old cells; the terminator is written at
    the new length. *)
Lemma str_resize_spec NDEBUG st a b c n :
  str_in st a b c → 0 ≤ n → n + 1 ≤ 2 ^ 63 →
  ∃ st' b' rest U,
    str_resize NDEBUG (Some a) n st = Ret (tt, st') ∧
    heap st !! b = Some (Live ((Byte <$> c) ++ Byte 0 :: rest)) ∧
    owns st' a b' n (<[nat_of n := Byte 0]> ((Byte <$> c) ++ Byte 0 :: rest ++ U)) ∧
    frame a b st st' ∧
    (b' = b ∧ U = [] ∨ heap st !! b' = None).
Proof.
  intros H Hn0 Hn.
  pose proof (str_ok_valid _ _ _ _ H) as Hok.
  destruct H as (rest & (v & r0 & Hv & Hbuf & Hl & Hh & Ha & Hr0 & Hra) & Hc).
  destruct (str_round_up_spec (n + 1) Hn) as (r & Hr & _ & _ & Hrn & _).
  unfold str_resize.
  rewrite (bind_ret _ _ _ _ _ (assert_true NDEBUG _ _ Hok)).
  rewrite (bind_ret _ _ _ _ _ (load_str_some _ _ _ Hv)).
  rewrite (bind_ret _ _ _ _ _ (store_str_some _ _ _ _ Hv)).
  erewrite bind_ret; [|apply load_str_some; simpl; apply lookup_insert_eq].
  rewrite size_wrap_id by lia.
  rewrite (bind_ret _ _ _ _ _ (round_up_some _ _ _ Hr)).
  cbn [alloc len buf].
  rewrite length_app, length_fmap in Ha. cbn [length] in Ha.
  destruct (Z.ltb_spec (alloc v) r) as [Hlt|Hge].
  - (* the block is replaced *)
    set (b' := fresh (dom (heap st))).
    set (U := replicate (nat_of r - (length c + 1 + length rest)) Undef).
    set (ext := (Byte <$> c) ++ Byte 0 :: rest ++ U).
    assert (length ext = nat_of r) as Hext.
    { unfold ext, U. rewrite length_app, length_fmap. simpl.
      rewrite length_app, length_replicate. unfold nat_of. lia. }
    exists (mk_state (<[a := mk_str n r (Ptr b' 0)]> (vars st))
                     (<[b' := Live (<[nat_of n := Byte 0]> ext)]>
                        (<[b := Freed]> (heap st)))),
      b', rest, U.
    split.
    { rewrite bind_assoc.
      rewrite (bind_ret _ _ _ _ _ (round_up_some _ _ _ Hr)).
      rewrite bind_assoc.
      erewrite bind_ret; [|eapply store_str_some; simpl; apply lookup_insert_eq].
      rewrite bind_assoc.
      erewrite bind_ret; [|apply load_str_some; simpl; apply lookup_insert_eq].
      cbn [alloc len buf vars heap]. rewrite Hbuf.
      rewrite bind_assoc.
      erewrite bind_ret; [|by apply realloc_live].
      fold b'. cbn [vars heap set_block].
      erewrite bind_ret; [|eapply store_str_some; simpl; apply lookup_insert_eq].
      erewrite bind_ret; [|apply load_str_some; simpl; apply lookup_insert_eq].
      cbn [ptr_add buf vars heap]. rewrite Z.add_0_l.
      replace (take (nat_of r) _) with ext; last first.
      { unfold ext, U. rewrite take_ge.
        - rewrite <- !app_assoc. simpl. rewrite length_app, length_fmap. simpl.
          f_equal. f_equal. f_equal. f_equal. f_equal. lia.
        - rewrite length_app, length_app, length_fmap, length_replicate. simpl.
          unfold nat_of. lia. }
      erewrite store_live; [|simpl; apply lookup_insert_eq|unfold nat_of in *; lia].
      unfold set_block. cbn [vars heap]. by rewrite !insert_insert_eq. }
    split; [done|]. split.
    { exists (mk_str n r (Ptr b' 0)), r. cbn [vars heap len buf alloc].
      fold ext. rewrite !lookup_insert_eq, length_insert, Hext.
      repeat split; try done; unfold nat_of; lia. }
    split.
    { split; cbn [vars heap].
      - intros a' Hne. by rewrite lookup_insert_ne.
      - intros b'' x Hne Hx.
        assert (b'' ≠ b') by (intros ->; unfold b' in Hx; by rewrite heap_fresh_none in Hx).
        by rewrite !lookup_insert_ne. }
    right. apply heap_fresh_none.
  - (* the block is kept *)
    exists (mk_state (<[a := mk_str n (alloc v) (Ptr b 0)]> (vars st))
                     (<[b := Live (<[nat_of n := Byte 0]> ((Byte <$> c) ++ Byte 0 :: rest))]>
                        (heap st))),
      b, rest, [].
    rewrite app_nil_r.
    split.
    { unfold bind at 1. cbn [ret].
      erewrite bind_ret; [|apply load_str_some; simpl; apply lookup_insert_eq].
      cbn [ptr_add buf vars heap].
      rewrite Hbuf. cbn [ptr_add]. rewrite Z.add_0_l.
      erewrite store_live; [|exact Hh|].
      - unfold set_block. cbn [vars heap]. done.
      - rewrite length_app, length_fmap. simpl. lia. }
    split; [done|]. split.
    { exists (mk_str n (alloc v) (Ptr b 0)), r. cbn [vars heap len buf alloc].
      rewrite !lookup_insert_eq, length_insert, length_app, length_fmap.
      cbn [length]. repeat split; try done; lia. }
    split.
    { split; cbn [vars heap].
      - intros a' Hne. by rewrite lookup_insert_ne.
      - intros b'' x Hne Hx. by rewrite lookup_insert_ne. }
    by left.
Qed.

(** ** Frames *)

Lemma frame_trans a b b1 st st1 st2 :
  frame a b st st1 → b1 = b ∨ heap st !! b1 = None → frame a b1 st1 st2 →
  frame a b st st2.
Proof.
  intros [Hv1 Hh1] Hb1 [Hv2 Hh2]. split.
  - intros a' Hne. rewrite Hv2, Hv1; done.
  - intros b' x Hne Hx. apply Hh2; [|by apply Hh1].
    intros ->. destruct Hb1 as [->|Hn]; [done|]. by rewrite Hn in Hx.
Qed.

Lemma frame_fresh a b b1 b2 st st1 :
  frame a b st st1 → b1 = b ∨ heap st !! b1 = None →
  b2 = b1 ∨ heap st1 !! b2 = None →
  b2 = b ∨ heap st !! b2 = None.
Proof.
  intros [_ Hh] Hb1 [->|Hn]; [done|].
  destruct (decide (b2 = b)) as [|Hne]; [by left|]. right.
  destruct (heap st !! b2) as [x|] eqn:E; [|done].
  rewrite (Hh _ _ Hne E) in Hn. done.
Qed.

Lemma updated_trans a b c1 c2 st st1 st2 :
  updated a b c1 st st1 →
  (∀ b1, str_in st1 a b1 c1 → updated a b1 c2 st1 st2) →
  updated a b c2 st st2.
Proof.
  intros (b1 & Hs1 & Hf1 & Hb1) H2.
  destruct (H2 _ Hs1) as (b2 & Hs2 & Hf2 & Hb2).
  exists b2. split; [done|]. split; [by eapply frame_trans|by eapply frame_fresh].
Qed.

Lemma updated_refl a b c st : str_in st a b c → updated a b c st st.
Proof. intros H. exists b. split; [done|]. split; [apply frame_refl|by left]. Qed.

Lemma cells_from_frame a b st st' p cs :
  frame a b st st' → ptr_block p ≠ Some b →
  cells_from st p = Some cs → cells_from st' p = Some cs.
Proof.
  intros [_ Hh] Hp E.
  destruct (cells_from_inv _ _ _ E) as (bp & o & all & -> & Hall & Ho & ->).
  assert (bp ≠ b) by (simpl in Hp; congruence).
  by rewrite (cells_from_live _ _ all) by (done || by apply Hh).
Qed.

Lemma cstr_in_frame a b st st' p bs :
  frame a b st st' → ptr_block p ≠ Some b → cstr_in st p bs → cstr_in st' p bs.
Proof.
  intros Hf Hp (rest & E & Hbs). exists rest. split; [|done].
  by eapply cells_from_frame.
Qed.

Lemma owns_frame a b st st' a2 b2 n cs :
  frame a b st st' → a2 ≠ a → b2 ≠ b → owns st a2 b2 n cs → owns st' a2 b2 n cs.
Proof.
  intros [Hv Hh] Ha Hb (v & r & H1 & H2 & H3 & H4 & H5).
  exists v, r. rewrite Hv by done. rewrite (Hh _ _ Hb H4). done.
Qed.

Lemma str_in_frame a b st st' a2 b2 c :
  frame a b st st' → a2 ≠ a → b2 ≠ b → str_in st a2 b2 c → str_in st' a2 b2 c.
Proof.
  intros Hf Ha Hb (rest & Ho & Hc). exists rest. split; [|done].
  by eapply owns_frame.
Qed.

(** A live block differs from a block that is the buffer's or new. *)
Lemma live_block_other (st : state) b b1 bp x :
  b1 = b ∨ heap st !! b1 = None → bp ≠ b → heap st !! bp = Some x → bp ≠ b1.
Proof. intros [->|Hn] Hne Hx; [done|]. intros ->. by rewrite Hn in Hx. Qed.

(** ** The cells after a write *)

Lemma cat_cells (c bs : list Z) (tail srest : list cell) :
  (length bs < length tail)%nat →
  take (length c) (<[(length c + length bs)%nat := Byte 0]> ((Byte <$> c) ++ tail))
  ++ take (length bs) ((Byte <$> bs) ++ srest)
  ++ drop (length c + length bs) (<[(length c + length bs)%nat := Byte 0]> ((Byte <$> c) ++ tail))
  = (Byte <$> (c ++ bs)) ++ Byte 0 :: drop (S (length bs)) tail.
Proof.
  intros Hlen.
  rewrite take_insert_ge by lia.
  rewrite take_app_length' by (by rewrite length_fmap).
  rewrite take_app_length' by (by rewrite length_fmap).
  rewrite (drop_S _ (Byte 0)); last first.
  { apply list_lookup_insert_eq. rewrite length_app, length_fmap. lia. }
  rewrite drop_insert_lt by lia.
  rewrite fmap_app, <- app_assoc. do 3 f_equal.
  replace (S (length c + length bs)) with (length (Byte <$> c) + S (length bs))%nat
    by (rewrite length_fmap; lia).
  apply drop_app_add.
Qed.

Lemma ranges_clash_other b o bp op n :
  bp ≠ b → ranges_clash (Ptr b o) (Ptr bp op) n = false.
Proof. intros Hne. unfold ranges_clash. rewrite bool_decide_eq_false_2; [done|congruence]. Qed.

(** ** Appending *)

Lemma do_str_cat_spec NDEBUG st a b c p bs srest :
  str_in st a b c → cells_from st p = Some ((Byte <$> bs) ++ srest) →
  Forall byte_ok bs → ptr_block p ≠ Some b →
  Z.of_nat (length c + length bs) + 1 ≤ 2 ^ 63 →
  ∃ st', do_str_cat NDEBUG (Some a) p (Z.of_nat (length bs)) st = Ret (tt, st')
         ∧ updated a b (c ++ bs) st st'.
Proof.
  intros H Hp Hbs Hsep Hsz.
  destruct (str_resize_spec NDEBUG st a b c (Z.of_nat (length c + length bs)) H)
    as (st1 & b1 & rest & U & E1 & Hh & Ho1 & Hf1 & Hb1); [lia|lia|].
  destruct H as (rest0 & (v & r0 & Hv & Hbuf & Hl & Hh0 & _) & Hc).
  assert (b1 = b ∨ heap st !! b1 = None) as Hb1' by (destruct Hb1 as [[-> _]|]; auto).
  destruct (cells_from_inv _ _ _ Hp) as (bp & op & all & -> & Hall & Hop & Hdrop).
  assert (bp ≠ b) as Hne by (simpl in Hsep; congruence).
  assert (bp ≠ b1) as Hne1 by (by eapply live_block_other).
  pose proof (cells_from_frame _ _ _ _ _ _ Hf1 Hsep Hp) as Hp1.
  destruct Ho1 as (v1 & r1 & Hv1 & Hbuf1 & Hl1 & Hh1 & Ha1 & Hr1 & Hra1).
  set (cs1 := <[nat_of (Z.of_nat (length c + length bs)) := Byte 0]>
                ((Byte <$> c) ++ Byte 0 :: rest ++ U)) in *.
  assert (length c + length bs < length cs1)%nat as Hlen1.
  { pose proof (str_round_up_spec _ ltac:(eassumption)) as (r & Hr & _ & _ & Hrn & _).
    rewrite Hr1 in Hr. injection Hr as <-. lia. }
  eexists. split.
  { unfold do_str_cat.
    rewrite (bind_ret _ _ _ _ _ (load_str_some _ _ _ Hv)).
    rewrite Hl, <- Nat2Z.inj_add, size_wrap_id by lia.
    rewrite (bind_ret _ _ _ _ _ E1).
    rewrite (bind_ret _ _ _ _ _ (load_str_some _ _ _ Hv1)).
    rewrite Hbuf1. cbn [ptr_add]. rewrite Z.add_0_l.
    apply (memcpy_live _ _ _ _ _ _ _ Hh1 Hp1); try lia.
    - rewrite length_app, length_fmap. lia.
    - by apply ranges_clash_other. }
  rewrite <- Nat2Z.inj_add, !nat_of_nat.
  unfold cs1. rewrite nat_of_nat, cat_cells; last first.
  { unfold cs1 in Hlen1. rewrite length_insert, length_app, length_fmap in Hlen1.
    lia. }
  exists b1. split; [|split; [by apply frame_set_block|done]].
  exists (drop (S (length bs)) (Byte 0 :: rest ++ U)). split; [|by apply Forall_app].
  rewrite length_app, Nat2Z.inj_add.
  rewrite <- Nat2Z.inj_add.
  apply (owns_set_block _ _ _ _ cs1).
  - exists v1, r1. done.
  - unfold cs1. rewrite length_insert, !length_app, !length_fmap, length_app.
    cbn [length]. rewrite length_drop. cbn [length].
    unfold cs1 in Hlen1. rewrite length_insert, length_app, length_fmap in Hlen1.
    cbn [length] in Hlen1. lia.
Qed.

Lemma src_in_frame a b b1 st st1 p bs :
  frame a b st st1 → b1 = b ∨ heap st !! b1 = None →
  src_in st b p bs → src_in st1 b1 p bs.
Proof.
  intros Hf Hb1 [Hc Hsep]. split; [by eapply cstr_in_frame|].
  destruct Hc as (rest & E & _).
  destruct (cells_from_inv _ _ _ E) as (bp & o & all & -> & Hall & _).
  simpl in *. intros [= ->]. eapply live_block_other; [done| |done|done]. congruence.
Qed.

Lemma str_src_in_frame a b b1 st st1 s bs :
  frame a b st st1 → b1 = b ∨ heap st !! b1 = None →
  str_src_in st a b s bs → str_src_in st1 a b1 s bs.
Proof.
  intros Hf Hb1 (a2 & b2 & -> & Ha & Hb & Hs). exists a2, b2.
  split; [done|]. split; [done|]. split; [|by eapply str_in_frame].
  destruct Hs as (rest & (v & r & _ & _ & _ & Hh & _) & _).
  by eapply live_block_other.
Qed.

Lemma srcs_frame a b c1 st st1 ps bss :
  updated a b c1 st st1 → Forall2 (src_in st b) ps bss →
  ∀ b1, str_in st1 a b1 c1 → Forall2 (src_in st1 b1) ps bss.
Proof.
  intros (b1' & Hs & Hf & Hb) HF b1 Hs1.
  assert (b1 = b1') as ->.
  { destruct Hs as (? & (v & ? & Hv & Hbuf & _) & _).
    destruct Hs1 as (? & (v' & ? & Hv' & Hbuf' & _) & _). congruence. }
  eapply Forall2_impl; [done|]. intros p bs. by eapply src_in_frame.
Qed.

Lemma str_srcs_frame a b c1 st st1 ss bss :
  updated a b c1 st st1 → Forall2 (str_src_in st a b) ss bss →
  ∀ b1, str_in st1 a b1 c1 → Forall2 (str_src_in st1 a b1) ss bss.
Proof.
  intros (b1' & Hs & Hf & Hb) HF b1 Hs1.
  assert (b1 = b1') as ->.
  { destruct Hs as (? & (v & ? & Hv & Hbuf & _) & _).
    destruct Hs1 as (? & (v' & ? & Hv' & Hbuf' & _) & _). congruence. }
  eapply Forall2_impl; [done|]. intros p bs. by eapply str_src_in_frame.
Qed.

Lemma str_in_updated a b c st st' b' :
  updated a b c st st' → str_in st' a b' c → frame a b st st' ∧ (b' = b ∨ heap st !! b' = None).
Proof.
  intros (b1 & Hs & Hf & Hb) Hs1.
  assert (b' = b1) as ->; [|done].
  destruct Hs as (? & (v & ? & Hv & Hbuf & _) & _).
  destruct Hs1 as (? & (v' & ? & Hv' & Hbuf' & _) & _). congruence.
Qed.

Lemma cstr_in_not_null st p bs : cstr_in st p bs → p ≠ NULL.
Proof. intros (rest & E & _) ->. done. Qed.

(** One fragment: [strlen] then [do_str_cat]. *)
Lemma cat_one_spec NDEBUG st a b c p bs :
  str_in st a b c → src_in st b p bs →
  Z.of_nat (length c + length bs) + 1 ≤ 2 ^ 63 →
  ∃ st', (n <- strlen p ;; do_str_cat NDEBUG (Some a) p n) st = Ret (tt, st')
         ∧ updated a b (c ++ bs) st st'.
Proof.
  intros H [Hp Hsep] Hsz.
  rewrite (bind_ret _ _ _ _ _ (strlen_cstr _ _ _ Hp)).
  destruct Hp as (rest & E & Hbs).
  by eapply do_str_cat_spec.
Qed.

Lemma cat_loop_spec NDEBUG a ps : ∀ p bs bss st b c,
  str_in st a b c → src_in st b p bs → Forall2 (src_in st b) ps bss →
  Z.of_nat (length c + length (bs ++ concat bss)) + 1 ≤ 2 ^ 63 →
  ∃ st', cat_loop NDEBUG (Some a) (ps ++ [NULL]) p st = Ret (tt, st')
         ∧ updated a b (c ++ bs ++ concat bss) st st'.
Proof.
  induction ps as [|p' ps IH]; intros p bs bss st b c H Hp Hps Hsz.
  - inversion Hps; subst. simpl in *. rewrite app_nil_r in *.
    destruct (cat_one_spec NDEBUG _ _ _ _ _ _ H Hp Hsz) as (st1 & E1 & Hu).
    pose proof (cstr_in_not_null _ _ _ (proj1 Hp)) as Hnn.
    destruct p as [|bp op]; [done|].
    destruct Hu as (b1 & Hs1 & Hf1 & Hb1).
    exists st1. split; [|by exists b1].
    erewrite bind_ret; [|apply assert_true; done].
    rewrite <- bind_assoc, (bind_ret _ _ _ _ _ E1).
    erewrite bind_ret; [|apply assert_true; by eapply str_ok_valid]. done.
  - inversion Hps as [|? bs' ? bss' Hp' Hps']; subst.
    simpl in Hsz. rewrite !length_app in Hsz.
    destruct (cat_one_spec NDEBUG _ _ _ _ _ _ H Hp ltac:(lia)) as (st1 & E1 & Hu).
    pose proof (cstr_in_not_null _ _ _ (proj1 Hp)) as Hnn.
    destruct p as [|bp op]; [done|].
    pose proof Hu as (b1 & Hs1 & Hf1 & Hb1).
    destruct (IH p' bs' bss' st1 b1 (c ++ bs) Hs1) as (st2 & E2 & Hu2).
    { by eapply src_in_frame. }
    { by eapply srcs_frame. }
    { rewrite !length_app. lia. }
    exists st2. split.
    + cbn [cat_loop app].
      erewrite bind_ret; [|apply assert_true; done].
      rewrite <- bind_assoc, (bind_ret _ _ _ _ _ E1).
      erewrite bind_ret; [|apply assert_true; by eapply str_ok_valid]. done.
    + simpl. rewrite (app_assoc c bs). eapply updated_trans; [done|].
      intros b1' Hs1'.
      assert (b1' = b1) as ->; [|done].
      destruct Hs1 as (? & (v & ? & Hv & Hbuf & _) & _).
      destruct Hs1' as (? & (v' & ? & Hv' & Hbuf' & _) & _). congruence.
Qed.

Lemma updated_str_ok a b c st st' : updated a b c st st' → str_ok (Some a) st' = Ret (true, st').
Proof. intros (b1 & Hs & _). by eapply str_ok_valid. Qed.

(** [str_cat]: the fragments are appended in order. *)
Lemma str_cat_spec NDEBUG st a b c ps bss :
  str_in st a b c → Forall2 (src_in st b) ps bss →
  Z.of_nat (length c + length (concat bss)) + 1 ≤ 2 ^ 63 →
  ∃ st', str_cat NDEBUG (Some a) ps st = Ret (tt, st')
         ∧ updated a b (c ++ concat bss) st st'.
Proof.
  intros H Hps Hsz. unfold str_cat.
  destruct Hps as [|p bs ps bss Hp Hps].
  - exists st. simpl. rewrite app_nil_r. split; [|by apply updated_refl].
    unfold _str_cat.
    erewrite bind_ret; [|apply assert_true; by eapply str_ok_valid].
    simpl. unfold bind, ret. by erewrite assert_true; [|by eapply str_ok_valid].
  - destruct (cat_loop_spec NDEBUG a ps p bs bss st b c H Hp Hps Hsz) as (st1 & E1 & Hu).
    exists st1. split; [|done]. cbn [app]. unfold _str_cat.
    erewrite bind_ret; [|apply assert_true; by eapply str_ok_valid].
    rewrite (bind_ret _ _ _ _ _ E1).
    apply assert_true. by eapply updated_str_ok.
Qed.

Lemma str_in_struct st a b c :
  str_in st a b c →
  ∃ v rest, vars st !! a = Some v ∧ buf v = Ptr b 0 ∧ len v = Z.of_nat (length c) ∧
            heap st !! b = Some (Live ((Byte <$> c) ++ Byte 0 :: rest)) ∧
            cells_from st (Ptr b 0) = Some ((Byte <$> c) ++ Byte 0 :: rest) ∧
            Forall byte_ok c.
Proof.
  intros (rest & (v & r & Hv & Hbuf & Hl & Hh & _) & Hc). exists v, rest.
  repeat split; try done.
  rewrite (cells_from_live _ _ _ _ Hh) by lia. done.
Qed.

Lemma str_in_same_block st a b b' c c' : str_in st a b c → str_in st a b' c' → b' = b.
Proof.
  intros (? & (v & ? & Hv & Hbuf & _) & _) (? & (v' & ? & Hv' & Hbuf' & _) & _).
  congruence.
Qed.

(** One buffer fragment of [_str_cat_s]. *)
Lemma cat_s_one_spec NDEBUG st a b c s bs :
  str_in st a b c → str_src_in st a b s bs →
  Z.of_nat (length c + length bs) + 1 ≤ 2 ^ 63 →
  ∃ st', updated a b (c ++ bs) st st' ∧
    ∀ B (k : M B),
      (assert NDEBUG (str_ok s) ;;; v <- load_str s ;;
       do_str_cat NDEBUG (Some a) (buf v) (len v) ;;; k) st = k st'.
Proof.
  intros H (a2 & b2 & -> & Ha & Hb & Hs) Hsz.
  pose proof (str_ok_valid _ _ _ _ Hs) as Hok.
  destruct (str_in_struct _ _ _ _ Hs) as (v & rest & Hv & Hbuf & Hl & Hh & Hcf & Hbs).
  destruct (do_str_cat_spec NDEBUG st a b c (Ptr b2 0) bs (Byte 0 :: rest) H)
    as (st1 & E1 & Hu); try done.
  { simpl. congruence. }
  exists st1. split; [done|]. intros B k.
  rewrite (bind_ret _ _ _ _ _ (assert_true NDEBUG _ _ Hok)).
  rewrite (bind_ret _ _ _ _ _ (load_str_some _ _ _ Hv)).
  rewrite Hbuf, Hl. by rewrite (bind_ret _ _ _ _ _ E1).
Qed.

Lemma cat_s_loop_spec NDEBUG a ss : ∀ s bs bss st b c,
  str_in st a b c → str_src_in st a b s bs → Forall2 (str_src_in st a b) ss bss →
  Z.of_nat (length c + length (bs ++ concat bss)) + 1 ≤ 2 ^ 63 →
  ∃ st', cat_s_loop NDEBUG (Some a) (ss ++ [None]) s st = Ret (tt, st')
         ∧ updated a b (c ++ bs ++ concat bss) st st'.
Proof.
  induction ss as [|s' ss IH]; intros s bs bss st b c H Hs Hss Hsz.
  - inversion Hss; subst. simpl in *. rewrite app_nil_r in *.
    destruct (cat_s_one_spec NDEBUG _ _ _ _ _ _ H Hs Hsz) as (st1 & Hu & E1).
    destruct Hs as (a2 & b2 & -> & _).
    exists st1. split; [|done].
    rewrite E1.
    erewrite bind_ret; [|apply assert_true; by eapply updated_str_ok]. done.
  - inversion Hss as [|? bs' ? bss' Hs' Hss']; subst.
    simpl in Hsz. rewrite !length_app in Hsz.
    destruct (cat_s_one_spec NDEBUG _ _ _ _ _ _ H Hs ltac:(lia)) as (st1 & Hu & E1).
    pose proof Hu as (b1 & Hs1 & Hf1 & Hb1).
    destruct (IH s' bs' bss' st1 b1 (c ++ bs) Hs1) as (st2 & E2 & Hu2).
    { by eapply str_src_in_frame. }
    { by eapply str_srcs_frame. }
    { rewrite !length_app. lia. }
    destruct Hs as (a2 & b2 & -> & _).
    exists st2. split.
    + cbn [cat_s_loop app]. rewrite E1.
      erewrite bind_ret; [|apply assert_true; by eapply str_ok_valid]. done.
    + simpl. rewrite (app_assoc c bs). eapply updated_trans; [done|].
      intros b1' Hs1'. by rewrite (str_in_same_block _ _ _ _ _ _ Hs1 Hs1').
Qed.

(** [str_cat_s]: the contents of the source buffers are appended in
    order. *)
Lemma str_cat_s_spec NDEBUG st a b c ss bss :
  str_in st a b c → Forall2 (str_src_in st a b) ss bss →
  Z.of_nat (length c + length (concat bss)) + 1 ≤ 2 ^ 63 →
  ∃ st', str_cat_s NDEBUG (Some a) ss st = Ret (tt, st')
         ∧ updated a b (c ++ concat bss) st st'.
Proof.
  intros H Hss Hsz. unfold str_cat_s.
  destruct Hss as [|s bs ss bss Hs Hss].
  - exists st. simpl. rewrite app_nil_r. split; [|by apply updated_refl].
    unfold _str_cat_s.
    erewrite bind_ret; [|apply assert_true; by eapply str_ok_valid].
    simpl. unfold bind, ret. by erewrite assert_true; [|by eapply str_ok_valid].
  - destruct (cat_s_loop_spec NDEBUG a ss s bs bss st b c H Hs Hss Hsz) as (st1 & E1 & Hu).
    exists st1. split; [|done]. cbn [app]. unfold _str_cat_s.
    erewrite bind_ret; [|apply assert_true; by eapply str_ok_valid].
    rewrite (bind_ret _ _ _ _ _ E1).
    apply assert_true. by eapply updated_str_ok.
Qed.

(** [str_ncat]: at most [n] bytes of the source are appended. *)
Lemma str_ncat_spec NDEBUG st a b c p bs n :
  str_in st a b c → src_in st b p bs → 0 ≤ n →
  Z.of_nat (length c + length (take (nat_of n) bs)) + 1 ≤ 2 ^ 63 →
  ∃ st', str_ncat NDEBUG (Some a) p n st = Ret (tt, st')
         ∧ updated a b (c ++ take (nat_of n) bs) st st'.
Proof.
  intros H [Hp Hsep] Hn Hsz.
  pose proof (strlen_cstr _ _ _ Hp) as El.
  destruct Hp as (rest & E & Hbs).
  set (k := nat_of n) in *.
  destruct (do_str_cat_spec NDEBUG st a b c p (take k bs)
              ((Byte <$> drop k bs) ++ Byte 0 :: rest) H) as (st1 & E1 & Hu).
  { rewrite app_assoc, <- fmap_app, take_drop. done. }
  { by apply Forall_take. }
  { done. }
  { done. }
  exists st1. split; [|done]. unfold str_ncat.
  erewrite bind_ret; [|apply assert_true; by eapply str_ok_valid].
  rewrite (bind_ret _ _ _ _ _ El).
  assert ((n0 <- (if Z.of_nat (length bs) <? n then strlen p else ret n) ;;
           do_str_cat NDEBUG (Some a) p n0 ;;; assert NDEBUG (str_ok (Some a))) st
          = (do_str_cat NDEBUG (Some a) p (Z.of_nat (length (take k bs))) ;;;
             assert NDEBUG (str_ok (Some a))) st) as ->.
  { rewrite length_take. destruct (Z.ltb_spec (Z.of_nat (length bs)) n).
    - rewrite (bind_ret _ _ _ _ _ El).
      replace (Z.of_nat (k `min` length bs)) with (Z.of_nat (length bs))
        by (clear Hsz; subst k; unfold nat_of; lia). done.
    - unfold bind at 1, ret at 1.
      replace (Z.of_nat (k `min` length bs)) with n by (clear Hsz; subst k; unfold nat_of; lia). done. }
  rewrite (bind_ret _ _ _ _ _ E1).
  apply assert_true. by eapply updated_str_ok.
Qed.

(** ** Copying *)

(** [do_str_cpy] from a source outside the buffer's block: the first
    [n + 1] source cells become the start of the block. *)
Lemma do_str_cpy_spec NDEBUG st a b c p pre srest n :
  str_in st a b c → cells_from st p = Some (pre ++ srest) →
  0 ≤ n → Z.of_nat (length pre) = n + 1 → ptr_block p ≠ Some b → n + 1 ≤ 2 ^ 63 →
  ∃ st' b' rest',
    do_str_cpy NDEBUG (Some a) p n st = Ret (tt, st') ∧
    owns st' a b' n (pre ++ rest') ∧ frame a b st st' ∧
    (b' = b ∨ heap st !! b' = None).
Proof.
  intros H Hp Hn0 Hpre Hsep Hsz.
  destruct (str_resize_spec NDEBUG st a b c n H)
    as (st1 & b1 & rest & U & E1 & Hh & Ho1 & Hf1 & Hb1); [lia|lia|].
  assert (b1 = b ∨ heap st !! b1 = None) as Hb1' by (destruct Hb1 as [[-> _]|]; auto).
  destruct (cells_from_inv _ _ _ Hp) as (bp & op & all & -> & Hall & Hop & Hdrop).
  assert (bp ≠ b) as Hne by (simpl in Hsep; congruence).
  assert (bp ≠ b1) as Hne1 by (by eapply live_block_other).
  pose proof (cells_from_frame _ _ _ _ _ _ Hf1 Hsep Hp) as Hp1.
  pose proof Ho1 as (v1 & r1 & Hv1 & Hbuf1 & Hl1 & Hh1 & Ha1 & Hr1 & Hra1).
  set (cs1 := <[nat_of n := Byte 0]> ((Byte <$> c) ++ Byte 0 :: rest ++ U)) in *.
  assert (n + 1 ≤ Z.of_nat (length cs1)) as Hlen1.
  { pose proof (str_round_up_spec _ ltac:(eassumption)) as (r & Hr & _ & _ & Hrn & _).
    rewrite Hr1 in Hr. injection Hr as <-. lia. }
  exists (set_block b1 (Live (pre ++ drop (nat_of (n + 1)) cs1)) st1), b1,
    (drop (nat_of (n + 1)) cs1).
  split.
  { unfold do_str_cpy.
    rewrite (bind_ret _ _ _ _ _ E1).
    rewrite (bind_ret _ _ _ _ _ (load_str_some _ _ _ Hv1)).
    rewrite Hbuf1, Hl1, size_wrap_id by lia.
    rewrite (memcpy_live _ _ _ _ _ _ _ Hh1 Hp1); try lia.
    - change (nat_of 0) with 0%nat. rewrite take_0, Z.add_0_l. cbn [app].
      rewrite take_app_length' by (unfold nat_of; lia). done.
    - rewrite length_app. lia.
    - by apply ranges_clash_other. }
  split; [|split; [by apply frame_set_block|done]].
  apply (owns_set_block _ _ _ _ cs1); [done|].
  rewrite length_app, length_drop. unfold nat_of. lia.
Qed.

(** [str_cpy]: the buffer takes the content of the source string. *)
Lemma str_cpy_spec NDEBUG st a b c p bs :
  str_in st a b c → src_in st b p bs → Z.of_nat (length bs) + 1 ≤ 2 ^ 63 →
  ∃ st', str_cpy NDEBUG (Some a) p st = Ret (tt, st') ∧ updated a b bs st st'.
Proof.
  intros H [Hp Hsep] Hsz.
  pose proof (strlen_cstr _ _ _ Hp) as El.
  pose proof (cstr_in_not_null _ _ _ Hp) as Hnn.
  destruct Hp as (rest & E & Hbs).
  destruct (do_str_cpy_spec NDEBUG st a b c p ((Byte <$> bs) ++ [Byte 0]) rest
              (Z.of_nat (length bs)) H) as (st1 & b1 & rest1 & E1 & Ho1 & Hf1 & Hb1);
    try done.
  { by rewrite <- app_assoc. }
  { lia. }
  { rewrite length_app, length_fmap. simpl. lia. }
  assert (str_in st1 a b1 bs) as Hs1.
  { exists rest1. split; [|done]. by rewrite <- app_assoc in Ho1. }
  exists st1. split; [|by exists b1]. unfold str_cpy.
  erewrite bind_ret; last first.
  { apply assert_true. rewrite (bind_ret _ _ _ _ _ (str_ok_valid _ _ _ _ H)).
    unfold ret. by rewrite bool_decide_eq_true_2. }
  rewrite (bind_ret _ _ _ _ _ El), (bind_ret _ _ _ _ _ E1).
  apply assert_true. by eapply str_ok_valid.
Qed.

(** [str_cpy_s] from another buffer. *)
Lemma str_cpy_s_spec NDEBUG st a b c s bs :
  str_in st a b c → str_src_in st a b s bs → Z.of_nat (length bs) + 1 ≤ 2 ^ 63 →
  ∃ st', str_cpy_s NDEBUG (Some a) s st = Ret (tt, st') ∧ updated a b bs st st'.
Proof.
  intros H (a2 & b2 & -> & Ha & Hb & Hs) Hsz.
  destruct (str_in_struct _ _ _ _ Hs) as (v & rest & Hv & Hbuf & Hl & Hh & Hcf & Hbs).
  destruct (do_str_cpy_spec NDEBUG st a b c (Ptr b2 0) ((Byte <$> bs) ++ [Byte 0]) rest
              (Z.of_nat (length bs)) H) as (st1 & b1 & rest1 & E1 & Ho1 & Hf1 & Hb1);
    try done.
  { by rewrite <- app_assoc. }
  { lia. }
  { rewrite length_app, length_fmap. simpl. lia. }
  { simpl. congruence. }
  assert (str_in st1 a b1 bs) as Hs1.
  { exists rest1. split; [|done]. by rewrite <- app_assoc in Ho1. }
  exists st1. split; [|by exists b1]. unfold str_cpy_s.
  erewrite bind_ret; last first.
  { apply assert_true. rewrite (bind_ret _ _ _ _ _ (str_ok_valid _ _ _ _ H)).
    by eapply str_ok_valid. }
  rewrite (bind_ret _ _ _ _ _ (load_str_some _ _ _ Hv)), Hbuf, Hl.
  rewrite (bind_ret _ _ _ _ _ E1).
  apply assert_true. by eapply str_ok_valid.
Qed.

(** [str_ncpy]: the buffer takes at most [n] bytes of the source. *)
Lemma str_ncpy_spec NDEBUG st a b c p bs n :
  str_in st a b c → src_in st b p bs → 0 ≤ n →
  Z.of_nat (length (take (nat_of n) bs)) + 1 ≤ 2 ^ 63 →
  ∃ st', str_ncpy NDEBUG (Some a) p n st = Ret (tt, st')
         ∧ updated a b (take (nat_of n) bs) st st'.
Proof.
  intros H [Hp Hsep] Hn Hsz.
  pose proof (strlen_cstr _ _ _ Hp) as El.
  destruct Hp as (rest & E & Hbs).
  set (k := nat_of n) in *.
  set (all := (Byte <$> bs) ++ Byte 0 :: rest) in *.
  assert (length (take k bs) < length all)%nat as Hk.
  { unfold all. rewrite length_take, length_app, length_fmap. simpl. lia. }
  destruct (do_str_cpy_spec NDEBUG st a b c p (take (S (length (take k bs))) all)
              (drop (S (length (take k bs))) all)
              (Z.of_nat (length (take k bs))) H) as (st1 & b1 & rest1 & E1 & Ho1 & Hf1 & Hb1);
    try done.
  { by rewrite take_drop. }
  { lia. }
  { rewrite (length_take_le all) by lia. lia. }
  pose proof Ho1 as (v1 & r1 & Hv1 & Hbuf1 & Hl1 & Hh1 & Ha1 & Hr1 & Hra1).
  set (cs1 := take (S (length (take k bs))) all ++ rest1) in *.
  assert (length (take k bs) < length cs1)%nat as Hlen1.
  { unfold cs1. rewrite length_app, (length_take_le all) by lia. lia. }
  assert (<[length (take k bs) := Byte 0]> cs1
          = (Byte <$> take k bs) ++ Byte 0 :: rest1) as Hcells.
  { unfold cs1. apply list_eq. intros i.
    destruct (decide (i = length (take k bs))) as [->|Hi].
    - rewrite list_lookup_insert_eq by done.
      rewrite lookup_app_r by (by rewrite length_fmap).
      by rewrite length_fmap, Nat.sub_diag.
    - rewrite list_lookup_insert_ne by done.
      destruct (decide (i < length (take k bs))%nat).
      + rewrite !lookup_app_l; [|rewrite length_fmap; lia|rewrite length_take; lia].
        rewrite lookup_take_lt by lia. unfold all.
        rewrite lookup_app_l by (rewrite length_fmap, length_take in *; lia).
        rewrite !list_lookup_fmap, lookup_take_lt; [done|].
        rewrite length_take in *. lia.
      + rewrite !lookup_app_r; [|rewrite length_fmap; lia|rewrite length_take; lia].
        rewrite length_fmap, length_take.
        replace (S (length (take k bs)) `min` length all)%nat
          with (S (length (take k bs))) by lia.
        destruct (i - length (take k bs))%nat as [|j] eqn:Ej; [lia|].
        simpl. f_equal. lia. }
  exists (set_block b1 (Live ((Byte <$> take k bs) ++ Byte 0 :: rest1)) st1).
  split.
  { unfold str_ncpy.
    erewrite bind_ret; [|apply assert_true; by eapply str_ok_valid].
    rewrite (bind_ret _ _ _ _ _ El).
    assert ((n0 <- (if Z.of_nat (length bs) <? n then strlen p else ret n) ;;
             do_str_cpy NDEBUG (Some a) p n0 ;;; v <- load_str (Some a) ;;
             store (ptr_add (buf v) n0) 0 ;;; assert NDEBUG (str_ok (Some a))) st
            = (do_str_cpy NDEBUG (Some a) p (Z.of_nat (length (take k bs))) ;;;
               v <- load_str (Some a) ;;
               store (ptr_add (buf v) (Z.of_nat (length (take k bs)))) 0 ;;;
               assert NDEBUG (str_ok (Some a))) st) as ->.
    { rewrite length_take. destruct (Z.ltb_spec (Z.of_nat (length bs)) n).
      - rewrite (bind_ret _ _ _ _ _ El).
        replace (Z.of_nat (k `min` length bs)) with (Z.of_nat (length bs))
          by (clear Hsz; subst k; unfold nat_of; lia). done.
      - unfold bind at 1, ret at 1.
        replace (Z.of_nat (k `min` length bs)) with n by (clear Hsz; subst k; unfold nat_of; lia). done. }
    rewrite (bind_ret _ _ _ _ _ E1).
    rewrite (bind_ret _ _ _ _ _ (load_str_some _ _ _ Hv1)).
    rewrite Hbuf1. cbn [ptr_add]. rewrite Z.add_0_l.
    erewrite bind_ret; [|apply store_live; [exact Hh1|lia]].
    rewrite nat_of_nat. fold cs1. rewrite Hcells.
    apply assert_true. eapply (str_ok_valid _ a b1 (take k bs)).
    exists rest1. split; [|by apply Forall_take].
    rewrite <- Hcells. apply (owns_set_block _ _ _ _ cs1); [done|].
    by rewrite length_insert. }
  exists b1. split; [|split; [by apply frame_set_block|done]].
  exists rest1. split; [|by apply Forall_take].
  rewrite <- Hcells. apply (owns_set_block _ _ _ _ cs1); [done|].
  by rewrite length_insert.
Qed.

(** ** Appending characters *)

Lemma putc_cells (c : list Z) ch t0 (tail : list cell) :
  <[length c := Byte ch]>
    (<[(length c + 1)%nat := Byte 0]> ((Byte <$> c) ++ Byte 0 :: t0 :: tail))
  = (Byte <$> (c ++ [ch])) ++ Byte 0 :: tail.
Proof.
  rewrite insert_app_r_alt by (rewrite length_fmap; lia).
  rewrite length_fmap. replace (length c + 1 - length c)%nat with 1%nat by lia.
  cbn [insert list_insert].
  rewrite insert_app_r_alt by (rewrite length_fmap; lia).
  rewrite length_fmap, Nat.sub_diag. cbn [insert list_insert].
  rewrite fmap_app, <- app_assoc. done.
Qed.

(** One round of the loop of [_str_putc]. *)
Lemma putc_one_spec NDEBUG st a b c next :
  str_in st a b c → byte_ok (char_of_int next) →
  Z.of_nat (length c + 1) + 1 ≤ 2 ^ 63 →
  ∃ st', updated a b (c ++ [char_of_int next]) st st' ∧
    ∀ B (k : M B),
      (v <- load_str (Some a) ;;
       str_resize NDEBUG (Some a) (size_wrap (len v + 1)) ;;;
       v <- load_str (Some a) ;;
       store (ptr_add (buf v) (size_wrap (len v - 1))) (char_of_int next) ;;; k) st
      = k st'.
Proof.
  intros H Hch Hsz.
  destruct (str_resize_spec NDEBUG st a b c (Z.of_nat (length c + 1)) H)
    as (st1 & b1 & rest & U & E1 & Hh & Ho1 & Hf1 & Hb1); [lia|lia|].
  assert (b1 = b ∨ heap st !! b1 = None) as Hb1' by (destruct Hb1 as [[-> _]|]; auto).
  destruct (str_in_struct _ _ _ _ H) as (v & rest0 & Hv & Hbuf & Hl & _).
  destruct H as (_ & _ & Hc).
  pose proof Ho1 as (v1 & r1 & Hv1 & Hbuf1 & Hl1 & Hh1 & Ha1 & Hr1 & Hra1).
  rewrite nat_of_nat in *.
  set (cs1 := <[(length c + 1)%nat := Byte 0]> ((Byte <$> c) ++ Byte 0 :: rest ++ U)) in *.
  assert (length c + 1 < length cs1)%nat as Hlen1.
  { pose proof (str_round_up_spec _ ltac:(eassumption)) as (r & Hr & _ & _ & Hrn & _).
    rewrite Hr1 in Hr. injection Hr as <-. lia. }
  destruct (rest ++ U) as [|t0 tail] eqn:Etail.
  { unfold cs1 in Hlen1. rewrite length_insert, length_app, length_fmap in Hlen1.
    simpl in Hlen1. lia. }
  exists (set_block b1 (Live ((Byte <$> (c ++ [char_of_int next])) ++ Byte 0 :: tail)) st1).
  assert (owns (set_block b1 (Live ((Byte <$> (c ++ [char_of_int next])) ++ Byte 0 :: tail)) st1)
            a b1 (Z.of_nat (length c + 1)) ((Byte <$> (c ++ [char_of_int next])) ++ Byte 0 :: tail))
    as Ho2.
  { apply (owns_set_block _ _ _ _ cs1); [done|].
    unfold cs1. rewrite length_insert, !length_app, !length_fmap, length_app. simpl. lia. }
  split.
  - exists b1. split; [|split; [by apply frame_set_block|done]].
    exists tail. split; [by rewrite length_app|].
    apply Forall_app. split; [done|]. by apply Forall_singleton.
  - intros B k.
    rewrite (bind_ret _ _ _ _ _ (load_str_some _ _ _ Hv)).
    rewrite Hl, <- (Nat2Z.inj_add _ 1), size_wrap_id by lia.
    rewrite (bind_ret _ _ _ _ _ E1).
    rewrite (bind_ret _ _ _ _ _ (load_str_some _ _ _ Hv1)).
    rewrite Hbuf1, Hl1. cbn [ptr_add]. rewrite Z.add_0_l.
    rewrite size_wrap_id by lia.
    erewrite bind_ret; [|apply store_live; [exact Hh1|lia]].
    replace (nat_of (Z.of_nat (length c + 1) - 1)) with (length c)
      by (unfold nat_of; lia).
    unfold cs1. by rewrite putc_cells.
Qed.

Lemma char_ok_nonzero next : byte_ok (char_of_int next) → next ≠ 0.
Proof. intros H ->. unfold byte_ok, char_of_int in H. rewrite Z.mod_0_l in H by lia. lia. Qed.

Lemma putc_loop_spec NDEBUG a cs : ∀ next st b c,
  str_in st a b c → Forall (λ x, byte_ok (char_of_int x)) (next :: cs) →
  Z.of_nat (length c + S (length cs)) + 1 ≤ 2 ^ 63 →
  ∃ st', putc_loop NDEBUG (Some a) (cs ++ [0]) next st = Ret (tt, st')
         ∧ updated a b (c ++ (char_of_int <$> next :: cs)) st st'.
Proof.
  induction cs as [|c' cs IH]; intros next st b c H Hall Hsz;
    inversion Hall as [|?? Hnext Hcs]; subst.
  - destruct (putc_one_spec NDEBUG _ _ _ _ next H Hnext ltac:(simpl in Hsz; lia))
      as (st1 & Hu & E1).
    exists st1. split; [|done]. cbn [putc_loop app].
    destruct (Z.eqb_spec next 0) as [->|_]; [by apply char_ok_nonzero in Hnext|].
    rewrite E1. done.
  - destruct (putc_one_spec NDEBUG _ _ _ _ next H Hnext ltac:(simpl in Hsz; lia))
      as (st1 & Hu & E1).
    pose proof Hu as (b1 & Hs1 & Hf1 & Hb1).
    destruct (IH c' st1 b1 (c ++ [char_of_int next]) Hs1 Hcs) as (st2 & E2 & Hu2).
    { rewrite length_app. simpl in *. lia. }
    exists st2. split.
    + cbn [putc_loop app].
      destruct (Z.eqb_spec next 0) as [->|_]; [by apply char_ok_nonzero in Hnext|].
      rewrite E1. done.
    + rewrite fmap_cons, (cons_middle _ c), app_assoc.
      eapply updated_trans; [done|].
      intros b1' Hs1'. by rewrite (str_in_same_block _ _ _ _ _ _ Hs1 Hs1').
Qed.

(** [str_putc]: the characters are appended, each as one byte. *)
Lemma str_putc_spec NDEBUG st a b c cs :
  str_in st a b c → Forall (λ x, byte_ok (char_of_int x)) cs →
  Z.of_nat (length c + length cs) + 1 ≤ 2 ^ 63 →
  ∃ st', str_putc NDEBUG (Some a) cs st = Ret (tt, st')
         ∧ updated a b (c ++ (char_of_int <$> cs)) st st'.
Proof.
  intros H Hall Hsz. unfold str_putc. destruct cs as [|next cs].
  - exists st. simpl. rewrite app_nil_r. split; [|by apply updated_refl].
    unfold _str_putc.
    erewrite bind_ret; [|apply assert_true; by eapply str_ok_valid].
    simpl. unfold bind, ret. by erewrite assert_true; [|by eapply str_ok_valid].
  - destruct (putc_loop_spec NDEBUG a cs next st b c H Hall) as (st1 & E1 & Hu).
    { simpl in Hsz. lia. }
    exists st1. split; [|done]. cbn [app]. unfold _str_putc.
    erewrite bind_ret; [|apply assert_true; by eapply str_ok_valid].
    rewrite (bind_ret _ _ _ _ _ E1).
    apply assert_true. by eapply updated_str_ok.
Qed.

(** A zero character ends the list at once: nothing is appended. *)
Lemma str_putc_zero NDEBUG st a b c cs :
  str_in st a b c → str_putc NDEBUG (Some a) (0 :: cs) st = Ret (tt, st).
Proof.
  intros H. unfold str_putc, _str_putc. cbn [app].
  erewrite bind_ret; [|apply assert_true; by eapply str_ok_valid].
  destruct (cs ++ [0]); simpl; unfold bind, ret;
    by erewrite assert_true; [|by eapply str_ok_valid].
Qed.

(** ** Self-copy *)

Lemma state_eta st : mk_state (vars st) (heap st) = st.
Proof. by destruct st. Qed.

Lemma set_block_same st b x : heap st !! b = Some x → set_block b x st = st.
Proof. intros H. unfold set_block. rewrite insert_id by done. apply state_eta. Qed.

(** Resizing to the current length changes nothing. *)
Lemma str_resize_same NDEBUG st a b c :
  str_in st a b c → str_resize NDEBUG (Some a) (Z.of_nat (length c)) st = Ret (tt, st).
Proof.
  intros H.
  pose proof (str_ok_valid _ _ _ _ H) as Hok.
  pose proof (str_in_len_bound _ _ _ _ H) as Hb.
  destruct H as (rest & (v & r & Hv & Hbuf & Hl & Hh & Ha & Hr & Hra) & Hc).
  unfold str_resize.
  rewrite (bind_ret _ _ _ _ _ (assert_true NDEBUG _ _ Hok)).
  rewrite (bind_ret _ _ _ _ _ (load_str_some _ _ _ Hv)).
  rewrite (bind_ret _ _ _ _ _ (store_str_some _ _ _ _ Hv)).
  assert (mk_str (Z.of_nat (length c)) (alloc v) (buf v) = v) as ->
    by (destruct v; simpl in *; congruence).
  rewrite insert_id, state_eta by done.
  rewrite (bind_ret _ _ _ _ _ (load_str_some _ _ _ Hv)).
  rewrite size_wrap_id by lia.
  rewrite (bind_ret _ _ _ _ _ (round_up_some _ _ _ Hr)).
  destruct (Z.ltb_spec (alloc v) r); [lia|].
  unfold bind at 1, ret at 1.
  rewrite (bind_ret _ _ _ _ _ (load_str_some _ _ _ Hv)).
  rewrite Hbuf. cbn [ptr_add]. rewrite Z.add_0_l.
  rewrite (store_live _ _ _ _ _ Hh) by (rewrite length_app, length_fmap; simpl; lia).
  rewrite nat_of_nat, list_insert_id.
  - by rewrite set_block_same.
  - rewrite lookup_app_r by (by rewrite length_fmap).
    by rewrite length_fmap, Nat.sub_diag.
Qed.

Lemma ranges_clash_same p n : ranges_clash p p n = false.
Proof.
  destruct p as [|b o]; [done|]. unfold ranges_clash.
  rewrite Z.eqb_refl. by rewrite bool_decide_eq_true_2.
Qed.

(** [str_cpy_s] of a buffer onto itself leaves the whole state as it
    was. *)
Lemma str_cpy_s_self NDEBUG st a b c :
  str_in st a b c → str_cpy_s NDEBUG (Some a) (Some a) st = Ret (tt, st).
Proof.
  intros H.
  pose proof (str_ok_valid _ _ _ _ H) as Hok.
  pose proof (str_in_len_bound _ _ _ _ H) as Hb.
  pose proof (str_resize_same NDEBUG _ _ _ _ H) as Er.
  destruct (str_in_struct _ _ _ _ H) as (v & rest & Hv & Hbuf & Hl & Hh & Hcf & Hc).
  unfold str_cpy_s.
  erewrite bind_ret; last first.
  { apply assert_true. by rewrite (bind_ret _ _ _ _ _ Hok). }
  rewrite (bind_ret _ _ _ _ _ (load_str_some _ _ _ Hv)).
  unfold do_str_cpy. rewrite Hl, bind_assoc, (bind_ret _ _ _ _ _ Er).
  rewrite bind_assoc, (bind_ret _ _ _ _ _ (load_str_some _ _ _ Hv)).
  rewrite Hbuf, Hl, size_wrap_id by lia.
  erewrite bind_ret; last first.
  { apply (memcpy_live _ _ _ _ _ _ _ Hh Hcf); try lia.
    - rewrite length_app, length_fmap. simpl. lia.
    - rewrite length_app, length_fmap. simpl. lia.
    - apply ranges_clash_same. }
  change (nat_of 0) with 0%nat. rewrite take_0, Z.add_0_l. cbn [app].
  rewrite take_drop, set_block_same by done.
  by apply assert_true.
Qed.

(** ** Creation and destruction *)

Lemma vars_fresh_none (st : state) : vars st !! fresh (dom (vars st)) = None.
Proof. apply not_elem_of_dom. apply is_fresh. Qed.

Lemma cells_from_set_block_ne st b x p :
  ptr_block p ≠ Some b → cells_from (set_block b x st) p = cells_from st p.
Proof.
  destruct p as [|bp o]; [done|]. intros Hne. unfold cells_from, block_cells, set_block.
  cbn [heap]. rewrite lookup_insert_ne; [done|]. simpl in Hne. congruence.
Qed.

Lemma str_val_in st v b c a :
  str_val st v b c → vars st !! a = Some v → str_in st a b c.
Proof.
  intros (rest & r & Hbuf & Hl & Hh & Ha & Hr & Hra & Hc) Hv.
  exists rest. split; [|done]. by exists v, r.
Qed.

(** [str_new] allocates one block and returns the struct of an empty
    buffer; the struct store is as before. *)
Lemma str_new_spec NDEBUG st :
  ∃ v b st', str_new NDEBUG st = Ret (v, st') ∧ heap st !! b = None ∧
    vars st' = vars st ∧ (∀ b' x, heap st !! b' = Some x → heap st' !! b' = Some x) ∧
    str_val st' v b [] ∧ v = mk_str 0 (2 * sizeof_size_t) (Ptr b 0).
Proof.
  set (a := fresh (dom (vars st))). set (b := fresh (dom (heap st))).
  set (cs := Byte 0 :: replicate 15 Undef).
  set (v := mk_str 0 16 (Ptr b 0)).
  set (st1 := mk_state (<[a := v]> (vars st)) (<[b := Live cs]> (heap st))).
  assert (str_val st1 v b []) as Hval.
  { exists (replicate 15 Undef), 16. unfold st1. cbn [heap buf len alloc v].
    rewrite lookup_insert_eq. repeat split; try done. }
  assert (str_in st1 a b []) as Hin.
  { eapply str_val_in; [done|]. unfold st1. cbn [vars]. apply lookup_insert_eq. }
  exists v, b, (mk_state (vars st) (<[b := Live cs]> (heap st))).
  split.
  { unfold str_new. unfold new_var at 1, bind at 1. fold a.
    change (size_wrap (0 + 1)) with 1.
    erewrite bind_ret; [|by apply round_up_some].
    unfold malloc at 1, bind at 1. cbn [heap set_block vars]. fold b.
    erewrite bind_ret; [|eapply store_str_some; simpl; apply lookup_insert_eq].
    unfold set_block. cbn [vars heap ptr_add]. rewrite insert_insert_eq.
    change (2 * sizeof_size_t) with 16. fold v.
    erewrite bind_ret; [|apply store_live; [simpl; apply lookup_insert_eq|done]].
    unfold set_block. cbn [vars heap]. rewrite insert_insert_eq.
    change (<[nat_of (0 + 0) := Byte 0]> (replicate (nat_of 16) Undef)) with cs.
    fold st1.
    erewrite bind_ret; [|apply assert_true; by eapply str_ok_valid].
    erewrite bind_ret; [|apply load_str_some; unfold st1; simpl; apply lookup_insert_eq].
    unfold del_var, bind, ret. unfold st1. cbn [vars heap].
    rewrite delete_insert_eq, delete_id by apply vars_fresh_none. done. }
  split; [apply heap_fresh_none|]. split; [done|]. split.
  { intros b' x Hx. cbn [heap]. rewrite lookup_insert_ne; [done|].
    intros <-. unfold b in Hx. by rewrite heap_fresh_none in Hx. }
  split; [|done].
  destruct Hval as (rest & r & ? & ? & Hh & ?). exists rest, r.
  unfold st1 in Hh. cbn [heap] in *. done.
Qed.

(** [str_dup] allocates one block and returns the struct of a buffer
    holding the source string. *)
Lemma str_dup_spec NDEBUG st p bs :
  cstr_in st p bs → Z.of_nat (length bs) + 1 ≤ 2 ^ 63 →
  ∃ v b st', str_dup NDEBUG p st = Ret (v, st') ∧ heap st !! b = None ∧
    vars st' = vars st ∧ (∀ b' x, heap st !! b' = Some x → heap st' !! b' = Some x) ∧
    str_val st' v b bs.
Proof.
  intros Hp Hsz.
  pose proof (strlen_cstr _ _ _ Hp) as El.
  pose proof (cstr_in_not_null _ _ _ Hp) as Hnn.
  destruct Hp as (srest & E & Hbs).
  destruct (str_round_up_spec _ Hsz) as (r & Hr & _ & _ & Hrn & Hr63 & _).
  set (a := fresh (dom (vars st))). set (b := fresh (dom (heap st))).
  set (n := Z.of_nat (length bs)) in *.
  set (rest := replicate (nat_of r - (length bs + 1)) Undef).
  set (cs := (Byte <$> bs) ++ Byte 0 :: rest).
  set (v := mk_str n r (Ptr b 0)).
  set (st1 := mk_state (<[a := v]> (vars st)) (<[b := Live cs]> (heap st))).
  assert (length cs = nat_of r) as Hlen.
  { unfold cs, rest. rewrite length_app, length_fmap. simpl. rewrite length_replicate.
    unfold nat_of. lia. }
  assert (str_val st1 v b bs) as Hval.
  { exists rest, r. unfold st1. cbn [heap buf len alloc v].
    rewrite lookup_insert_eq. fold cs. rewrite Hlen.
    repeat split; try done; unfold nat_of; lia. }
  assert (str_in st1 a b bs) as Hin.
  { eapply str_val_in; [done|]. unfold st1. cbn [vars]. apply lookup_insert_eq. }
  assert (ptr_block p ≠ Some b) as Hsep.
  { destruct (cells_from_inv _ _ _ E) as (bp & o & all & -> & Hall & _).
    simpl. intros [= ->]. unfold b in Hall. by rewrite heap_fresh_none in Hall. }
  exists v, b, (mk_state (vars st) (<[b := Live cs]> (heap st))).
  split.
  { unfold str_dup.
    erewrite bind_ret; [|apply assert_true; unfold ret; by rewrite bool_decide_eq_true_2].
    unfold new_var at 1, bind at 1. fold a.
    erewrite bind_ret; last first.
    { unfold strlen. cbn [heap vars cells_from] in *.
      change (cells_from (mk_state (<[a := mk_str 0 0 NULL]> (vars st)) (heap st)) p)
        with (cells_from st p).
      rewrite E. cbn [mbind option_bind]. by rewrite cstr_len_app. }
    fold n.
    rewrite size_wrap_id by lia.
    erewrite bind_ret; [|by apply round_up_some].
    unfold malloc at 1, bind at 1. cbn [heap set_block vars]. fold b.
    erewrite bind_ret; [|eapply store_str_some; simpl; apply lookup_insert_eq].
    unfold set_block. cbn [vars heap ptr_add]. rewrite insert_insert_eq. fold v.
    erewrite bind_ret; last first.
    { eapply memcpy_live.
      - cbn [heap]. apply lookup_insert_eq.
      - change (mk_state (<[a := v]> (vars st)) (<[b := Live (replicate (nat_of r) Undef)]> (heap st)))
          with (set_block b (Live (replicate (nat_of r) Undef)) (mk_state (<[a := v]> (vars st)) (heap st))).
        rewrite cells_from_set_block_ne by done.
        change (cells_from (mk_state (<[a := v]> (vars st)) (heap st)) p)
          with (cells_from st p). exact E.
      - lia.
      - lia.
      - rewrite length_replicate. unfold nat_of. lia.
      - rewrite length_app, length_fmap. simpl. lia.
      - destruct p as [|bp o]; [done|]. apply ranges_clash_other.
        simpl in Hsep. congruence. }
    unfold set_block. cbn [vars heap]. rewrite insert_insert_eq.
    replace (take (nat_of 0) _ ++ take (nat_of (n + 1)) _ ++ drop (nat_of (0 + (n + 1))) _)
      with cs; last first.
    { change (nat_of 0) with 0%nat. rewrite take_0. cbn [app].
      replace (nat_of (n + 1)) with (length ((Byte <$> bs) ++ [Byte 0]))
        by (rewrite length_app, length_fmap; unfold n, nat_of; simpl; lia).
      rewrite (cons_middle (Byte 0) _ srest), app_assoc, take_app_length.
      unfold cs. rewrite <- app_assoc. cbn [app]. do 2 f_equal.
      rewrite drop_replicate. unfold rest. f_equal. unfold n, nat_of. lia. }
    fold st1.
    erewrite bind_ret; [|apply assert_true; by eapply str_ok_valid].
    erewrite bind_ret; [|apply load_str_some; unfold st1; simpl; apply lookup_insert_eq].
    unfold del_var, bind, ret. unfold st1. cbn [vars heap].
    rewrite delete_insert_eq, delete_id by apply vars_fresh_none. done. }
  split; [apply heap_fresh_none|]. split; [done|]. split.
  { intros b' x Hx. cbn [heap]. rewrite lookup_insert_ne; [done|].
    intros <-. unfold b in Hx. by rewrite heap_fresh_none in Hx. }
  destruct Hval as (rest' & r' & ? & ? & Hh & ?). exists rest', r'.
  unfold st1 in Hh. cbn [heap] in *. done.
Qed.

(** [str_del] releases the block and zeroes the struct. *)
Lemma str_del_spec st a b c :
  str_in st a b c →
  str_del (Some a) st
  = Ret (tt, mk_state (<[a := mk_str 0 0 NULL]> (vars st)) (<[b := Freed]> (heap st))).
Proof.
  intros H. destruct (str_in_struct _ _ _ _ H) as (v & rest & Hv & Hbuf & Hl & Hh & _).
  unfold str_del.
  rewrite (bind_ret _ _ _ _ _ (load_str_some _ _ _ Hv)), Hbuf.
  unfold free at 1, bind at 1. rewrite (block_cells_live _ _ _ Hh).
  change (0 =? 0) with true. cbn iota.
  erewrite store_str_some; [done|]. exact Hv.
Qed.

(** On a zeroed struct [str_del] does nothing: [free(NULL)] is a no-op and
    the struct is zeroed again. *)
Lemma str_del_zeroed st a :
  vars st !! a = Some (mk_str 0 0 NULL) → str_del (Some a) st = Ret (tt, st).
Proof.
  intros Hv. unfold str_del.
  rewrite (bind_ret _ _ _ _ _ (load_str_some _ _ _ Hv)). cbn [buf].
  unfold free at 1, bind at 1.
  erewrite store_str_some; [|exact Hv].
  by rewrite insert_id, state_eta.
Qed.

(** ** Temporary blocks *)

Lemma str_in_block_live st a b c : str_in st a b c → ∃ x, heap st !! b = Some x.
Proof. intros (rest & (v & r & _ & _ & _ & Hh & _) & _). eauto. Qed.

Lemma owns_set_block_ne st a b n cs bx x :
  owns st a b n cs → bx ≠ b → owns (set_block bx x st) a b n cs.
Proof.
  intros (v & r & Hv & Hbuf & Hl & Hh & H) Hne. exists v, r.
  unfold set_block. cbn [vars heap]. by rewrite lookup_insert_ne.
Qed.

Lemma str_in_set_block_ne st a b c bx x :
  str_in st a b c → bx ≠ b → str_in (set_block bx x st) a b c.
Proof.
  intros (rest & Ho & Hc) Hne. exists rest. split; [|done].
  by apply owns_set_block_ne.
Qed.

(** Changing a block that did not exist at the start of the call, and is
    not the buffer's, keeps what the call has achieved. *)
Lemma updated_set_block a b c st st' bx x :
  updated a b c st st' → heap st !! bx = None →
  (∀ b', str_in st' a b' c → bx ≠ b') →
  updated a b c st (set_block bx x st').
Proof.
  intros (b1 & Hs & Hf & Hb) Hbx Hne. exists b1.
  split; [by apply str_in_set_block_ne, Hne|].
  split; [|done]. apply frame_set_block; auto.
Qed.

Lemma cells_from_set_block_eq st b cs o :
  0 ≤ o ≤ Z.of_nat (length cs) →
  cells_from (set_block b (Live cs) st) (Ptr b o) = Some (drop (nat_of o) cs).
Proof.
  intros Ho. apply cells_from_live; [|done]. unfold set_block. cbn [heap].
  apply lookup_insert_eq.
Qed.

(** A string literal: a new block holding the bytes; the buffer is not
    affected and the literal is a source for it. *)
Lemma literal_spec st a b c bs :
  str_in st a b c → Forall byte_ok bs →
  ∃ st1 e, literal bs st = Ret (e, st1) ∧ updated a b c st st1 ∧ str_in st1 a b c ∧
           src_in st1 b e bs.
Proof.
  intros H Hbs. set (bl := fresh (dom (heap st))).
  assert (heap st !! bl = None) as Hbl by apply heap_fresh_none.
  destruct (str_in_block_live _ _ _ _ H) as (x & Hx).
  assert (bl ≠ b) as Hne by (intros ->; congruence).
  exists (set_block bl (Live (Byte <$> (bs ++ [0]))) st), (Ptr bl 0).
  split; [done|]. split; [|split].
  - apply updated_set_block; [by apply updated_refl|done|].
    intros b' Hs'. by rewrite (str_in_same_block _ _ _ _ _ _ H Hs').
  - by apply str_in_set_block_ne.
  - split; [|simpl; congruence]. exists []. split; [|done].
    rewrite cells_from_set_block_eq by lia. by rewrite fmap_app.
Qed.

(** ** Reading a line *)

Lemma byte_mod x : 0 ≤ x < 256 → x mod 256 = x.
Proof. intros. by apply Z.mod_small. Qed.

Lemma nonzero_cons_0 l : nonzero (0 :: l) = nonzero l.
Proof. unfold nonzero. by rewrite filter_cons_False by (intros H; apply H; done). Qed.

Lemma nonzero_cons x l : x ≠ 0 → nonzero (x :: l) = x :: nonzero l.
Proof. intros. unfold nonzero. by rewrite filter_cons_True. Qed.

Lemma nonzero_length l : (length (nonzero l) ≤ length l)%nat.
Proof. apply length_filter. Qed.

Lemma line_of_length inp : (length (line_of inp) ≤ length inp)%nat.
Proof.
  induction inp as [|x r IH]; [done|]. simpl.
  destruct (x =? 10); simpl; lia.
Qed.

Lemma getline_loop_spec NDEBUG a inp : ∀ st b c,
  str_in st a b c → Forall (λ x, 0 ≤ x < 256) inp →
  Z.of_nat (length c + length inp) + 1 ≤ 2 ^ 63 →
  ∃ st', getline_loop NDEBUG (Some a) inp st
         = Ret ((if has_newline inp then 10 else EOF, after_line inp), st')
         ∧ updated a b (c ++ nonzero (line_of inp)) st st'.
Proof.
  induction inp as [|x r IH]; intros st b c H Hin Hsz.
  - exists st. split; [done|]. simpl. rewrite app_nil_r. by apply updated_refl.
  - inversion Hin as [|?? Hx Hr]; subst. cbn [getline_loop getc_unlocked fst].
    rewrite byte_mod by done. cbn [has_newline after_line line_of].
    destruct (Z.eqb_spec x 10) as [->|Hne].
    + exists st. split; [done|]. simpl. rewrite app_nil_r. by apply updated_refl.
    + destruct (Z.eqb_spec x EOF) as [->|_]; [unfold EOF in Hx; lia|].
      cbn [negb andb orb].
      destruct (decide (x = 0)) as [->|Hx0].
      * rewrite (bind_ret _ _ _ _ _ (str_putc_zero NDEBUG _ _ _ _ [] H)).
        rewrite nonzero_cons_0. apply IH; [done|done|]. simpl in Hsz. lia.
      * destruct (str_putc_spec NDEBUG st a b c [x] H) as (st1 & E1 & Hu).
        { apply Forall_singleton. unfold char_of_int, byte_ok.
          rewrite byte_mod by done. lia. }
        { simpl in *. lia. }
        simpl in Hu. unfold char_of_int in Hu. rewrite byte_mod in Hu by done.
        pose proof Hu as (b1 & Hs1 & _).
        destruct (IH st1 b1 (c ++ [x]) Hs1 Hr) as (st2 & E2 & Hu2).
        { rewrite length_app. simpl in *. lia. }
        exists st2. split.
        -- by rewrite (bind_ret _ _ _ _ _ E1).
        -- rewrite nonzero_cons by done. rewrite (cons_middle x), app_assoc.
           eapply updated_trans; [done|].
           intros b1' Hs1'. by rewrite (str_in_same_block _ _ _ _ _ _ Hs1 Hs1').
Qed.

Lemma updated_len a b c st st' :
  updated a b c st st' → ∃ v, vars st' !! a = Some v ∧ len v = Z.of_nat (length c).
Proof.
  intros (b1 & Hs & _). destruct (str_in_struct _ _ _ _ Hs) as (v & _ & Hv & _ & Hl & _).
  eauto.
Qed.

(** [str_getline]: the buffer receives the bytes of the line, NUL bytes
    left out; the count is the final length, plus one if a newline ended
    the scan. *)
Lemma str_getline_spec NDEBUG st a b c inp :
  str_in st a b c → Forall (λ x, 0 ≤ x < 256) inp →
  Z.of_nat (length inp) + 1 ≤ 2 ^ 63 →
  ∃ st',
    str_getline NDEBUG (Some a) inp st
    = Ret ((Z.of_nat (length (nonzero (line_of inp))) + (if has_newline inp then 1 else 0),
            after_line inp), st')
    ∧ updated a b (nonzero (line_of inp)) st st'.
Proof.
  intros H Hin Hsz.
  destruct (literal_spec st a b c [] H) as (st1 & e & E1 & Hu1 & Hs1 & He); [done|].
  destruct (str_cpy_spec NDEBUG st1 a b c e [] Hs1 He) as (st2 & E2 & Hu2); [simpl; lia|].
  pose proof Hu2 as (b2 & Hs2 & _).
  destruct (getline_loop_spec NDEBUG a inp st2 b2 [] Hs2 Hin) as (st3 & E3 & Hu3).
  { simpl. lia. }
  simpl in Hu3.
  destruct (updated_len _ _ _ _ _ Hu3) as (v3 & Hv3 & Hl3).
  exists st3. split.
  - unfold str_getline.
    erewrite bind_ret; [|apply assert_true; by eapply str_ok_valid].
    rewrite (bind_ret _ _ _ _ _ E1), (bind_ret _ _ _ _ _ E2), (bind_ret _ _ _ _ _ E3).
    rewrite (bind_ret _ _ _ _ _ (load_str_some _ _ _ Hv3)).
    erewrite bind_ret; [|apply assert_true; by eapply updated_str_ok].
    cbn [fst snd]. unfold ret. rewrite Hl3.
    pose proof (nonzero_length (line_of inp)). pose proof (line_of_length inp).
    destruct (has_newline inp);
      [change (10 =? 10) with true|change (EOF =? 10) with false];
      cbn iota; rewrite size_wrap_id by lia; done.
  - eapply updated_trans; [exact Hu1|]. intros b1' Hs1'.
    eapply updated_trans.
    + rewrite (str_in_same_block _ _ _ _ _ _ Hs1 Hs1'). exact Hu2.
    + intros b2' Hs2'. by rewrite (str_in_same_block _ _ _ _ _ _ Hs2 Hs2').
Qed.

(** ** Tokens *)

Lemma cells_from_next st b o x l :
  cells_from st (Ptr b o) = Some (x :: l) → cells_from st (Ptr b (o + 1)) = Some l.
Proof.
  intros E. destruct (cells_from_inv _ _ _ E) as (b' & o' & all & [= <- <-] & Hall & Ho & Hd).
  assert (o < Z.of_nat (length all)).
  { destruct (decide (o = Z.of_nat (length all))) as [->|]; [|lia].
    rewrite nat_of_nat, drop_all in Hd. done. }
  rewrite (cells_from_live _ _ _ _ Hall) by lia.
  replace (nat_of (o + 1)) with (S (nat_of o)) by (unfold nat_of; lia).
  assert (all !! nat_of o = Some x) as Hx.
  { rewrite <- (Nat.add_0_r (nat_of o)), <- lookup_drop, <- Hd. done. }
  rewrite (drop_S _ _ _ Hx) in Hd. by injection Hd as ->.
Qed.

Lemma load_cells st p v l : cells_from st p = Some (Byte v :: l) → load p st = Ret (v, st).
Proof. intros E. unfold load. by rewrite E. Qed.

(** [memchr] over the delimiters decides membership. *)
Lemma memchr_delim st delim ds c :
  cstr_in st delim ds →
  ∃ m, memchr delim c (Z.of_nat (length ds)) st = Ret (m, st)
       ∧ (m ≠ NULL ↔ is_delim ds c = true).
Proof.
  intros (rest & E & Hds). unfold is_delim.
  destruct (decide (c ∈ ds)) as [Hin|Hnin].
  - apply list_elem_of_split_l in Hin as (pre & post & -> & Hpre).
    exists (ptr_add delim (Z.of_nat (length pre))). split.
    + eapply memchr_found; [done| |].
      * apply Forall_forall. intros x Hx ->. done.
      * rewrite length_app. simpl. lia.
    + rewrite bool_decide_eq_true_2 by set_solver.
      destruct (cells_from_inv _ _ _ E) as (b & o & all & -> & _). done.
  - exists NULL. split.
    + eapply memchr_absent; [done|lia|].
      rewrite nat_of_nat, take_ge by lia.
      apply Forall_forall. intros x Hx ->. done.
    + rewrite bool_decide_eq_false_2 by done. done.
Qed.

Lemma tok_skip_spec st bs delim ds inp : ∀ o rest fuel,
  cells_from st (Ptr bs o) = Some ((Byte <$> inp) ++ Byte 0 :: rest) →
  Forall byte_ok inp → cstr_in st delim ds → (length inp < fuel)%nat →
  tok_skip fuel (Ptr bs o) delim (Z.of_nat (length ds)) st
  = Ret (Ptr bs (o + Z.of_nat (length inp - length (skip_delims ds inp))), st).
Proof.
  induction inp as [|x r IH]; intros o rest fuel E Hin Hd Hf;
    (destruct fuel as [|fuel]; [simpl in Hf; lia|]); cbn [tok_skip].
  - rewrite (bind_ret _ _ _ _ _ (load_cells _ _ _ _ E)).
    simpl. by rewrite Z.add_0_r.
  - inversion Hin as [|?? Hx Hr]; subst. rewrite fmap_cons in E. cbn [app] in E.
    rewrite (bind_ret _ _ _ _ _ (load_cells _ _ _ _ E)).
    destruct (Z.eqb_spec x 0) as [->|_]; [by apply byte_ok_nonzero in Hx|].
    destruct (memchr_delim st delim ds x Hd) as (m & Em & Hm).
    rewrite (bind_ret _ _ _ _ _ Em).
    unfold skip_delims. cbn [drop_while].
    destruct (is_delim ds x) eqn:Ex.
    + rewrite bool_decide_eq_true_2 by (by apply Hm). cbn [ptr_add].
      rewrite (IH (o + 1) rest fuel); [|by eapply cells_from_next|done|done|simpl in Hf; lia].
      unfold skip_delims. do 3 f_equal.
      assert (length (drop_while (is_delim ds) r) ≤ length r)%nat.
      { clear. induction r as [|y r IH]; [done|]. simpl. destruct (is_delim ds y); simpl; lia. }
      simpl. lia.
    + rewrite bool_decide_eq_false_2; last first.
      { intros Hne. apply Hm in Hne. congruence. }
      unfold ret. do 3 f_equal. simpl. lia.
Qed.

Lemma char_round_trip c : 0 ≤ c < 256 → char_of_int (int_of_char c) = c.
Proof.
  intros Hc. unfold char_of_int, int_of_char.
  destruct (Z.leb_spec 128 c).
  - replace (c - 256) with (c + (-1) * 256) by lia.
    rewrite Z.mod_add by lia. by apply Z.mod_small.
  - by apply Z.mod_small.
Qed.

Lemma take_while_length f l : (length (take_while f l) ≤ length l)%nat.
Proof. induction l as [|x l IH]; [done|]. simpl. destruct (f x); simpl; lia. Qed.

Lemma drop_while_length f l : (length (drop_while f l) ≤ length l)%nat.
Proof. induction l as [|x l IH]; [done|]. simpl. destruct (f x); simpl; lia. Qed.

Lemma take_drop_while f l : take_while f l ++ drop_while f l = l.
Proof. induction l as [|x l IH]; [done|]. simpl. destruct (f x); simpl; congruence. Qed.

Lemma tok_take_spec NDEBUG a bs delim ds inp : ∀ o rest fuel st b c,
  str_in st a b c →
  cells_from st (Ptr bs o) = Some ((Byte <$> inp) ++ Byte 0 :: rest) → bs ≠ b →
  Forall byte_ok inp → src_in st b delim ds → (length inp < fuel)%nat →
  Z.of_nat (length c + length inp) + 1 ≤ 2 ^ 63 →
  ∃ st', tok_take NDEBUG fuel (Ptr bs o) (Some a) delim (Z.of_nat (length ds)) st
         = Ret (Ptr bs (o + Z.of_nat (length (take_while (non_delim ds) inp))), st')
         ∧ updated a b (c ++ take_while (non_delim ds) inp) st st'.
Proof.
  induction inp as [|x r IH]; intros o rest fuel st b c H E Hne Hin Hd Hf Hsz;
    (destruct fuel as [|fuel]; [simpl in Hf; lia|]); cbn [tok_take].
  - rewrite (bind_ret _ _ _ _ _ (load_cells _ _ _ _ E)).
    exists st. simpl. rewrite Z.add_0_r, app_nil_r. split; [done|by apply updated_refl].
  - inversion Hin as [|?? Hx Hr]; subst. rewrite fmap_cons in E. cbn [app] in E.
    rewrite (bind_ret _ _ _ _ _ (load_cells _ _ _ _ E)).
    destruct (Z.eqb_spec x 0) as [->|_]; [by apply byte_ok_nonzero in Hx|].
    destruct (memchr_delim st delim ds x (proj1 Hd)) as (m & Em & Hm).
    rewrite (bind_ret _ _ _ _ _ Em).
    cbn [take_while]. unfold non_delim at 1 3.
    destruct (is_delim ds x) eqn:Ex; cbn [negb].
    + rewrite bool_decide_eq_false_2; last first.
      { intros ->. destruct Hm as [_ Hm]. by specialize (Hm eq_refl). }
      exists st. simpl. rewrite Z.add_0_r, app_nil_r. split; [done|by apply updated_refl].
    + rewrite bool_decide_eq_true_2; last first.
      { destruct m; [done|]. destruct Hm as [Hm _]. by specialize (Hm ltac:(done)). }
      destruct (str_putc_spec NDEBUG st a b c [int_of_char x] H) as (st1 & E1 & Hu).
      { apply Forall_singleton. rewrite char_round_trip; [done|]. unfold byte_ok in Hx. lia. }
      { simpl in *. lia. }
      simpl in Hu. rewrite char_round_trip in Hu by (unfold byte_ok in Hx; lia).
      pose proof Hu as (b1 & Hs1 & Hf1 & Hb1).
      destruct (cells_from_inv _ _ _ E) as (? & ? & all & [= <- <-] & Hall & _).
      destruct (IH (o + 1) rest fuel st1 b1 (c ++ [x]) Hs1) as (st2 & E2 & Hu2).
      { eapply cells_from_frame; [done|simpl; congruence|]. by eapply cells_from_next. }
      { by eapply live_block_other. }
      { done. }
      { by eapply src_in_frame. }
      { simpl in Hf. lia. }
      { rewrite length_app. simpl in *. lia. }
      exists st2. split.
      * rewrite (bind_ret _ _ _ _ _ E1). cbn [ptr_add]. rewrite E2.
        do 3 f_equal. simpl. lia.
      * rewrite (cons_middle x), app_assoc.
        eapply updated_trans; [done|].
        intros b1' Hs1'. by rewrite (str_in_same_block _ _ _ _ _ _ Hs1 Hs1').
Qed.

Lemma cells_from_advance st b l1 : ∀ o l2,
  cells_from st (Ptr b o) = Some (l1 ++ l2) →
  cells_from st (Ptr b (o + Z.of_nat (length l1))) = Some l2.
Proof.
  induction l1 as [|x l1 IH]; intros o l2 E.
  - simpl. by rewrite Z.add_0_r.
  - simpl in E. apply cells_from_next in E. apply IH in E.
    rewrite <- E. do 2 f_equal. simpl. lia.
Qed.

Lemma drop_while_split f l :
  ∃ pre, l = pre ++ drop_while f l ∧ length pre = (length l - length (drop_while f l))%nat.
Proof.
  induction l as [|x l (pre & IH & Hl)]; [by exists []|].
  simpl. destruct (f x).
  - exists (x :: pre). split; [simpl; congruence|].
    pose proof (drop_while_length f l). simpl. lia.
  - exists []. split; [done|]. simpl. lia.
Qed.

Lemma Forall_drop_while {P : Z → Prop} f l : Forall P l → Forall P (drop_while f l).
Proof.
  induction 1 as [|x l Hx Hl IH]; [done|]. simpl. destruct (f x); [done|by constructor].
Qed.

Lemma Forall_take_while {P : Z → Prop} f l : Forall P l → Forall P (take_while f l).
Proof.
  induction 1 as [|x l Hx Hl IH]; [done|]. simpl. destruct (f x); [by constructor|done].
Qed.

Lemma span_spec st p cs : cells_from st p = Some cs → span p st = Ret (S (length cs), st).
Proof. intros E. unfold span. by rewrite E. Qed.

Lemma tok_assert_ok NDEBUG st a b c delim ds :
  str_in st a b c → cstr_in st delim ds → ds ≠ [] →
  assert NDEBUG (b <- str_ok (Some a) ;;
                 if b && bool_decide (delim ≠ NULL)
                 then c <- load delim ;; ret (negb (c =? 0)) else ret false) st
  = Ret (tt, st).
Proof.
  intros H Hd Hds.
  apply assert_true. rewrite (bind_ret _ _ _ _ _ (str_ok_valid _ _ _ _ H)).
  rewrite bool_decide_eq_true_2 by (by eapply cstr_in_not_null). cbn [andb].
  destruct Hd as (rest' & E' & Hds').
  destruct ds as [|d ds']; [done|]. rewrite fmap_cons in E'. cbn [app] in E'.
  rewrite (bind_ret _ _ _ _ _ (load_cells _ _ _ _ E')).
  inversion Hds' as [|?? Hd0 ?]; subst.
  destruct (Z.eqb_spec d 0) as [->|]; [|done]. by apply byte_ok_nonzero in Hd0.
Qed.

(** [str_tok] on an input that is not exhausted. *)
Lemma str_tok_spec NDEBUG st a b c bs o inp delim ds :
  str_in st a b c → src_in st b (Ptr bs o) inp → src_in st b delim ds → ds ≠ [] →
  Z.of_nat (length inp) + 1 ≤ 2 ^ 63 →
  let r := Ptr bs (o + Z.of_nat (length inp - length (after_token ds inp))) in
  ∃ st',
    str_tok NDEBUG (Ptr bs o) (Some a) delim st
    = Ret (if decide (token_of ds inp = []) then NULL else r, st')
    ∧ updated a b (token_of ds inp) st st'
    ∧ src_in st' b r (after_token ds inp)
    ∧ cstr_in st' (Ptr bs o) inp.
Proof.
  intros H Hs Hd Hds Hsz r.
  destruct (literal_spec st a b c [] H) as (st1 & e & E1 & Hu1 & Hs1 & He); [done|].
  destruct (str_cpy_spec NDEBUG st1 a b c e [] Hs1 He) as (st2 & E2 & Hu2); [simpl; lia|].
  pose proof Hu2 as (b2 & Hs2 & Hf2 & Hb2).
  pose proof Hu1 as (b1' & Hs1' & Hf1 & Hb1).
  assert (frame a b st st2 ∧ (b2 = b ∨ heap st !! b2 = None)) as [Hf02 Hb02].
  { rewrite (str_in_same_block _ _ _ _ _ _ Hs1 Hs1') in *.
    split; [by eapply frame_trans|by eapply frame_fresh]. }
  pose proof (src_in_frame _ _ _ _ _ _ _ Hf02 Hb02 Hs) as Hs_2.
  pose proof (src_in_frame _ _ _ _ _ _ _ Hf02 Hb02 Hd) as Hd_2.
  assert (bs ≠ b2) as Hne2 by (destruct Hs_2 as [_ Hx]; simpl in Hx; congruence).
  destruct Hs_2 as [(rest & E & Hin) _].
  destruct (drop_while_split (is_delim ds) inp) as (pre & Hpre & Hlpre).
  fold (skip_delims ds inp) in Hpre, Hlpre.
  set (skip := skip_delims ds inp) in *.
  assert (cells_from st2 (Ptr bs (o + Z.of_nat (length pre)))
          = Some ((Byte <$> skip) ++ Byte 0 :: rest)) as Eskip.
  { rewrite <- (length_fmap Byte). apply cells_from_advance.
    rewrite app_assoc, <- fmap_app, <- Hpre. done. }
  assert (Forall byte_ok skip) as Hskip by (by apply Forall_drop_while).
  pose proof (drop_while_length (is_delim ds) inp) as Hlskip.
  change (drop_while (is_delim ds) inp) with skip in Hlskip.
  destruct (tok_take_spec NDEBUG a bs delim ds skip (o + Z.of_nat (length pre)) rest
              (S (length ((Byte <$> skip) ++ Byte 0 :: rest))) st2 b2 [] Hs2 Eskip Hne2 Hskip Hd_2)
    as (st3 & E3 & Hu3).
  { rewrite length_app, length_fmap. lia. }
  { simpl. lia. }
  simpl in Hu3.
  pose proof (take_drop_while (non_delim ds) skip) as Htd.
  change (take_while (non_delim ds) skip) with (token_of ds inp) in *.
  change (drop_while (non_delim ds) skip) with (after_token ds inp) in *.
  assert (length skip = length (token_of ds inp) + length (after_token ds inp))%nat as Hlen
    by (rewrite <- Htd at 1; by rewrite length_app).
  assert (Ptr bs (o + Z.of_nat (length pre) + Z.of_nat (length (token_of ds inp))) = r) as Hr.
  { unfold r. f_equal. lia. }
  rewrite Hr in E3.
  destruct (updated_len _ _ _ _ _ Hu3) as (v3 & Hv3 & Hl3).
  pose proof Hu3 as (b3 & Hs3 & Hf3 & Hb3).
  assert (frame a b st st3 ∧ (b3 = b ∨ heap st !! b3 = None)) as [Hf03 Hb03].
  { split; [by eapply frame_trans|by eapply frame_fresh]. }
  exists st3. split; [|split; [|split]].
  - unfold str_tok.
    erewrite bind_ret; [|by eapply tok_assert_ok, Hds; [|apply Hd]].
    rewrite (bind_ret _ _ _ _ _ E1), (bind_ret _ _ _ _ _ E2).
    rewrite (bind_ret _ _ _ _ _ (strlen_cstr _ _ _ (proj1 Hd_2))).
    rewrite (bind_ret _ _ _ _ _ (span_spec _ _ _ E)).
    erewrite bind_ret; last first.
    { eapply (tok_skip_spec _ _ _ _ _ _ _ _ E Hin (proj1 Hd_2)).
      rewrite length_app, length_fmap. lia. }
    fold skip. rewrite <- Hlpre.
    rewrite (bind_ret _ _ _ _ _ (span_spec _ _ _ Eskip)).
    rewrite (bind_ret _ _ _ _ _ E3).
    erewrite bind_ret; [|apply assert_true; by eapply str_ok_valid].
    rewrite (bind_ret _ _ _ _ _ (load_str_some _ _ _ Hv3)).
    unfold ret. rewrite Hl3. do 2 f_equal.
    destruct (token_of ds inp) as [|t ts]; [done|]. done.
  - eapply updated_trans; [exact Hu1|]. intros b1 Hs1b.
    rewrite (str_in_same_block _ _ _ _ _ _ Hs1 Hs1b).
    eapply updated_trans; [exact Hu2|]. intros b2' Hs2'.
    by rewrite (str_in_same_block _ _ _ _ _ _ Hs2 Hs2').
  - pose proof (src_in_frame _ _ _ _ _ _ _ Hf03 (or_introl eq_refl) Hs) as [(rest3 & E3' & _) _].
    split; [|destruct Hs as [_ Hx]; done].
    exists rest3. split; [|by apply Forall_drop_while].
    unfold r.
    replace (Z.of_nat (length inp - length (after_token ds inp)))
      with (Z.of_nat (length (Byte <$> (pre ++ token_of ds inp))))
      by (rewrite length_fmap, length_app; lia).
    apply cells_from_advance.
    rewrite app_assoc, <- fmap_app, <- app_assoc, Htd, <- Hpre. done.
  - by destruct (src_in_frame _ _ _ _ _ _ _ Hf03 (or_introl eq_refl) Hs) as [? _].
Qed.

(** With the exhausted sentinel as input, [str_tok] returns at once: the
    state, and with it the token buffer, is left as it was. *)
Lemma str_tok_null NDEBUG st a b c delim ds :
  NDEBUG = true ∨ (str_in st a b c ∧ cstr_in st delim ds ∧ ds ≠ []) →
  str_tok NDEBUG NULL (Some a) delim st = Ret (NULL, st).
Proof.
  intros Hpre. unfold str_tok.
  erewrite bind_ret; [done|].
  destruct Hpre as [->|(H & Hd & Hds)]; [done|].
  by eapply tok_assert_ok.
Qed.

(** ** Decimal numerals *)

Lemma dec_digits_length fuel : ∀ n, (length (dec_digits fuel n) ≤ fuel)%nat.
Proof.
  induction fuel as [|fuel IH]; intros n; [done|].
  cbn [dec_digits]. rewrite length_app. simpl.
  destruct (n / 10 =? 0); [simpl; lia|]. specialize (IH (n / 10)). lia.
Qed.

Lemma dec_digits_nonempty fuel n : (1 ≤ fuel)%nat → dec_digits fuel n ≠ [].
Proof.
  destruct fuel as [|fuel]; [lia|]. intros _. cbn [dec_digits].
  by destruct (if n / 10 =? 0 then _ else _).
Qed.

Lemma digits_value_snoc ds d : digits_value (ds ++ [d]) = digits_value ds * 10 + (d - 48).
Proof. unfold digits_value. by rewrite fold_left_app. Qed.

(** The digits are the decimal representation. *)
Lemma dec_digits_decimal fuel : ∀ n,
  (1 ≤ fuel)%nat → 0 ≤ n < 10 ^ Z.of_nat fuel → is_decimal (dec_digits fuel n) n.
Proof.
  induction fuel as [|fuel IH]; intros n Hf Hn; [lia|].
  cbn [dec_digits].
  assert (0 ≤ n mod 10 < 10) as Hmod by (apply Z.mod_pos_bound; lia).
  pose proof (Z.div_mod n 10 ltac:(lia)) as Hdm.
  destruct (Z.eqb_spec (n / 10) 0) as [Hz|Hnz].
  - cbn [app]. unfold is_decimal. split; [apply Forall_singleton; lia|].
    split; [done|]. split.
    + cbn [hd]. intros Hh. by rewrite Hh.
    + unfold digits_value. simpl. lia.
  - assert (0 < n / 10) as Hpos.
    { pose proof (Z.div_pos n 10 ltac:(lia) ltac:(lia)). lia. }
    assert (1 ≤ fuel)%nat as Hf'.
    { destruct fuel; [|lia]. simpl in Hn. lia. }
    destruct (IH (n / 10) Hf') as (Hall & Hne & Hhd & Hval).
    { split; [lia|]. apply Z.div_lt_upper_bound; [lia|].
      rewrite Nat2Z.inj_succ, Z.pow_succ_r in Hn by lia. lia. }
    unfold is_decimal. split; [|split; [|split]].
    + apply Forall_app. split; [done|]. apply Forall_singleton. lia.
    + by destruct (dec_digits fuel (n / 10)).
    + destruct (dec_digits fuel (n / 10)) as [|d0 ds] eqn:E; [done|].
      cbn [app hd] in *. intros Hd0. specialize (Hhd Hd0). injection Hhd as -> ->.
      unfold digits_value in Hval. simpl in Hval. lia.
    + rewrite digits_value_snoc, Hval. lia.
Qed.

Lemma digit_byte_ok d : 48 ≤ d ≤ 57 → byte_ok d.
Proof. unfold byte_ok. lia. Qed.

Lemma dec_digits_bytes fuel n : 0 ≤ n → Forall byte_ok (dec_digits fuel n).
Proof.
  revert n. induction fuel as [|fuel IH]; intros n Hn; [done|].
  cbn [dec_digits]. apply Forall_app. split.
  - destruct (n / 10 =? 0); [done|]. apply IH. apply Z.div_pos; lia.
  - apply Forall_singleton, digit_byte_ok.
    pose proof (Z.mod_pos_bound n 10 ltac:(lia)). lia.
Qed.

(** ** The digit loop *)

Lemma set_block_twice b x y st : set_block b x (set_block b y st) = set_block b x st.
Proof. unfold set_block. cbn [vars heap]. by rewrite insert_insert_eq. Qed.

Lemma heap_set_block_eq b x st : heap (set_block b x st) !! b = Some x.
Proof. unfold set_block. cbn [heap]. apply lookup_insert_eq. Qed.

Lemma fmt_u_loop_spec ba fuel : ∀ n (o : nat) cs st,
  heap st !! ba = Some (Live cs) → (1 ≤ fuel)%nat → 0 ≤ n < 10 ^ Z.of_nat fuel →
  (length (dec_digits fuel n) ≤ S o)%nat → (o < length cs)%nat →
  fmt_u_loop fuel n (Ptr ba (Z.of_nat o)) st
  = Ret (Ptr ba (Z.of_nat o - Z.of_nat (length (dec_digits fuel n))),
         set_block ba (Live (take (S o - length (dec_digits fuel n)) cs
                             ++ (Byte <$> dec_digits fuel n) ++ drop (S o) cs)) st).
Proof.
  induction fuel as [|fuel IH]; intros n o cs st Hh Hf Hn Hk Ho; [lia|].
  cbn [fmt_u_loop dec_digits] in *.
  assert (0 ≤ n mod 10 < 10) as Hmod by (apply Z.mod_pos_bound; lia).
  assert (char_of_int (48 + n mod 10) = 48 + n mod 10) as ->
    by (unfold char_of_int; apply Z.mod_small; lia).
  erewrite bind_ret; [|apply store_live; [exact Hh|lia]].
  rewrite nat_of_nat. cbn [ptr_add].
  destruct (Z.eqb_spec (n / 10) 0) as [Hz|Hnz].
  - unfold ret. cbn [app length fmap list_fmap].
    replace (Z.of_nat o - Z.of_nat 1) with (Z.of_nat o + -1) by lia.
    replace (S o - 1)%nat with o by lia.
    by rewrite <- insert_take_drop.
  - assert (0 < n / 10) as Hpos.
    { pose proof (Z.div_pos n 10 ltac:(lia) ltac:(lia)). lia. }
    assert (1 ≤ fuel)%nat as Hf'.
    { destruct fuel; [|lia]. change (10 ^ Z.of_nat 1) with 10 in Hn.
      pose proof (Z.div_mod n 10 ltac:(lia)). lia. }
    pose proof (dec_digits_nonempty fuel (n / 10) Hf') as Hne.
    rewrite length_app in Hk. cbn [length] in Hk.
    destruct o as [|o']; [destruct (dec_digits fuel (n / 10)); simpl in *; [done|lia]|].
    replace (Z.of_nat (S o') + -1) with (Z.of_nat o') by lia.
    rewrite (IH (n / 10) o' (<[S o' := Byte (48 + n mod 10)]> cs)); try lia.
    + rewrite set_block_twice.
      rewrite length_app. cbn [length].
      rewrite take_insert_ge by lia.
      rewrite (drop_S _ (Byte (48 + n mod 10))) by (by apply list_lookup_insert_eq).
      rewrite drop_insert_lt by lia.
      rewrite fmap_app, <- app_assoc. cbn [fmap list_fmap app].
      replace (S (S o') - (length (dec_digits fuel (n / 10)) + 1))%nat
        with (S o' - length (dec_digits fuel (n / 10)))%nat by lia.
      replace (Z.of_nat (S o') - Z.of_nat (length (dec_digits fuel (n / 10)) + 1))
        with (Z.of_nat o' - Z.of_nat (length (dec_digits fuel (n / 10)))) by lia.
      done.
    + apply heap_set_block_eq.
    + split; [lia|]. apply Z.div_lt_upper_bound; [lia|].
      rewrite Nat2Z.inj_succ, Z.pow_succ_r in Hn by lia. lia.
    + rewrite length_insert. lia.
Qed.

(** [do_fmt_u] on the last cell of a 24-byte array: the digits and the
    terminator end up at the end of the array, and the result points to
    the first digit. *)
Lemma do_fmt_u_spec ba n cs st :
  heap st !! ba = Some (Live cs) → length cs = 24%nat → 0 ≤ n < 2 ^ 64 →
  let ds := dec_digits 20 n in
  do_fmt_u n (Ptr ba (24 - 1)) st
  = Ret (Ptr ba (23 - Z.of_nat (length ds)),
         set_block ba (Live (take (23 - length ds) cs ++ (Byte <$> ds) ++ [Byte 0])) st).
Proof.
  intros Hh Hlen Hn ds. unfold do_fmt_u.
  erewrite bind_ret; [|apply store_live; [exact Hh|lia]].
  cbn [ptr_add]. change (24 - 1 + -1) with (Z.of_nat 22).
  pose proof (dec_digits_length 20 n) as Hk. fold ds in Hk.
  erewrite bind_ret; last first.
  { apply (fmt_u_loop_spec ba 20 n 22 (<[nat_of (24 - 1) := Byte 0]> cs)).
    - apply heap_set_block_eq.
    - lia.
    - split; [lia|]. change (10 ^ Z.of_nat 20) with 100000000000000000000. lia.
    - fold ds. lia.
    - rewrite length_insert. lia. }
  fold ds. unfold ret. rewrite set_block_twice. cbn [ptr_add].
  replace (Z.of_nat 22 - Z.of_nat (length ds) + 1) with (23 - Z.of_nat (length ds)) by lia.
  replace (23 - length ds)%nat with (23 - length ds)%nat by lia.
  change (nat_of (24 - 1)) with 23%nat.
  rewrite take_insert_ge by lia.
  rewrite (drop_S _ (Byte 0)) by (apply list_lookup_insert_eq; lia).
  rewrite drop_insert_lt by lia.
  rewrite drop_ge by lia. done.
Qed.

(** ** One format specifier *)

Lemma free_live st b cs : heap st !! b = Some (Live cs) → free (Ptr b 0) st = Ret (tt, set_block b Freed st).
Proof. intros H. unfold free. by rewrite (block_cells_live _ _ _ H). Qed.

(** The end of [fmt_arg]: the text is appended by [m], then the local
    array goes away. *)
Lemma fmt_tail st st1 a b c ba cs text (m : M unit) (args' : list varg) :
  heap st !! ba = None → updated a b c st st1 → heap st1 !! ba = Some (Live cs) →
  (∀ b1, str_in st1 a b1 c →
     ba ≠ b1 ∧ ∃ st2, m st1 = Ret (tt, st2) ∧ updated a b1 (c ++ text) st1 st2) →
  ∃ st', (x <- (m ;;; ret args') ;; end_local (Ptr ba 0) ;;; ret x) st1 = Ret (args', st')
         ∧ updated a b (c ++ text) st st'.
Proof.
  intros Hba Hu1 Hlive Hm.
  pose proof Hu1 as (b1 & Hs1 & Hf1 & Hb1).
  destruct (Hm b1 Hs1) as (Hne & st2 & E2 & Hu2).
  pose proof Hu2 as (b2 & Hs2 & Hf2 & Hb2).
  assert (heap st2 !! ba = Some (Live cs)) as Hlive2 by (by apply Hf2).
  exists (set_block ba Freed st2). split.
  - rewrite bind_assoc, (bind_ret _ _ _ _ _ E2).
    unfold bind at 1, ret at 1. unfold end_local.
    by rewrite (bind_ret _ _ _ _ _ (free_live _ _ _ Hlive2)).
  - apply updated_set_block; [|done|].
    + eapply updated_trans; [done|]. intros b1' Hs1'.
      by rewrite (str_in_same_block _ _ _ _ _ _ Hs1 Hs1').
    + intros b2' Hs2'. rewrite (str_in_same_block _ _ _ _ _ _ Hs2 Hs2').
      intros ->. destruct Hb2 as [->|Hn]; [done|]. congruence.
Qed.

Lemma malloc_spec st n :
  malloc n st = Ret (Ptr (fresh (dom (heap st))) 0,
                     set_block (fresh (dom (heap st))) (Live (replicate (nat_of n) Undef)) st).
Proof. done. Qed.

Lemma updated_new_block a b c st bx x :
  str_in st a b c → heap st !! bx = None → updated a b c st (set_block bx x st).
Proof.
  intros H Hbx. apply updated_set_block; [by apply updated_refl|done|].
  intros b' Hs' ->. destruct (str_in_block_live _ _ _ _ Hs') as (y & Hy). congruence.
Qed.

(** A string or buffer argument. *)
Lemma fmt_src_spec st a b c text (m : M unit) (args' : list varg) :
  str_in st a b c →
  (∀ st1, frame a b st st1 → str_in st1 a b c →
          ∃ st2, m st1 = Ret (tt, st2) ∧ updated a b (c ++ text) st1 st2) →
  ∃ st', (arr <- local_array 24 ;; x <- (m ;;; ret args') ;; end_local arr ;;; ret x) st
         = Ret (args', st')
         ∧ updated a b (c ++ text) st st'.
Proof.
  intros H Hm. set (ba := fresh (dom (heap st))).
  assert (heap st !! ba = None) as Hba by apply heap_fresh_none.
  unfold local_array. rewrite (bind_ret _ _ _ _ _ (malloc_spec st 24)). fold ba.
  set (st1 := set_block ba (Live (replicate (nat_of 24) Undef)) st).
  pose proof (updated_new_block a b c st ba (Live (replicate (nat_of 24) Undef)) H Hba) as Hu1.
  fold st1 in Hu1.
  eapply (fmt_tail st st1); [done|done|apply heap_set_block_eq|].
  intros b1 Hs1.
  assert (ba ≠ b) as Hne.
  { intros ->. destruct (str_in_block_live _ _ _ _ H) as (y & Hy). congruence. }
  assert (str_in st1 a b c) as Hsb by (by apply str_in_set_block_ne).
  rewrite (str_in_same_block _ _ _ _ _ _ Hsb Hs1). split; [done|].
  apply Hm; [|done]. apply frame_set_block; [apply frame_refl|by right].
Qed.

Lemma abs_uintmax i :
  INTMAX_MIN ≤ i ≤ INTMAX_MAX → to_uintmax (imaxabs i) = Z.abs i.
Proof.
  unfold INTMAX_MIN, INTMAX_MAX, to_uintmax, imaxabs, to_intmax. intros Hi.
  destruct (decide (i = - 2 ^ 63)) as [->|Hne]; [done|].
  rewrite (Z.mod_small (Z.abs i)) by lia.
  destruct (Z.ltb_spec (Z.abs i) (2 ^ 63)); [|lia].
  apply Z.mod_small. lia.
Qed.

(** An integer argument: the digits are written into the local array,
    the sign is put in front, and the text is appended. *)
Lemma fmt_int_spec NDEBUG st a b c (neg : bool) n (args' : list varg) :
  str_in st a b c → 0 ≤ n < 2 ^ 64 →
  let text := (if neg then [45] else []) ++ dec_digits 20 n in
  Z.of_nat (length c + length text) + 1 ≤ 2 ^ 63 →
  ∃ st',
    (arr <- local_array 24 ;;
     x <- (s <- do_fmt_u n (ptr_add arr (24 - 1)) ;;
           s <- (if neg then let s := ptr_add s (-1) in store s 45 ;;; ret s else ret s) ;;
           str_cat NDEBUG (Some a) [s] ;;; ret args') ;;
     end_local arr ;;; ret x) st
    = Ret (args', st')
    ∧ updated a b (c ++ text) st st'.
Proof.
  intros H Hn text Hsz. set (ba := fresh (dom (heap st))).
  assert (heap st !! ba = None) as Hba by apply heap_fresh_none.
  assert (ba ≠ b) as Hne.
  { intros ->. destruct (str_in_block_live _ _ _ _ H) as (y & Hy). congruence. }
  unfold local_array. rewrite (bind_ret _ _ _ _ _ (malloc_spec st 24)). fold ba.
  set (cs0 := replicate (nat_of 24) Undef).
  set (st1 := set_block ba (Live cs0) st).
  set (ds := dec_digits 20 n) in *.
  pose proof (dec_digits_length 20 n) as Hk. fold ds in Hk.
  pose proof (dec_digits_nonempty 20 n ltac:(lia)) as Hds. fold ds in Hds.
  assert (1 ≤ length ds)%nat as Hk1 by (destruct ds; simpl; [done|lia]).
  pose proof (do_fmt_u_spec ba n cs0 st1 (heap_set_block_eq _ _ _) eq_refl Hn) as Ef.
  cbv zeta in Ef. fold ds in Ef. unfold st1 in Ef. rewrite set_block_twice in Ef.
  set (cs1 := take (23 - length ds) cs0 ++ (Byte <$> ds) ++ [Byte 0]) in *.
  assert (length cs0 = 24%nat) as Hlen0 by done.
  assert (length cs1 = 24%nat) as Hlen1.
  { unfold cs1. rewrite !length_app, length_take, length_fmap, Hlen0.
    cbn [length]. lia. }
  cbn [ptr_add]. rewrite Z.add_0_l.
  (* the state and pointer once the text is in the array *)
  set (cs2 := if neg then <[(22 - length ds)%nat := Byte 45]> cs1 else cs1).
  set (s2 := Ptr ba (23 - Z.of_nat (length ds) - (if neg then 1 else 0))).
  set (st2 := set_block ba (Live cs2) st).
  assert ((if neg then store (ptr_add (Ptr ba (23 - Z.of_nat (length ds))) (-1)) 45 ;;;
                       ret (ptr_add (Ptr ba (23 - Z.of_nat (length ds))) (-1))
           else ret (Ptr ba (23 - Z.of_nat (length ds))))
            (set_block ba (Live cs1) st) = Ret (s2, st2)) as Esign.
  { unfold s2, st2, cs2. destruct neg.
    - cbv zeta. cbn [ptr_add].
      erewrite bind_ret; [|apply store_live; [apply heap_set_block_eq|lia]].
      rewrite set_block_twice. unfold ret.
      replace (nat_of (23 - Z.of_nat (length ds) + -1)) with (22 - length ds)%nat
        by (unfold nat_of; lia).
      replace (23 - Z.of_nat (length ds) + -1) with (23 - Z.of_nat (length ds) - 1) by lia.
      done.
    - unfold ret. by rewrite Z.sub_0_r. }
  assert (length cs2 = 24%nat) as Hlen2.
  { unfold cs2. destruct neg; [by rewrite length_insert|done]. }
  assert (cells_from st2 s2 = Some ((Byte <$> text) ++ [Byte 0])) as Esrc.
  { unfold s2, st2. rewrite cells_from_set_block_eq by (destruct neg; lia).
    f_equal. unfold cs2, text. fold ds. destruct neg.
    - replace (nat_of (23 - Z.of_nat (length ds) - 1)) with (22 - length ds)%nat
        by (unfold nat_of; lia).
      rewrite (drop_S _ (Byte 45)) by (apply list_lookup_insert_eq; lia).
      rewrite drop_insert_lt by lia. cbn [app fmap list_fmap]. f_equal.
      unfold cs1. replace (S (22 - length ds)) with (23 - length ds)%nat by lia.
      rewrite drop_app_length'; [done|].
      rewrite length_take, Hlen0. lia.
    - replace (nat_of (23 - Z.of_nat (length ds) - 0)) with (23 - length ds)%nat
        by (unfold nat_of; lia).
      cbn [app]. unfold cs1.
      rewrite drop_app_length'; [done|].
      rewrite length_take, Hlen0. lia. }
  assert (Forall byte_ok text) as Htext.
  { unfold text. apply Forall_app. split.
    - destruct neg; [apply Forall_singleton; unfold byte_ok; lia|done].
    - apply dec_digits_bytes. lia. }
  pose proof (updated_new_block a b c st ba (Live cs2) H Hba) as Hu2. fold st2 in Hu2.
  destruct (fmt_tail st st2 a b c ba cs2 text (str_cat NDEBUG (Some a) [s2]) args')
    as (st' & E' & Hu'); [done|done|apply heap_set_block_eq| |].
  { intros b1 Hs1.
    assert (str_in st2 a b c) as Hsb by (by apply str_in_set_block_ne).
    rewrite (str_in_same_block _ _ _ _ _ _ Hsb Hs1). split; [done|].
    destruct (str_cat_spec NDEBUG st2 a b c [s2] [text] Hsb) as (st3 & E3 & Hu3).
    - constructor; [|constructor]. split; [|unfold s2; simpl; congruence].
      exists []. by split.
    - simpl. rewrite app_nil_r. done.
    - exists st3. simpl in Hu3. rewrite app_nil_r in Hu3. done. }
  exists st'. split; [|done].
  rewrite <- E'. unfold st1. rewrite bind_assoc, (bind_ret _ _ _ _ _ Ef).
  by rewrite bind_assoc, (bind_ret _ _ _ _ _ Esign).
Qed.

Lemma render_int_nonneg u : 0 ≤ u → render_int u = [] ++ dec_digits 20 u.
Proof.
  intros Hu. unfold render_int. destruct (Z.ltb_spec u 0); [lia|].
  by rewrite Z.abs_eq.
Qed.

(** [fmt_arg] appends the text of the argument and consumes it. *)
Lemma fmt_arg_spec NDEBUG st a b c sp v text args :
  str_in st a b c → arg_text st a b sp v text →
  Z.of_nat (length c + length text) + 1 ≤ 2 ^ 63 →
  ∃ st', fmt_arg NDEBUG (Some a) sp (v :: args) st = Ret (args, st')
         ∧ updated a b (c ++ text) st st'.
Proof.
  intros H Ht Hsz. destruct Ht as [p bs Hp|s bs Hs|v i Hv Hi|v i Hv Hi|v u Hv Hu|v u Hv Hu].
  - destruct (fmt_src_spec st a b c bs (str_cat NDEBUG (Some a) [p]) args H)
      as (st' & E & Hu); [|by exists st'].
    intros st1 Hf1 Hs1.
    destruct (str_cat_spec NDEBUG st1 a b c [p] [bs] Hs1) as (st2 & E2 & Hu2).
    + constructor; [|constructor]. eapply src_in_frame; [done|by left|done].
    + simpl. by rewrite app_nil_r.
    + exists st2. simpl in Hu2. by rewrite app_nil_r in Hu2.
  - destruct (fmt_src_spec st a b c bs (str_cat_s NDEBUG (Some a) [s]) args H)
      as (st' & E & Hu); [|by exists st'].
    intros st1 Hf1 Hs1.
    destruct (str_cat_s_spec NDEBUG st1 a b c [s] [bs] Hs1) as (st2 & E2 & Hu2).
    + constructor; [|constructor]. eapply str_src_in_frame; [done|by left|done].
    + simpl. by rewrite app_nil_r.
    + exists st2. simpl in Hu2. by rewrite app_nil_r in Hu2.
  - pose proof (abs_uintmax i
      ltac:(unfold INT_MIN, INT_MAX, INTMAX_MIN, INTMAX_MAX in *; lia)) as Habs.
    destruct (fmt_int_spec NDEBUG st a b c (i <? 0) (to_uintmax (imaxabs i)) args H)
      as (st' & E & Hu').
    { rewrite Habs. unfold INT_MIN, INT_MAX in Hi. lia. }
    { rewrite Habs. done. }
    rewrite Habs in Hu'.
    exists st'. split; [|done]. rewrite <- E. unfold fmt_arg.
    change (105 =? 115) with false. change (105 =? 83) with false.
    change (105 =? 105) with true. cbn [orb]. cbv iota.
    unfold va_arg. rewrite Hv. done.
  - pose proof (abs_uintmax i Hi) as Habs.
    destruct (fmt_int_spec NDEBUG st a b c (i <? 0) (to_uintmax (imaxabs i)) args H)
      as (st' & E & Hu').
    { rewrite Habs. unfold INTMAX_MIN, INTMAX_MAX in Hi. lia. }
    { rewrite Habs. done. }
    rewrite Habs in Hu'.
    exists st'. split; [|done]. rewrite <- E. unfold fmt_arg.
    change (73 =? 115) with false. change (73 =? 83) with false.
    change (73 =? 105) with false. change (73 =? 73) with true. cbn [orb]. cbv iota.
    unfold va_arg. rewrite Hv. done.
  - rewrite render_int_nonneg in * by lia.
    destruct (fmt_int_spec NDEBUG st a b c false u args H) as (st' & E & Hu').
    { unfold UINT_MAX in Hu. lia. }
    { done. }
    exists st'. split; [|done]. rewrite <- E. unfold fmt_arg.
    change (117 =? 115) with false. change (117 =? 83) with false.
    change (117 =? 105) with false. change (117 =? 73) with false.
    change (117 =? 117) with true. cbn [orb]. cbv iota.
    unfold va_arg. rewrite Hv. done.
  - rewrite render_int_nonneg in * by lia.
    destruct (fmt_int_spec NDEBUG st a b c false u args H) as (st' & E & Hu').
    { unfold UINTMAX_MAX in Hu. lia. }
    { done. }
    exists st'. split; [|done]. rewrite <- E. unfold fmt_arg.
    change (85 =? 115) with false. change (85 =? 83) with false.
    change (85 =? 105) with false. change (85 =? 73) with false.
    change (85 =? 117) with false. change (85 =? 85) with true. cbn [orb]. cbv iota.
    unfold va_arg. rewrite Hv. done.
Qed.

(** ** Templates *)

Lemma render_lit pre l texts :
  Forall (λ x, x ≠ 37) pre → render (pre ++ l) texts = (pre ++.) <$> render l texts.
Proof.
  induction 1 as [|x pre Hx _ IH]; cbn [app render].
  - by destruct (render l texts).
  - destruct (Z.eqb_spec x 37); [done|]. rewrite IH.
    by destruct (render l texts).
Qed.

Lemma specs_lit pre l : Forall (λ x, x ≠ 37) pre → specs_of (pre ++ l) = specs_of l.
Proof.
  induction 1 as [|x pre Hx _ IH]; cbn [app specs_of]; [done|].
  by destruct (Z.eqb_spec x 37).
Qed.

Lemma render_plain t texts : Forall (λ x, x ≠ 37) t → render t texts = Some t.
Proof.
  intros H. rewrite <- (app_nil_r t) at 1. rewrite render_lit by done.
  simpl. by rewrite app_nil_r.
Qed.

Lemma template_split (tmpl : list Z) :
  Forall (λ x, x ≠ 37) tmpl ∨
  ∃ pre post, tmpl = pre ++ 37 :: post ∧ Forall (λ x, x ≠ 37) pre.
Proof.
  destruct (decide (37 ∈ tmpl)) as [Hin|Hnin].
  - right. apply list_elem_of_split_l in Hin as (pre & post & -> & Hpre).
    exists pre, post. split; [done|]. apply Forall_forall. intros x Hx ->. done.
  - left. apply Forall_forall. intros x Hx ->. done.
Qed.

Lemma arg_text_frame a b b1 st st1 sp v t :
  frame a b st st1 → b1 = b ∨ heap st !! b1 = None →
  arg_text st a b sp v t → arg_text st1 a b1 sp v t.
Proof.
  intros Hf Hb [p bs Hp|s bs Hs|? i Hv Hi|? i Hv Hi|? u Hv Hu|? u Hv Hu].
  - constructor. by eapply src_in_frame.
  - constructor. by eapply str_src_in_frame.
  - by apply arg_text_i.
  - by apply arg_text_I.
  - by apply arg_text_u.
  - by apply arg_text_U.
Qed.

Lemma arg_texts_frame a b b1 st st1 sps vs ts :
  frame a b st st1 → b1 = b ∨ heap st !! b1 = None →
  Forall3 (arg_text st a b) sps vs ts → Forall3 (arg_text st1 a b1) sps vs ts.
Proof.
  intros Hf Hb. induction 1; constructor; [by eapply arg_text_frame|done].
Qed.

Lemma ptr_diff_same b o o' : ptr_diff (Ptr b o) (Ptr b o') = Some (o - o').
Proof. unfold ptr_diff. by rewrite decide_True. Qed.

(** The literal text before a specifier. *)
Lemma fmt_chunk_spec NDEBUG st a b c bf o pre tail :
  str_in st a b c →
  cells_from st (Ptr bf o) = Some ((Byte <$> (pre ++ tail)) ++ [Byte 0]) ∨
  (∃ rest, cells_from st (Ptr bf o) = Some ((Byte <$> (pre ++ tail)) ++ Byte 0 :: rest)) →
  bf ≠ b → Forall byte_ok (pre ++ tail) →
  Z.of_nat (length c + length pre) + 1 ≤ 2 ^ 63 →
  ∃ st', (gt <- ptr_gt (Ptr bf (o + Z.of_nat (length pre))) (Ptr bf o) ;;
          if gt : bool then
            d <- ptr_sub (Ptr bf (o + Z.of_nat (length pre))) (Ptr bf o) ;;
            str_ncat NDEBUG (Some a) (Ptr bf o) (size_wrap d)
          else ret tt) st = Ret (tt, st')
         ∧ updated a b (c ++ pre) st st'.
Proof.
  intros H Hcells Hne Hall Hsz.
  assert (∃ rest, cells_from st (Ptr bf o) = Some ((Byte <$> (pre ++ tail)) ++ Byte 0 :: rest))
    as (rest & E) by (destruct Hcells as [E|E]; eauto).
  clear Hcells.
  unfold ptr_gt, ptr_sub. rewrite ptr_diff_same.
  replace (o + Z.of_nat (length pre) - o) with (Z.of_nat (length pre)) by lia.
  unfold bind at 1, ret at 1.
  destruct pre as [|x pre'].
  - exists st. simpl. rewrite app_nil_r. split; [done|by apply updated_refl].
  - destruct (Z.ltb_spec 0 (Z.of_nat (length (x :: pre')))); [|simpl in *; lia].
    unfold bind at 1, ret at 1. rewrite size_wrap_id by lia.
    destruct (str_ncat_spec NDEBUG st a b c (Ptr bf o) ((x :: pre') ++ tail)
                (Z.of_nat (length (x :: pre'))) H) as (st1 & E1 & Hu).
    + split; [by exists rest|simpl; congruence].
    + lia.
    + rewrite nat_of_nat, take_app_length. done.
    + rewrite nat_of_nat, take_app_length in Hu. by exists st1.
Qed.

Lemma fmt_loop_spec NDEBUG a bf fuel : ∀ tmpl args texts out st b c o rest,
  str_in st a b c →
  cells_from st (Ptr bf o) = Some ((Byte <$> tmpl) ++ Byte 0 :: rest) → bf ≠ b →
  Forall byte_ok tmpl →
  Forall3 (arg_text st a b) (specs_of tmpl) args texts → render tmpl texts = Some out →
  Z.of_nat (length c + length out) + 1 ≤ 2 ^ 63 →
  Z.of_nat (length tmpl) + 1 ≤ 2 ^ 63 → (length tmpl < fuel)%nat →
  ∃ st', fmt_loop NDEBUG fuel (Some a) (Ptr bf o) (Z.of_nat (length tmpl)) args st
         = Ret (tt, st')
         ∧ updated a b (c ++ out) st st'.
Proof.
  induction fuel as [|fuel IH];
    intros tmpl args texts out st b c o rest H E Hne Hall Hargs Hout Hsz Hlen Hf; [lia|].
  cbn [fmt_loop].
  destruct (decide (tmpl = [])) as [->|Hnil].
  { simpl in Hout. injection Hout as <-. exists st. rewrite app_nil_r.
    split; [done|by apply updated_refl]. }
  destruct (Z.eqb_spec (Z.of_nat (length tmpl)) 0) as [Hz|_].
  { destruct tmpl; [done|simpl in Hz; lia]. }
  destruct (template_split tmpl) as [Hplain|(pre & post & -> & Hpre)].
  - (* no specifier left *)
    rewrite render_plain in Hout by done. injection Hout as <-.
    erewrite bind_ret; last first.
    { eapply memchr_absent; [exact E|lia|]. by rewrite nat_of_nat, take_ge by lia. }
    destruct (str_cat_spec NDEBUG st a b c [Ptr bf o] [tmpl] H) as (st1 & E1 & Hu).
    + constructor; [|constructor]. split; [by exists rest|simpl; congruence].
    + simpl. by rewrite app_nil_r.
    + exists st1. simpl in Hu. by rewrite app_nil_r in Hu.
  - (* a specifier *)
    rewrite render_lit in Hout by done. rewrite specs_lit in Hargs by done.
    cbn [render specs_of] in Hout, Hargs. change (37 =? 37) with true in *. cbv iota in *.
    destruct post as [|sp post']; [done|].
    inversion Hargs as [|? v t ? args' ts Hv Hargs']; subst.
    destruct (render post' ts) as [out'|] eqn:Eout'; [|done].
    cbn [fmap option_fmap option_map] in Hout. injection Hout as <-.
    rewrite !length_app in Hsz, Hlen. cbn [length] in Hlen.
    erewrite bind_ret; [|by eapply memchr_found; [exact E|done|rewrite length_app; simpl; lia]].
    cbn [ptr_add].
    (* the first assertion *)
    assert (cells_from st (Ptr bf (o + Z.of_nat (length pre)))
            = Some ((Byte <$> (37 :: sp :: post')) ++ Byte 0 :: rest)) as Epct.
    { rewrite <- (length_fmap Byte pre). apply cells_from_advance.
      by rewrite app_assoc, <- fmap_app. }
    erewrite bind_ret; last first.
    { apply assert_true. unfold ptr_ge. rewrite ptr_diff_same.
      unfold bind at 1, ret at 1.
      destruct (Z.leb_spec 0 (o + Z.of_nat (length pre) - o)); [|lia].
      by rewrite (bind_ret _ _ _ _ _ (load_cells _ _ _ _ Epct)). }
    (* the literal chunk *)
    destruct (fmt_chunk_spec NDEBUG st a b c bf o pre (37 :: sp :: post') H)
      as (st1 & E1 & Hu1); [by right; exists rest|done|done|lia|].
    rewrite <- bind_assoc, (bind_ret _ _ _ _ _ E1).
    pose proof Hu1 as (b1 & Hs1 & Hf1 & Hb1).
    destruct (cells_from_inv _ _ _ E) as (? & ? & all & [= <- <-] & Hall' & Ho & _).
    assert (bf ≠ b1) as Hne1 by (by eapply live_block_other).
    assert (ptr_block (Ptr bf o) ≠ Some b) as Hsep by (simpl; congruence).
    unfold ptr_sub. rewrite ptr_diff_same. unfold bind at 1, ret at 1.
    replace (o + Z.of_nat (length pre) + 2 - o) with (Z.of_nat (length pre) + 2) by lia.
    rewrite (size_wrap_id (Z.of_nat (length pre) + 2)) by lia.
    replace (Z.of_nat (length (pre ++ 37 :: sp :: post')) - (Z.of_nat (length pre) + 2))
      with (Z.of_nat (length post')) by (rewrite length_app; simpl; lia).
    rewrite size_wrap_id by lia.
    (* the rest of the template, in the new state *)
    assert (cells_from st (Ptr bf (o + Z.of_nat (length pre) + 1))
            = Some (Byte sp :: (Byte <$> post') ++ Byte 0 :: rest)) as Espec0.
    { apply (cells_from_next _ _ _ (Byte 37)). exact Epct. }
    assert (cells_from st (Ptr bf (o + Z.of_nat (length pre) + 2))
            = Some ((Byte <$> post') ++ Byte 0 :: rest)) as Epost0.
    { replace (o + Z.of_nat (length pre) + 2) with (o + Z.of_nat (length pre) + 1 + 1) by lia.
      apply (cells_from_next _ _ _ (Byte sp)). exact Espec0. }
    assert (∀ p x, ptr_block p = Some bf → cells_from st p = Some x →
                   cells_from st1 p = Some x) as Hkeep.
    { intros p x Hp Hx. eapply cells_from_frame; [done| |done]. rewrite Hp. congruence. }
    pose proof (Hkeep (Ptr bf _) _ eq_refl Espec0) as Espec.
    pose proof (Hkeep (Ptr bf _) _ eq_refl Epost0) as Epost.
    assert (Forall byte_ok post') as Hpost.
    { apply Forall_app in Hall as [_ Hall]. by do 2 apply Forall_cons in Hall as [_ Hall]. }
    erewrite bind_ret; last first.
    { apply assert_true.
      erewrite bind_ret; [|apply strlen_cstr; by exists rest].
      unfold ret. by rewrite Z.eqb_refl. }
    rewrite (bind_ret _ _ _ _ _ (load_cells _ _ _ _ Espec)).
    (* the argument *)
    destruct (fmt_arg_spec NDEBUG st1 a b1 (c ++ pre) sp v t args' Hs1)
      as (st2 & E2 & Hu2).
    { by eapply arg_text_frame. }
    { rewrite !length_app in Hsz. rewrite !length_app. lia. }
    rewrite (bind_ret _ _ _ _ _ E2).
    pose proof Hu2 as (b2 & Hs2 & Hf2 & Hb2).
    assert (heap st1 !! bf = Some (Live all)) as Hall1.
    { destruct Hf1 as [_ Hh]. by apply Hh. }
    assert (bf ≠ b2) as Hne2 by (by eapply live_block_other).
    (* the remaining rounds *)
    destruct (IH post' args' ts out' st2 b2 ((c ++ pre) ++ t)
                (o + Z.of_nat (length pre) + 2) rest Hs2) as (st3 & E3 & Hu3).
    { eapply cells_from_frame; [done|simpl; congruence|done]. }
    { done. }
    { done. }
    { eapply arg_texts_frame; [exact Hf2|done|].
      by eapply arg_texts_frame. }
    { done. }
    { rewrite !length_app in Hsz. rewrite !length_app. lia. }
    { lia. }
    { rewrite length_app in Hf. simpl in Hf. lia. }
    exists st3. split; [done|].
    rewrite (app_assoc c pre), (app_assoc _ t).
    eapply updated_trans; [exact Hu1|]. intros b1' Hs1'.
    rewrite (str_in_same_block _ _ _ _ _ _ Hs1 Hs1').
    eapply updated_trans; [exact Hu2|]. intros b2' Hs2'.
    by rewrite (str_in_same_block _ _ _ _ _ _ Hs2 Hs2').
Qed.

(** [str_cat_fmt]: the rendered template is appended. *)
Lemma str_cat_fmt_spec NDEBUG st a b c fmt tmpl args texts out :
  str_in st a b c → src_in st b fmt tmpl →
  Forall3 (arg_text st a b) (specs_of tmpl) args texts → render tmpl texts = Some out →
  Z.of_nat (length c + length out) + 1 ≤ 2 ^ 63 → Z.of_nat (length tmpl) + 1 ≤ 2 ^ 63 →
  ∃ st', str_cat_fmt NDEBUG (Some a) fmt args st = Ret (tt, st')
         ∧ updated a b (c ++ out) st st'.
Proof.
  intros H [Hfmt Hsep] Hargs Hout Hsz Hlen.
  pose proof (strlen_cstr _ _ _ Hfmt) as El.
  pose proof (cstr_in_not_null _ _ _ Hfmt) as Hnn.
  destruct Hfmt as (rest & E & Hall).
  destruct (cells_from_inv _ _ _ E) as (bf & o & all & -> & _).
  destruct (fmt_loop_spec NDEBUG a bf (S (nat_of (Z.of_nat (length tmpl))))
              tmpl args texts out st b c o rest H E) as (st1 & E1 & Hu); try done.
  { simpl in Hsep. congruence. }
  { rewrite nat_of_nat. lia. }
  exists st1. split; [|done]. unfold str_cat_fmt.
  erewrite bind_ret; last first.
  { apply assert_true. rewrite (bind_ret _ _ _ _ _ (str_ok_valid _ _ _ _ H)).
    unfold ret. by rewrite bool_decide_eq_true_2. }
  rewrite (bind_ret _ _ _ _ _ El), (bind_ret _ _ _ _ _ E1).
  apply assert_true. by eapply updated_str_ok.
Qed.

(** ** Invariants *)

Lemma str_in_invariants st a b c : str_in st a b c → str_invariants st a.
Proof.
  intros (rest & (v & r & Hv & Hbuf & Hl & Hh & Ha & Hr & Hra) & Hc).
  exists v, b, ((Byte <$> c) ++ Byte 0 :: rest), r.
  rewrite Hl, nat_of_nat. repeat split; try done; try lia.
  - rewrite lookup_app_r by (by rewrite length_fmap).
    by rewrite length_fmap, Nat.sub_diag.
  - intros i Hi. destruct (lookup_lt_is_Some_2 c i Hi) as (x & Hx).
    exists x. split.
    + rewrite lookup_app_l by (by rewrite length_fmap).
      by rewrite list_lookup_fmap, Hx.
    + apply byte_ok_nonzero. by eapply Forall_lookup_1.
Qed.

Lemma content_str_in st a b c : str_in st a b c → content st a = Some c.
Proof.
  intros H. destruct (str_in_struct _ _ _ _ H) as (v & rest & Hv & Hbuf & _ & _ & E & Hc).
  unfold content. rewrite Hv, Hbuf. apply cstr_at_cstr. by exists rest.
Qed.

(** A valid buffer has one block and one content. *)
Lemma str_in_unique st a b c b' c' :
  str_in st a b c → str_in st a b' c' → b = b' ∧ c = c'.
Proof.
  intros H H'. split; [by eapply str_in_same_block|].
  apply content_str_in in H, H'. congruence.
Qed.

(** ** One operation *)

Lemma run_op_spec NDEBUG st a b c o c' :
  str_in st a b c → op_effect st a b c o c' → Z.of_nat (length c') + 1 ≤ 2 ^ 63 →
  ∃ st', run_op NDEBUG (Some a) o st = Ret (tt, st') ∧ updated a b c' st st'.
Proof.
  intros H Heff Hsz.
  destruct Heff as [p bs Hp| |s bs Hs|p bs n Hp Hn|ps bss Hps|ss bss Hss|p bs n Hp Hn
                   |cs Hcs|fmt tmpl args texts out Hfmt Hlen Hargs Hout]; cbn [run_op].
  - by eapply str_cpy_spec.
  - exists st. split; [by eapply str_cpy_s_self|by apply updated_refl].
  - by eapply str_cpy_s_spec.
  - by eapply str_ncpy_spec.
  - apply str_cat_spec; [done|done|]. rewrite length_app in Hsz. done.
  - apply str_cat_s_spec; [done|done|]. rewrite length_app in Hsz. done.
  - apply str_ncat_spec; [done|done|done|]. rewrite length_app in Hsz. done.
  - apply str_putc_spec; [done|done|]. rewrite length_app, length_fmap in Hsz. done.
  - eapply str_cat_fmt_spec; try done. rewrite length_app in Hsz. done.
Qed.

Lemma run_ops_spec NDEBUG a os : ∀ st,
  ops_ok NDEBUG a st os →
  ∀ k b c, str_in st a b c →
  ∃ st' b' c', run_ops NDEBUG (Some a) (take k os) st = Ret (tt, st') ∧ str_in st' a b' c'.
Proof.
  induction os as [|o os IH]; intros st Hok k b c H.
  - rewrite take_nil. by exists st, b, c.
  - destruct k as [|k]; [by exists st, b, c|].
    inversion Hok as [|? ? ? Heff Hnext]; subst.
    destruct (Heff b c H) as (c' & He & Hsz).
    destruct (run_op_spec NDEBUG st a b c o c' H He Hsz) as (st1 & E1 & Hu).
    pose proof Hu as (b1 & Hs1 & _).
    destruct (IH st1 (Hnext _ E1) k b1 c' Hs1) as (st2 & b2 & c2 & E2 & Hs2).
    exists st2, b2, c2. split; [|done].
    cbn [take run_ops]. by rewrite (bind_ret _ _ _ _ _ E1).
Qed.

(** ** Creation *)

Lemma create_spec NDEBUG st0 src :
  creation_ok st0 src →
  ∃ a st b c, create NDEBUG src st0 = Ret (a, st) ∧ str_in st a b c.
Proof.
  intros Hok. unfold create. destruct src as [p|].
  - destruct Hok as (bs & Hp & Hsz).
    destruct (str_dup_spec NDEBUG st0 p bs Hp Hsz) as (v & b & st1 & E & _ & _ & _ & Hval).
    rewrite (bind_ret _ _ _ _ _ E).
    exists (fresh (dom (vars st1))), (mk_state (<[fresh (dom (vars st1)) := v]> (vars st1)) (heap st1)), b, bs.
    split; [done|]. eapply str_val_in.
    + destruct Hval as (rest & r & Hval). exists rest, r. exact Hval.
    + cbn [vars]. apply lookup_insert_eq.
  - destruct (str_new_spec NDEBUG st0) as (v & b & st1 & E & _ & _ & _ & Hval & _).
    rewrite (bind_ret _ _ _ _ _ E).
    exists (fresh (dom (vars st1))), (mk_state (<[fresh (dom (vars st1)) := v]> (vars st1)) (heap st1)), b, [].
    split; [done|]. eapply str_val_in.
    + destruct Hval as (rest & r & Hval). exists rest, r. exact Hval.
    + cbn [vars]. apply lookup_insert_eq.
Qed.

(** ** Fragments *)

Lemma fragments_frame a b b1 st st1 g bss :
  frame a b st st1 → b1 = b ∨ heap st !! b1 = None →
  fragments_in st a b g bss → fragments_in st1 a b1 g bss.
Proof.
  intros Hf Hb [ps ? Hps|ss ? Hss]; constructor.
  - eapply Forall2_impl; [done|]. intros p bs. by eapply src_in_frame.
  - eapply Forall2_impl; [done|]. intros p bs. by eapply str_src_in_frame.
Qed.

Lemma append_spec NDEBUG a gs : ∀ texts st b c,
  str_in st a b c → Forall2 (fragments_in st a b) gs texts →
  Z.of_nat (length c + length (concat (concat texts))) + 1 ≤ 2 ^ 63 →
  ∃ st', append NDEBUG (Some a) gs st = Ret (tt, st')
         ∧ updated a b (c ++ concat (concat texts)) st st'.
Proof.
  induction gs as [|g gs IH]; intros texts st b c H Hgs Hsz.
  - inversion Hgs; subst. exists st. simpl. rewrite app_nil_r.
    split; [done|by apply updated_refl].
  - inversion Hgs as [|? bss ? texts' Hg Hgs']; subst.
    simpl in Hsz. rewrite concat_app, length_app in Hsz.
    assert (∃ st1, (match g with
                    | Raws ps => str_cat NDEBUG (Some a) ps
                    | Bufs ss => str_cat_s NDEBUG (Some a) ss
                    end) st = Ret (tt, st1) ∧ updated a b (c ++ concat bss) st st1)
      as (st1 & E1 & Hu1).
    { destruct Hg as [ps ? Hps|ss ? Hss].
      - apply str_cat_spec; [done|done|lia].
      - apply str_cat_s_spec; [done|done|lia]. }
    pose proof Hu1 as (b1 & Hs1 & Hf1 & Hb1).
    destruct (IH texts' st1 b1 (c ++ concat bss) Hs1) as (st2 & E2 & Hu2).
    { eapply Forall2_impl; [done|]. intros g' t'. by eapply fragments_frame. }
    { rewrite length_app. lia. }
    exists st2. split.
    + destruct g; cbn [append]; by rewrite (bind_ret _ _ _ _ _ E1).
    + cbn [concat]. rewrite concat_app, app_assoc.
      eapply updated_trans; [done|]. intros b1' Hs1'.
      by rewrite (str_in_same_block _ _ _ _ _ _ Hs1 Hs1').
Qed.

(** * The claims *)

(** C1.  A buffer made by [str_new] or [str_dup] satisfies the three
    invariants, and keeps them after each operation of any sequence of
    [str_cpy], [str_cpy_s], [str_ncpy], [str_cat], [str_cat_s], [str_ncat],
    [str_putc] and [str_cat_fmt] calls with well-formed arguments: the
    byte at index [len] is 0, no byte below [len] is 0, and [alloc] is at
    least [str_round_up (len + 1)].  The code's own check [str_ok] agrees. *)
Theorem C1_invariants_preserved NDEBUG st0 src :
  creation_ok st0 src →
  ∃ a st,
    create NDEBUG src st0 = Ret (a, st) ∧
    ∀ os, ops_ok NDEBUG a st os →
    ∀ k, ∃ st', run_ops NDEBUG (Some a) (take k os) st = Ret (tt, st')
               ∧ str_invariants st' a
               ∧ str_ok (Some a) st' = Ret (true, st').
Proof.
  intros Hok.
  destruct (create_spec NDEBUG st0 src Hok) as (a & st & b & c & E & H).
  exists a, st. split; [done|]. intros os Hos k.
  destruct (run_ops_spec NDEBUG a os st Hos k b c H) as (st' & b' & c' & E' & H').
  exists st'. split; [done|]. split; [by eapply str_in_invariants|by eapply str_ok_valid].
Qed.

(** C2, as amended.  For every [n] up to 2^63, [str_round_up n] is the
    smallest power of two that is at least 16 (twice the size of a
    size_t) and at least [n]; on this range it is monotonic, and any
    larger fuel gives the same result.  (Beyond 2^63 the doubling wraps
    to 0 and the loop never ends.) *)
Theorem C2_round_up_smallest_power n :
  0 ≤ n ≤ 2 ^ 63 →
  ∃ p, str_round_up n = Some p ∧ is_pow2 p ∧ 2 * sizeof_size_t ≤ p ∧ n ≤ p ∧
       (∀ q, is_pow2 q → 2 * sizeof_size_t ≤ q → n ≤ q → p ≤ q) ∧
       (∀ m p', n ≤ m → str_round_up m = Some p' → p ≤ p') ∧
       (∀ fuel, (64 ≤ fuel)%nat → round_up_loop fuel (2 * sizeof_size_t) n = Some p).
Proof.
  intros [_ Hn].
  destruct (str_round_up_spec n Hn) as (p & E & Hp2 & H16 & Hnp & _ & Hmin).
  exists p. repeat split; try done.
  - intros m p' Hnm E'.
    pose proof (str_round_up_bound _ _ E') as Hm.
    destruct (str_round_up_spec m Hm) as (p'' & E'' & Hp2' & H16' & Hmp & _).
    rewrite E' in E''. injection E'' as <-. apply Hmin; [done|done|lia].
  - intros fuel Hf. by rewrite round_up_loop_fuel.
Qed.

(** C2, as stated, fails: for [n = 2^63 + 1], a value a size_t holds,
    the loop of [str_round_up] returns for no amount of fuel. *)
Lemma C2_counterexample :
  str_round_up (2 ^ 63 + 1) = None ∧
  ¬ (∃ fuel p, round_up_loop fuel (2 * sizeof_size_t) (2 ^ 63 + 1) = Some p).
Proof.
  split; [by vm_compute|]. intros (fuel & p & E).
  rewrite round_up_loop_wrapped in E; [done| |lia].
  right. exists 4. split; [lia|done].
Qed.

(** C3.  Appending fragments: raw strings through [str_cat], buffers
    through [str_cat_s], in any order of groups.  The destination ends
    with its old content followed by the bytes of every fragment, in
    order.  In particular "ab" followed by the string "cd" and a buffer
    holding "ef" gives "abcdef". *)
Theorem C3_append_concatenates NDEBUG st a b c gs texts :
  str_in st a b c → Forall2 (fragments_in st a b) gs texts →
  Z.of_nat (length c + length (concat (concat texts))) + 1 ≤ 2 ^ 63 →
  (∃ st' b', append NDEBUG (Some a) gs st = Ret (tt, st')
             ∧ str_in st' a b' (c ++ concat (concat texts))
             ∧ content st' a = Some (c ++ concat (concat texts)))
  ∧ (c = bytes_of "ab" → texts = [[bytes_of "cd"]; [bytes_of "ef"]] →
     ∃ st', append NDEBUG (Some a) gs st = Ret (tt, st')
            ∧ content st' a = Some (bytes_of "abcdef")).
Proof.
  intros H Hgs Hsz.
  destruct (append_spec NDEBUG a gs texts st b c H Hgs Hsz) as (st' & E & b' & Hs & _).
  split.
  - exists st', b'. split; [done|]. split; [done|by eapply content_str_in].
  - intros -> ->. exists st'. split; [done|].
    by rewrite (content_str_in _ _ _ _ Hs).
Qed.

Lemma int_arg_text st a b sp v i : int_arg sp v i → arg_text st a b sp v (render_int i).
Proof.
  intros [? ? Hv Hi|? ? Hv Hi|? ? Hv Hi|? ? Hv Hi].
  - by apply arg_text_i.
  - by apply arg_text_I.
  - by apply arg_text_u.
  - by apply arg_text_U.
Qed.

Lemma int_arg_range sp v i : int_arg sp v i → - 2 ^ 63 ≤ i < 2 ^ 64.
Proof.
  intros [? ? _ Hi|? ? _ Hi|? ? _ Hi|? ? _ Hi];
    unfold INT_MIN, INT_MAX, INTMAX_MIN, INTMAX_MAX, UINT_MAX, UINTMAX_MAX in Hi; lia.
Qed.

Lemma render_int_length i : (length (render_int i) ≤ 21)%nat.
Proof.
  unfold render_int. rewrite length_app.
  pose proof (dec_digits_length 20 (Z.abs i)). destruct (i <? 0); cbn [length]; lia.
Qed.

(** C4.  [str_cat_fmt] with the template "%i", "%I", "%u" or "%U" and an
    argument of the specifier's type appends the decimal representation
    of the argument, with '-' in front exactly when the argument is
    negative.  In particular "%i apples, %u oranges" with -5 and 3
    appends "-5 apples, 3 oranges". *)
Theorem C4_format_integers NDEBUG st a b c fmt :
  str_in st a b c → Z.of_nat (length c) + 22 ≤ 2 ^ 63 →
  (∀ sp v i, int_arg sp v i → src_in st b fmt [37; sp] →
     ∃ st' b' ds,
       str_cat_fmt NDEBUG (Some a) fmt [v] st = Ret (tt, st') ∧
       is_decimal ds (Z.abs i) ∧
       str_in st' a b' (c ++ (if i <? 0 then [45] else []) ++ ds))
  ∧ (src_in st b fmt (bytes_of "%i apples, %u oranges") →
     ∃ st' b',
       str_cat_fmt NDEBUG (Some a) fmt [VInt (-5); VInt 3] st = Ret (tt, st') ∧
       str_in st' a b' (c ++ bytes_of "-5 apples, 3 oranges")).
Proof.
  intros H Hsz. split.
  - intros sp v i Hi Hfmt.
    pose proof (int_arg_range _ _ _ Hi) as Hr.
    pose proof (render_int_length i) as Hl.
    destruct (str_cat_fmt_spec NDEBUG st a b c fmt [37; sp] [v] [render_int i]
                (render_int i ++ []) H Hfmt) as (st' & E & b' & Hs & _).
    + cbn [specs_of]. change (37 =? 37) with true. cbv iota.
      constructor; [|constructor]. by apply int_arg_text.
    + cbn [render]. change (37 =? 37) with true. done.
    + rewrite app_nil_r. lia.
    + simpl. lia.
    + exists st', b', (dec_digits 20 (Z.abs i)). split; [done|]. split.
      * apply dec_digits_decimal; [lia|].
        change (10 ^ Z.of_nat 20) with 100000000000000000000. lia.
      * rewrite app_nil_r in Hs. exact Hs.
  - intros Hfmt.
    destruct (str_cat_fmt_spec NDEBUG st a b c fmt (bytes_of "%i apples, %u oranges")
                [VInt (-5); VInt 3] [render_int (-5); render_int 3]
                (bytes_of "-5 apples, 3 oranges") H Hfmt) as (st' & E & b' & Hs & _).
    + change (specs_of (bytes_of "%i apples, %u oranges")) with [105; 117].
      constructor; [|constructor; [|constructor]].
      * by apply arg_text_i.
      * by apply arg_text_u.
    + by vm_compute.
    + change (length (bytes_of "-5 apples, 3 oranges")) with 20%nat. lia.
    + by vm_compute.
    + by exists st', b'.
Qed.

(** C5.  [str_getline] returns the final length of the buffer plus one
    when a newline ended the scan, and the final length when the stream
    ended.  The buffer holds the bytes of the line (NUL bytes, which
    [str_putc] takes for its end marker, are left out).  On "foo\nbar"
    the first call leaves "foo" and returns 4, the second leaves "bar"
    and returns 3. *)
Theorem C5_getline_count NDEBUG st a b c inp :
  str_in st a b c → Forall (λ x, 0 ≤ x < 256) inp →
  Z.of_nat (length inp) + 1 ≤ 2 ^ 63 →
  (∃ st' b' n rest c',
     str_getline NDEBUG (Some a) inp st = Ret ((n, rest), st') ∧
     str_in st' a b' c' ∧ c' = nonzero (line_of inp) ∧ rest = after_line inp ∧
     n = Z.of_nat (length c') + (if has_newline inp then 1 else 0))
  ∧ (inp = bytes_of "foo" ++ 10 :: bytes_of "bar" →
     ∃ st1 b1 st2 b2,
       str_getline NDEBUG (Some a) inp st = Ret ((4, bytes_of "bar"), st1) ∧
       str_in st1 a b1 (bytes_of "foo") ∧
       str_getline NDEBUG (Some a) (bytes_of "bar") st1 = Ret ((3, []), st2) ∧
       str_in st2 a b2 (bytes_of "bar")).
Proof.
  intros H Hin Hsz.
  destruct (str_getline_spec NDEBUG st a b c inp H Hin Hsz) as (st' & E & b' & Hs & _).
  split.
  - exists st', b', (Z.of_nat (length (nonzero (line_of inp)))
                     + (if has_newline inp then 1 else 0)), (after_line inp),
      (nonzero (line_of inp)). done.
  - intros ->. exists st', b'.
    destruct (str_getline_spec NDEBUG st' a b' _ (bytes_of "bar") Hs) as (st2 & E2 & b2 & Hs2 & _).
    { repeat constructor; done. }
    { by vm_compute. }
    exists st2, b2. done.
Qed.

(** C9.  [str_cpy_s (a, a)] returns and leaves the whole state, and so
    the length, the bytes and the validity of [a], as they were. *)
Theorem C9_self_copy_unchanged NDEBUG st a b c :
  str_in st a b c →
  str_cpy_s NDEBUG (Some a) (Some a) st = Ret (tt, st) ∧
  content st a = Some c ∧ str_ok (Some a) st = Ret (true, st).
Proof.
  intros H. split; [by eapply str_cpy_s_self|].
  split; [by eapply content_str_in|by eapply str_ok_valid].
Qed.

(** C10.  [str_del] releases the block and sets every field of the struct
    to zero; a second [str_del] on the same struct returns and changes
    nothing: no block is released. *)
Theorem C10_destroy_twice st a b c :
  str_in st a b c →
  ∃ st1,
    str_del (Some a) st = Ret (tt, st1) ∧
    vars st1 !! a = Some (mk_str 0 0 NULL) ∧
    heap st1 !! b = Some Freed ∧
    (∀ b', b' ≠ b → heap st1 !! b' = heap st !! b') ∧
    str_del (Some a) st1 = Ret (tt, st1).
Proof.
  intros H. eexists. split; [by eapply str_del_spec|].
  cbn [vars heap]. split; [apply lookup_insert_eq|].
  split; [apply lookup_insert_eq|]. split.
  - intros b' Hne. by rewrite lookup_insert_ne.
  - apply str_del_zeroed. cbn [vars]. apply lookup_insert_eq.
Qed.

(** C7, as amended.  With NULL as the remaining input [str_tok] returns
    NULL and leaves the state as it was: the token buffer keeps its
    content.  (With assertions compiled in, the delimiters must be a
    non-empty string.) *)
Theorem C7_exhausted_is_no_op NDEBUG st a b c delim ds :
  str_in st a b c → NDEBUG = true ∨ (cstr_in st delim ds ∧ ds ≠ []) →
  str_tok NDEBUG NULL (Some a) delim st = Ret (NULL, st) ∧ content st a = Some c.
Proof.
  intros H Hd. split; [|by eapply content_str_in].
  eapply str_tok_null. destruct Hd as [->|[Hd Hds]]; [by left|right; eauto].
Qed.

(** C7, as stated, fails: after a call that produced the token "a", a
    call with NULL returns NULL and the token buffer still holds "a"; it
    is not left empty.  This is so with and without assertions. *)
Lemma C7_counterexample :
  result (tok_after_exhausted false empty_state) = Ret (NULL, Some (bytes_of "a")) ∧
  result (tok_after_exhausted true empty_state) = Ret (NULL, Some (bytes_of "a")) ∧
  result (tok_after_exhausted false empty_state) ≠ Ret (NULL, Some []) ∧
  result (tok_after_exhausted true empty_state) ≠ Ret (NULL, Some []).
Proof. repeat split; by vm_compute. Qed.

(** C8.  The tag "-c" is none of the six tags, yet it is not rejected as
    an invalid tag: [strstr] finds it inside "-concurrency -games
    -openings" and a value is expected.  With assertions compiled out the
    parser returns options whose opening book is "x"; with assertions the
    process aborts on [assert(!strcmp(argv[i - 1], "-openings"))]. *)
Theorem C8_prefix_tag_accepted :
  result (options_main true ["c-chess-cli"; "-c"; "x"]%string empty_state)
  = Ret (mk_Options false 1 1 (mk_str 1 16 (Ptr 3%nat 0)) false false, Some (bytes_of "x"))
  ∧ result (options_main false ["c-chess-cli"; "-c"; "x"]%string empty_state) = Abort
  ∧ result (options_main false ["c-chess-cli"; "-x"]%string empty_state)
    = Exit "invalid tag '%s'\n" [bytes_of "-x"].
Proof. repeat split; by vm_compute. Qed.

(** ** Tokens: the shape of the input *)

Lemma take_while_true f l : Forall (λ x, f x = true) (take_while f l).
Proof.
  induction l as [|x l IH]; [constructor|]. simpl.
  destruct (f x) eqn:E; [by constructor|constructor].
Qed.

Lemma drop_while_head f l :
  match drop_while f l with [] => True | x :: _ => f x = false end.
Proof. induction l as [|x l IH]; [done|]. simpl. by destruct (f x) eqn:E. Qed.

Lemma take_while_nil f l : take_while f l = [] → drop_while f l = l.
Proof. intros E. pose proof (take_drop_while f l) as H. by rewrite E in H. Qed.

Lemma token_split ds inp :
  ∃ lead,
    inp = lead ++ token_of ds inp ++ after_token ds inp ∧
    lead = take_while (is_delim ds) inp ∧
    Forall (λ x, x ∈ ds) lead ∧
    Forall (λ x, x ∉ ds) (token_of ds inp) ∧
    match after_token ds inp with [] => True | d :: _ => d ∈ ds end ∧
    (token_of ds inp = [] → after_token ds inp = []) ∧
    (length inp - length (after_token ds inp) = length lead + length (token_of ds inp))%nat.
Proof.
  exists (take_while (is_delim ds) inp). unfold token_of, after_token, skip_delims.
  set (skip := drop_while (is_delim ds) inp).
  assert (inp = take_while (is_delim ds) inp ++ take_while (non_delim ds) skip
                ++ drop_while (non_delim ds) skip) as Hsplit.
  { by rewrite take_drop_while, take_drop_while. }
  split; [done|]. split; [done|]. split; [|split; [|split; [|split]]].
  - eapply Forall_impl; [apply take_while_true|].
    intros x Hx. unfold is_delim in Hx. by apply bool_decide_eq_true in Hx.
  - eapply Forall_impl; [apply take_while_true|].
    intros x Hx. unfold non_delim, is_delim in Hx.
    apply negb_true_iff, bool_decide_eq_false in Hx. done.
  - pose proof (drop_while_head (non_delim ds) skip) as Hh.
    destruct (drop_while (non_delim ds) skip) as [|d l]; [done|].
    unfold non_delim, is_delim in Hh. apply negb_false_iff, bool_decide_eq_true in Hh. done.
  - intros E. rewrite (take_while_nil _ _ E).
    pose proof (drop_while_head (is_delim ds) inp) as Hh. fold skip in Hh.
    destruct skip as [|x l]; [done|]. simpl in E.
    unfold non_delim in E. rewrite Hh in E. done.
  - rewrite Hsplit at 1. rewrite !length_app. lia.
Qed.

(** One call of [str_tok], in the form in which calls are chained: the
    pointer it computes reads the rest of the input, and the input and
    the delimiters stay outside the token buffer's block. *)
Lemma str_tok_step NDEBUG st a b c bs o inp delim ds :
  str_in st a b c → src_in st b (Ptr bs o) inp → src_in st b delim ds → ds ≠ [] →
  Z.of_nat (length inp) + 1 ≤ 2 ^ 63 →
  let r := Ptr bs (o + Z.of_nat (length inp - length (after_token ds inp))) in
  ∃ st' b',
    str_tok NDEBUG (Ptr bs o) (Some a) delim st
    = Ret (if decide (token_of ds inp = []) then NULL else r, st')
    ∧ str_in st' a b' (token_of ds inp)
    ∧ src_in st' b' r (after_token ds inp)
    ∧ src_in st' b' delim ds.
Proof.
  intros H Hs Hd Hds Hsz r.
  destruct (str_tok_spec NDEBUG st a b c bs o inp delim ds H Hs Hd Hds Hsz)
    as (st' & E & (b' & Hs' & Hf & Hb) & [Hr _] & _).
  exists st', b'. split; [done|]. split; [done|]. split.
  - split; [done|].
    pose proof (src_in_frame _ _ _ _ _ _ _ Hf Hb Hs) as [_ Hsep]. done.
  - by eapply src_in_frame.
Qed.

(** C6.  [str_tok] on an input that is not exhausted: the input is a
    run of delimiters, then the token, then the rest; the run of
    delimiters and the token are maximal (the rest is empty or starts
    with a delimiter, and is empty when the token is).  The call leaves
    the token in the buffer and returns NULL when the token is empty,
    and otherwise the pointer just after the token, from where the rest
    is read, its first delimiter included.  In particular "  a  b " with
    the delimiter " " yields "a", then "b", then NULL. *)
Theorem C6_next_token NDEBUG st a b c bs o inp delim ds :
  str_in st a b c → src_in st b (Ptr bs o) inp → src_in st b delim ds → ds ≠ [] →
  Z.of_nat (length inp) + 1 ≤ 2 ^ 63 →
  (∃ lead st' b',
     inp = lead ++ token_of ds inp ++ after_token ds inp ∧
     Forall (λ x, x ∈ ds) lead ∧
     Forall (λ x, x ∉ ds) (token_of ds inp) ∧
     match after_token ds inp with [] => True | d :: _ => d ∈ ds end ∧
     (token_of ds inp = [] → after_token ds inp = []) ∧
     str_tok NDEBUG (Ptr bs o) (Some a) delim st
     = Ret (if decide (token_of ds inp = []) then NULL
            else Ptr bs (o + Z.of_nat (length lead + length (token_of ds inp))), st') ∧
     str_in st' a b' (token_of ds inp) ∧
     cstr_in st' (Ptr bs (o + Z.of_nat (length lead + length (token_of ds inp))))
       (after_token ds inp))
  ∧ (inp = bytes_of "  a  b " → ds = bytes_of " " →
     ∃ r1 st1 b1 r2 st2 b2 st3 b3,
       str_tok NDEBUG (Ptr bs o) (Some a) delim st = Ret (r1, st1) ∧
       r1 ≠ NULL ∧ str_in st1 a b1 (bytes_of "a") ∧
       str_tok NDEBUG r1 (Some a) delim st1 = Ret (r2, st2) ∧
       r2 ≠ NULL ∧ str_in st2 a b2 (bytes_of "b") ∧
       str_tok NDEBUG r2 (Some a) delim st2 = Ret (NULL, st3) ∧
       str_in st3 a b3 []).
Proof.
  intros H Hs Hd Hds Hsz.
  destruct (str_tok_step NDEBUG st a b c bs o inp delim ds H Hs Hd Hds Hsz)
    as (st1 & b1 & E1 & H1 & Hs1 & Hd1).
  split.
  - destruct (token_split ds inp) as (lead & Hsplit & _ & Hl & Ht & Ha & He & Hlen).
    exists lead, st1, b1. rewrite <- Hlen.
    repeat (split; [done|]). by destruct Hs1.
  - intros -> ->.
    change (token_of (bytes_of " ") (bytes_of "  a  b ")) with (bytes_of "a") in *.
    change (after_token (bytes_of " ") (bytes_of "  a  b ")) with (bytes_of "  b ") in *.
    change (Z.of_nat (length (bytes_of "  a  b ") - length (bytes_of "  b "))) with 3 in *.
    destruct (str_tok_step NDEBUG st1 a b1 _ bs (o + 3) (bytes_of "  b ") delim (bytes_of " ")
                H1 Hs1 Hd1) as (st2 & b2 & E2 & H2 & Hs2 & Hd2); [done|by vm_compute|].
    change (token_of (bytes_of " ") (bytes_of "  b ")) with (bytes_of "b") in *.
    change (after_token (bytes_of " ") (bytes_of "  b ")) with (bytes_of " ") in *.
    change (Z.of_nat (length (bytes_of "  b ") - length (bytes_of " "))) with 3 in *.
    destruct (str_tok_step NDEBUG st2 a b2 _ bs (o + 3 + 3) (bytes_of " ") delim (bytes_of " ")
                H2 Hs2 Hd2) as (st3 & b3 & E3 & H3 & _); [done|by vm_compute|].
    change (token_of (bytes_of " ") (bytes_of " ")) with (@nil Z) in *.
    exists (Ptr bs (o + 3)), st1, b1, (Ptr bs (o + 3 + 3)), st2, b2, st3, b3.
    done.
Qed.

(** * The claims at concrete inputs *)

(** Facts about a concrete state are settled by evaluation. *)
Ltac by_eval := vm_compute; first [reflexivity | discriminate | lia | done].

Ltac bytes_ok := repeat constructor; unfold byte_ok; lia.

(** [str_in st a b c] for a concrete state: the rest of the block is
    read off the heap. *)
Ltac solve_str_in :=
  lazymatch goal with
  | |- str_in ?st ?a ?b ?c =>
      let rest := eval vm_compute in
        (match heap st !! b with
         | Some (Live cs) => drop (S (length c)) cs
         | _ => []
         end) in
      exists rest; split;
      [ eexists _, _; split; [by_eval|]; repeat split; by_eval
      | bytes_ok ]
  end.

Ltac solve_cstr_in :=
  lazymatch goal with
  | |- cstr_in ?st ?p ?bs =>
      let rest := eval vm_compute in
        (match cells_from st p with
         | Some cs => drop (S (length bs)) cs
         | None => []
         end) in
      exists rest; split; [by_eval | bytes_ok]
  end.

Ltac solve_src_in := split; [solve_cstr_in | by_eval].

Lemma example_ab : str_in example_state 0%nat 1%nat (bytes_of "ab").
Proof. solve_str_in. Defined.

Lemma example_ef : str_in example_state 1%nat 4%nat (bytes_of "ef").
Proof. solve_str_in. Defined.

Lemma example_cd : src_in example_state 1%nat (Ptr 2%nat 0) (bytes_of "cd").
Proof. solve_src_in. Defined.

Lemma example_creation_ok : creation_ok example_state (Some (Ptr 2%nat 0)).
Proof. exists (bytes_of "cd"). split; [solve_cstr_in|by_eval]. Defined.

(** One step of [ops_ok] at a concrete state: the block and the content
    of the buffer are read off the state, and the state after the
    operation is computed. *)
Ltac next_op :=
  lazymatch goal with
  | |- ops_ok _ ?a ?st _ =>
      let b0 := eval vm_compute in
        (match vars st !! a with
         | Some v => match buf v with Ptr b _ => b | NULL => 0%nat end
         | None => 0%nat
         end) in
      let c0 := eval vm_compute in (default [] (content st a)) in
      let b := fresh "b" in
      let c := fresh "c" in
      let H := fresh "H" in
      let H0 := fresh "H" in
      apply ops_ok_cons;
      [ intros b c H;
        assert (str_in st a b0 c0) as H0 by solve_str_in;
        destruct (str_in_unique _ _ _ _ _ _ H H0) as [-> ->]; clear H H0;
        eexists; split
      | ]
  end.

Ltac step_op :=
  let st' := fresh "st" in
  let E := fresh "E" in
  intros st' E; vm_compute in E; injection E as <-.

Ltac solve_str_src_in a2 b2 :=
  exists a2, b2; split; [reflexivity|]; split; [by_eval|]; split; [by_eval|solve_str_in].

Lemma example_ops_ok : ops_ok false 2%nat example_created example_ops.
Proof.
  unfold example_ops.
  next_op.
  { apply (eff_cat _ _ _ _ [Ptr 0%nat 0] [bytes_of "ab"]).
    constructor; [solve_src_in|constructor]. }
  { by_eval. }
  step_op.
  next_op.
  { apply (eff_cat_s _ _ _ _ [Some 0%nat; Some 1%nat] [bytes_of "ab"; bytes_of "ef"]).
    constructor; [solve_str_src_in 0%nat 1%nat|].
    constructor; [solve_str_src_in 1%nat 4%nat|constructor]. }
  { by_eval. }
  step_op.
  next_op.
  { apply (eff_fmt _ _ _ _ (Ptr 5%nat 0) (bytes_of "%i apples, %u oranges")
             [VInt (-5); VInt 3] [render_int (-5); render_int 3]
             (bytes_of "-5 apples, 3 oranges")).
    - solve_src_in.
    - by_eval.
    - change (specs_of (bytes_of "%i apples, %u oranges")) with [105; 117].
      constructor; [apply arg_text_i; [reflexivity|by_eval]|].
      constructor; [apply arg_text_u; [reflexivity|by_eval]|constructor].
    - by_eval. }
  { by_eval. }
  step_op.
  next_op.
  { apply eff_cpy_self. }
  { by_eval. }
  step_op.
  next_op.
  { apply (eff_putc _ _ _ _ [33]). repeat constructor; by_eval. }
  { by_eval. }
  step_op.
  next_op.
  { apply (eff_ncpy _ _ _ _ (Ptr 0%nat 0) (bytes_of "ab") 1); [solve_src_in|by_eval]. }
  { by_eval. }
  step_op.
  next_op.
  { apply (eff_ncat _ _ _ _ (Ptr 3%nat 0) (bytes_of "ef") 1); [solve_src_in|by_eval]. }
  { by_eval. }
  step_op.
  next_op.
  { apply (eff_cpy_s _ _ _ _ (Some 1%nat) (bytes_of "ef")). solve_str_src_in 1%nat 4%nat. }
  { by_eval. }
  step_op.
  next_op.
  { apply (eff_cpy _ _ _ _ (Ptr 2%nat 0) (bytes_of "cd")). solve_src_in. }
  { by_eval. }
  step_op.
  apply ops_ok_nil.
Defined.


Lemma example_fmt :
  src_in example_state 1%nat (Ptr 5%nat 0) (bytes_of "%i apples, %u oranges").
Proof. solve_src_in. Defined.

Lemma example_fmt_I : src_in example_state 1%nat (Ptr 8%nat 0) [37; 73].
Proof. solve_src_in. Defined.

Lemma example_input : src_in example_state 1%nat (Ptr 6%nat 0) (bytes_of "  a  b ").
Proof. solve_src_in. Defined.

Lemma example_delim : src_in example_state 1%nat (Ptr 7%nat 0) (bytes_of " ").
Proof. solve_src_in. Defined.

(** C1 at a concrete input: the buffer created from "cd" in
    [example_state], and the nine operations of [example_ops]. *)
Lemma C1_witness :
  creation_ok example_state (Some (Ptr 2%nat 0)) ∧
  ops_ok false 2%nat example_created example_ops ∧
  ∃ st', run_ops false (Some 2%nat) example_ops example_created = Ret (tt, st')
         ∧ str_invariants st' 2%nat
         ∧ str_ok (Some 2%nat) st' = Ret (true, st').
Proof.
  split; [exact example_creation_ok|]. split; [exact example_ops_ok|].
  destruct (C1_invariants_preserved false example_state (Some (Ptr 2%nat 0))
              example_creation_ok) as (a & st & E & H).
  vm_compute in E. injection E as <- <-.
  exact (H example_ops example_ops_ok 9%nat).
Defined.

(** C2 at [n = 17]. *)
Lemma C2_witness :
  0 ≤ 17 ≤ 2 ^ 63 ∧
  ∃ p, str_round_up 17 = Some p ∧ is_pow2 p ∧ 2 * sizeof_size_t ≤ p ∧ 17 ≤ p ∧
       (∀ q, is_pow2 q → 2 * sizeof_size_t ≤ q → 17 ≤ q → p ≤ q) ∧
       (∀ m p', 17 ≤ m → str_round_up m = Some p' → p ≤ p') ∧
       (∀ fuel, (64 ≤ fuel)%nat → round_up_loop fuel (2 * sizeof_size_t) 17 = Some p).
Proof.
  assert (0 ≤ 17 ≤ 2 ^ 63) as H by lia.
  split; [exact H|]. exact (C2_round_up_smallest_power 17 H).
Defined.

(** C3 at a concrete input: "ab", then the literal "cd" and the buffer
    holding "ef". *)
Lemma C3_witness :
  ∃ st', append false (Some 0%nat) [Raws [Ptr 2%nat 0]; Bufs [Some 1%nat]] example_state
         = Ret (tt, st')
         ∧ content st' 0%nat = Some (bytes_of "abcdef").
Proof.
  refine (proj2 (C3_append_concatenates false example_state 0%nat 1%nat (bytes_of "ab")
                   [Raws [Ptr 2%nat 0]; Bufs [Some 1%nat]]
                   [[bytes_of "cd"]; [bytes_of "ef"]] example_ab _ _) eq_refl eq_refl).
  - constructor; [|constructor; [|constructor]].
    + apply frags_raw. constructor; [exact example_cd|constructor].
    + apply frags_buf. constructor; [|constructor].
      exists 1%nat, 4%nat. split; [reflexivity|]. split; [by_eval|]. split; [by_eval|].
      exact example_ef.
  - by_eval.
Defined.

(** C4 at a concrete input: "%I" with -7, and the template of the
    example, appended to "ab". *)
Lemma C4_witness :
  (∃ st' b' ds,
     str_cat_fmt false (Some 0%nat) (Ptr 8%nat 0) [VIMax (-7)] example_state = Ret (tt, st') ∧
     is_decimal ds (Z.abs (-7)) ∧
     str_in st' 0%nat b' (bytes_of "ab" ++ (if -7 <? 0 then [45] else []) ++ ds))
  ∧ (∃ st' b',
       str_cat_fmt false (Some 0%nat) (Ptr 5%nat 0) [VInt (-5); VInt 3] example_state
       = Ret (tt, st') ∧
       str_in st' 0%nat b' (bytes_of "ab" ++ bytes_of "-5 apples, 3 oranges")).
Proof.
  assert (Z.of_nat (length (bytes_of "ab")) + 22 ≤ 2 ^ 63) as Hsz by by_eval.
  split.
  - refine (proj1 (C4_format_integers false example_state 0%nat 1%nat (bytes_of "ab")
                     (Ptr 8%nat 0) example_ab Hsz) 73 (VIMax (-7)) (-7) _ example_fmt_I).
    apply int_arg_I; [reflexivity|by_eval].
  - exact (proj2 (C4_format_integers false example_state 0%nat 1%nat (bytes_of "ab")
                    (Ptr 5%nat 0) example_ab Hsz) example_fmt).
Defined.

(** C5 at a concrete input: the stream "foo", newline, "bar". *)
Lemma C5_witness :
  ∃ st1 b1 st2 b2,
    str_getline false (Some 0%nat) (bytes_of "foo" ++ 10 :: bytes_of "bar") example_state
    = Ret ((4, bytes_of "bar"), st1) ∧
    str_in st1 0%nat b1 (bytes_of "foo") ∧
    str_getline false (Some 0%nat) (bytes_of "bar") st1 = Ret ((3, []), st2) ∧
    str_in st2 0%nat b2 (bytes_of "bar").
Proof.
  refine (proj2 (C5_getline_count false example_state 0%nat 1%nat (bytes_of "ab")
                   (bytes_of "foo" ++ 10 :: bytes_of "bar") example_ab _ _) eq_refl).
  - repeat constructor; by_eval.
  - by_eval.
Defined.

(** C6 at a concrete input: "  a  b " and the delimiter " ". *)
Lemma C6_witness :
  ∃ r1 st1 b1 r2 st2 b2 st3 b3,
    str_tok false (Ptr 6%nat 0) (Some 0%nat) (Ptr 7%nat 0) example_state = Ret (r1, st1) ∧
    r1 ≠ NULL ∧ str_in st1 0%nat b1 (bytes_of "a") ∧
    str_tok false r1 (Some 0%nat) (Ptr 7%nat 0) st1 = Ret (r2, st2) ∧
    r2 ≠ NULL ∧ str_in st2 0%nat b2 (bytes_of "b") ∧
    str_tok false r2 (Some 0%nat) (Ptr 7%nat 0) st2 = Ret (NULL, st3) ∧
    str_in st3 0%nat b3 [].
Proof.
  refine (proj2 (C6_next_token false example_state 0%nat 1%nat (bytes_of "ab") 6%nat 0
                   (bytes_of "  a  b ") (Ptr 7%nat 0) (bytes_of " ")
                   example_ab example_input example_delim _ _) eq_refl eq_refl).
  - discriminate.
  - by_eval.
Defined.

(** C7 (amended) at a concrete input: the buffer holding "ab", with
    assertions compiled in. *)
Lemma C7_witness :
  str_tok false NULL (Some 0%nat) (Ptr 7%nat 0) example_state = Ret (NULL, example_state)
  ∧ content example_state 0%nat = Some (bytes_of "ab").
Proof.
  refine (C7_exhausted_is_no_op false example_state 0%nat 1%nat (bytes_of "ab")
            (Ptr 7%nat 0) (bytes_of " ") example_ab _).
  right. split; [exact (proj1 example_delim)|discriminate].
Defined.

(** C9 at a concrete input: the buffer holding "ab". *)
Lemma C9_witness :
  str_in example_state 0%nat 1%nat (bytes_of "ab") ∧
  str_cpy_s false (Some 0%nat) (Some 0%nat) example_state = Ret (tt, example_state) ∧
  content example_state 0%nat = Some (bytes_of "ab") ∧
  str_ok (Some 0%nat) example_state = Ret (true, example_state).
Proof.
  split; [exact example_ab|].
  exact (C9_self_copy_unchanged false example_state 0%nat 1%nat (bytes_of "ab") example_ab).
Defined.

(** C10 at a concrete input: the buffer holding "ab". *)
Lemma C10_witness :
  str_in example_state 0%nat 1%nat (bytes_of "ab") ∧
  ∃ st1,
    str_del (Some 0%nat) example_state = Ret (tt, st1) ∧
    vars st1 !! 0%nat = Some (mk_str 0 0 NULL) ∧
    heap st1 !! 1%nat = Some Freed ∧
    (∀ b', b' ≠ 1%nat → heap st1 !! b' = heap example_state !! b') ∧
    str_del (Some 0%nat) st1 = Ret (tt, st1).
Proof.
  split; [exact example_ab|].
  exact (C10_destroy_twice example_state 0%nat 1%nat (bytes_of "ab") example_ab).
Defined.

(** * Further properties of str.c and options.c *)

(** ** The capacity function *)

(** X1.  [str_round_up] wastes less than half: above 16 its result is
    less than twice its argument (up to 16 it is 16), and a result is a
    fixed point, so a capacity is never rounded further. *)
Theorem X1_round_up_less_than_double n :
  0 ≤ n ≤ 2 ^ 63 →
  ∃ p, str_round_up n = Some p ∧
       (n ≤ 2 * sizeof_size_t → p = 2 * sizeof_size_t) ∧
       (2 * sizeof_size_t < n → p < 2 * n) ∧
       str_round_up p = Some p.
Proof.
  intros [_ Hn].
  destruct (str_round_up_spec n Hn) as (p & E & (k & Hk & ->) & H16 & Hnp & Hp63 & Hmin).
  exists (2 ^ k). split; [done|].
  change (2 * sizeof_size_t) with 16 in *.
  assert (4 ≤ k) as Hk4.
  { apply (Z.pow_le_mono_r_iff 2); [lia|lia|]. change (2 ^ 4) with 16. lia. }
  split; [|split].
  - intros Hle. apply Z.le_antisymm; [|done].
    apply Hmin; [exists 4; split; [lia|done]|done|done].
  - intros Hlt. destruct (decide (k = 4)) as [->|Hne].
    { change (2 ^ 4) with 16. lia. }
    destruct (Z.lt_ge_cases (2 ^ (k - 1)) n) as [Hhalf|Hhalf].
    + replace k with (k - 1 + 1) by lia. rewrite <- pow2_double by lia. lia.
    + assert (2 ^ k ≤ 2 ^ (k - 1)) as Hbad.
      { apply Hmin; [exists (k - 1); split; [lia|done]| |done].
        change 16 with (2 ^ 4). apply Z.pow_le_mono_r; lia. }
      apply Z.pow_le_mono_r_iff in Hbad; lia.
  - destruct (str_round_up_spec (2 ^ k) Hp63) as (q & Eq & Hq2 & Hq16 & Hpq & _ & Hqmin).
    rewrite Eq. f_equal. apply Z.le_antisymm; [|done].
    apply Hqmin; [exists k; split; [lia|done]|done|lia].
Qed.

(** X2.  The loop of [str_round_up] terminates exactly for the arguments
    up to 2^63: for a larger size_t value no amount of fuel gives a
    result. *)
Theorem X2_round_up_terminates_iff n :
  0 ≤ n < 2 ^ 64 →
  (∃ fuel p, round_up_loop fuel (2 * sizeof_size_t) n = Some p) ↔ n ≤ 2 ^ 63.
Proof.
  intros Hn. split.
  - intros (fuel & p & E). destruct (Z.le_gt_cases n (2 ^ 63)) as [|Hgt]; [done|].
    rewrite round_up_loop_wrapped in E; [done| |lia].
    right. exists 4. split; [lia|done].
  - intros Hle. destruct (str_round_up_spec n Hle) as (p & E & _).
    by exists 64%nat, p.
Qed.

Lemma X1_witness :
  0 ≤ 100 ≤ 2 ^ 63 ∧
  ∃ p, str_round_up 100 = Some p ∧
       (100 ≤ 2 * sizeof_size_t → p = 2 * sizeof_size_t) ∧
       (2 * sizeof_size_t < 100 → p < 2 * 100) ∧
       str_round_up p = Some p.
Proof.
  assert (0 ≤ 100 ≤ 2 ^ 63) as H by lia.
  split; [exact H|]. exact (X1_round_up_less_than_double 100 H).
Defined.

Lemma X2_witness :
  0 ≤ 2 ^ 63 + 1 < 2 ^ 64 ∧
  ((∃ fuel p, round_up_loop fuel (2 * sizeof_size_t) (2 ^ 63 + 1) = Some p)
   ↔ 2 ^ 63 + 1 ≤ 2 ^ 63).
Proof.
  assert (0 ≤ 2 ^ 63 + 1 < 2 ^ 64) as H by lia.
  split; [exact H|]. exact (X2_round_up_terminates_iff (2 ^ 63 + 1) H).
Defined.

(** ** Copies *)

Lemma frame_others_kept a b st st' : frame a b st st' → others_kept a b st st'.
Proof.
  intros Hf. split.
  - intros a2 b2 c2 Ha Hb H2. by eapply str_in_frame.
  - intros p bs Hp Hc. by eapply cstr_in_frame.
Qed.

Lemma updated_effect a b c st st' :
  updated a b c st st' →
  content st' a = Some c ∧ str_ok (Some a) st' = Ret (true, st') ∧ others_kept a b st st'.
Proof.
  intros Hu. pose proof Hu as (b' & Hs & Hf & _).
  split; [by eapply content_str_in|]. split; [by eapply updated_str_ok|].
  by apply frame_others_kept.
Qed.

(** X3.  [str_dup] returns a buffer with the bytes of the source in a
    block that did not exist before: the copy has storage of its own, and
    the source and every existing block are as they were. *)
Theorem X3_str_dup_fresh_copy NDEBUG st p bs :
  cstr_in st p bs → Z.of_nat (length bs) + 1 ≤ 2 ^ 63 →
  ∃ v b st',
    str_dup NDEBUG p st = Ret (v, st') ∧
    buf v = Ptr b 0 ∧ len v = Z.of_nat (length bs) ∧
    heap st !! b = None ∧ ptr_block p ≠ Some b ∧
    cstr_at st' (buf v) = Some bs ∧
    cstr_in st' p bs ∧
    vars st' = vars st ∧
    (∀ b' x, heap st !! b' = Some x → heap st' !! b' = Some x).
Proof.
  intros Hp Hsz.
  destruct (str_dup_spec NDEBUG st p bs Hp Hsz) as (v & b & st' & E & Hb & Hv & Hh & Hval).
  exists v, b, st'. split; [done|].
  destruct Hval as (rest & r & Hbuf & Hlen & Hcells & _ & _ & _ & Hbs).
  split; [done|]. split; [done|]. split; [done|].
  assert (ptr_block p ≠ Some b) as Hpb.
  { destruct Hp as (prest & Ep & _).
    destruct (cells_from_inv _ _ _ Ep) as (bp & o & all & -> & Hall & _).
    simpl. intros [= ->]. congruence. }
  split; [done|]. split.
  - rewrite Hbuf. apply cstr_at_cstr. exists rest. split; [|done].
    rewrite (cells_from_live _ _ _ 0 Hcells) by lia. done.
  - split; [|done].
    eapply (cstr_in_frame 0%nat b); [|done|done].
    split; [intros a' _; by rewrite Hv|]. intros b' x _ Hx. by apply Hh.
Qed.

Lemma example_ab_src : src_in example_state 1%nat (Ptr 0%nat 0) (bytes_of "ab").
Proof. solve_src_in. Defined.

Lemma example_ef_src : src_in example_state 1%nat (Ptr 3%nat 0) (bytes_of "ef").
Proof. solve_src_in. Defined.

Lemma X3_witness :
  ∃ v b st',
    str_dup false (Ptr 2%nat 0) example_state = Ret (v, st') ∧
    buf v = Ptr b 0 ∧ len v = Z.of_nat (length (bytes_of "cd")) ∧
    heap example_state !! b = None ∧ ptr_block (Ptr 2%nat 0) ≠ Some b ∧
    cstr_at st' (buf v) = Some (bytes_of "cd") ∧
    cstr_in st' (Ptr 2%nat 0) (bytes_of "cd") ∧
    vars st' = vars example_state ∧
    (∀ b' x, heap example_state !! b' = Some x → heap st' !! b' = Some x).
Proof.
  refine (X3_str_dup_fresh_copy false example_state (Ptr 2%nat 0) (bytes_of "cd")
            (proj1 example_cd) _).
  by_eval.
Defined.

(** X4.  [str_ncpy (dest, src, n)] leaves in [dest] the first [n] bytes
    of [src], and the whole of [src] when it has no more than [n] bytes;
    whatever [dest] held before is gone.  The result is a valid buffer
    and nothing else changes. *)
Theorem X4_str_ncpy_bounded NDEBUG st a b c p bs n :
  str_in st a b c → src_in st b p bs → 0 ≤ n →
  Z.of_nat (length bs) + 1 ≤ 2 ^ 63 →
  ∃ st',
    str_ncpy NDEBUG (Some a) p n st = Ret (tt, st') ∧
    content st' a = Some (take (nat_of n) bs) ∧
    (Z.of_nat (length bs) ≤ n → content st' a = Some bs) ∧
    str_ok (Some a) st' = Ret (true, st') ∧
    others_kept a b st st'.
Proof.
  intros H Hp Hn Hsz.
  destruct (str_ncpy_spec NDEBUG st a b c p bs n H Hp Hn) as (st' & E & Hu).
  { pose proof (length_take_le bs (nat_of n)). rewrite length_take. lia. }
  destruct (updated_effect _ _ _ _ _ Hu) as (Hc & Hok & Hk).
  exists st'. split; [done|]. split; [done|]. split; [|done].
  intros Hle. rewrite Hc. f_equal. apply take_ge. unfold nat_of. lia.
Qed.

Lemma X4_witness :
  ∃ st',
    str_ncpy false (Some 0%nat) (Ptr 3%nat 0) 1 example_state = Ret (tt, st') ∧
    content st' 0%nat = Some (take (nat_of 1) (bytes_of "ef")) ∧
    (Z.of_nat (length (bytes_of "ef")) ≤ 1 → content st' 0%nat = Some (bytes_of "ef")) ∧
    str_ok (Some 0%nat) st' = Ret (true, st') ∧
    others_kept 0%nat 1%nat example_state st'.
Proof.
  refine (X4_str_ncpy_bounded false example_state 0%nat 1%nat (bytes_of "ab")
            (Ptr 3%nat 0) (bytes_of "ef") 1 example_ab example_ef_src _ _); by_eval.
Defined.

(** X5.  [str_ncat (dest, src, n)] appends the first [n] bytes of [src],
    and the whole of [src] when it has no more than [n] bytes.  The result
    is a valid buffer and nothing else changes. *)
Theorem X5_str_ncat_bounded NDEBUG st a b c p bs n :
  str_in st a b c → src_in st b p bs → 0 ≤ n →
  Z.of_nat (length c + length bs) + 1 ≤ 2 ^ 63 →
  ∃ st',
    str_ncat NDEBUG (Some a) p n st = Ret (tt, st') ∧
    content st' a = Some (c ++ take (nat_of n) bs) ∧
    (Z.of_nat (length bs) ≤ n → content st' a = Some (c ++ bs)) ∧
    str_ok (Some a) st' = Ret (true, st') ∧
    others_kept a b st st'.
Proof.
  intros H Hp Hn Hsz.
  destruct (str_ncat_spec NDEBUG st a b c p bs n H Hp Hn) as (st' & E & Hu).
  { rewrite length_take. lia. }
  destruct (updated_effect _ _ _ _ _ Hu) as (Hc & Hok & Hk).
  exists st'. split; [done|]. split; [done|]. split; [|done].
  intros Hle. rewrite Hc. do 2 f_equal. apply take_ge. unfold nat_of. lia.
Qed.

Lemma X5_witness :
  ∃ st',
    str_ncat false (Some 0%nat) (Ptr 3%nat 0) 5 example_state = Ret (tt, st') ∧
    content st' 0%nat = Some (bytes_of "ab" ++ take (nat_of 5) (bytes_of "ef")) ∧
    (Z.of_nat (length (bytes_of "ef")) ≤ 5 →
     content st' 0%nat = Some (bytes_of "ab" ++ bytes_of "ef")) ∧
    str_ok (Some 0%nat) st' = Ret (true, st') ∧
    others_kept 0%nat 1%nat example_state st'.
Proof.
  refine (X5_str_ncat_bounded false example_state 0%nat 1%nat (bytes_of "ab")
            (Ptr 3%nat 0) (bytes_of "ef") 5 example_ab example_ef_src _ _); by_eval.
Defined.

(** X6.  [str_cpy_s] copies by value.  Afterwards the two buffers hold
    the same bytes in different blocks, and whatever is then done to the
    destination (any of the mutating operations, with well-formed
    arguments) leaves the source with its content. *)
Theorem X6_str_cpy_s_by_value NDEBUG st a b c a2 b2 bs :
  str_in st a b c → str_in st a2 b2 bs → a2 ≠ a → b2 ≠ b →
  Z.of_nat (length bs) + 1 ≤ 2 ^ 63 →
  ∃ st' b',
    str_cpy_s NDEBUG (Some a) (Some a2) st = Ret (tt, st') ∧
    str_in st' a b' bs ∧ str_in st' a2 b2 bs ∧ b' ≠ b2 ∧
    ∀ o c', op_effect st' a b' bs o c' → Z.of_nat (length c') + 1 ≤ 2 ^ 63 →
      ∃ st'', run_op NDEBUG (Some a) o st' = Ret (tt, st'') ∧
              content st'' a = Some c' ∧ content st'' a2 = Some bs.
Proof.
  intros H H2 Ha Hb Hsz.
  destruct (str_cpy_s_spec NDEBUG st a b c (Some a2) bs H) as (st' & E & Hu); [|done|].
  { by exists a2, b2. }
  pose proof Hu as (b' & Hs & Hf & Hb').
  assert (str_in st' a2 b2 bs) as H2' by (by eapply str_in_frame).
  assert (b' ≠ b2) as Hne.
  { destruct (str_in_block_live _ _ _ _ H2) as (x & Hx).
    intros ->. destruct Hb' as [->|Hnone]; [done|congruence]. }
  exists st', b'. split; [done|]. split; [done|]. split; [done|]. split; [done|].
  intros o c' Heff Hsz'.
  destruct (run_op_spec NDEBUG st' a b' bs o c' Hs Heff Hsz') as (st'' & E' & Hu').
  destruct (updated_effect _ _ _ _ _ Hu') as (Hc & _ & Hk & _).
  exists st''. split; [done|]. split; [done|].
  eapply content_str_in. apply Hk; [done| |done]. done.
Qed.

Lemma X6_witness :
  ∃ st' b',
    str_cpy_s false (Some 0%nat) (Some 1%nat) example_state = Ret (tt, st') ∧
    str_in st' 0%nat b' (bytes_of "ef") ∧ str_in st' 1%nat 4%nat (bytes_of "ef") ∧
    b' ≠ 4%nat ∧
    ∀ o c', op_effect st' 0%nat b' (bytes_of "ef") o c' →
      Z.of_nat (length c') + 1 ≤ 2 ^ 63 →
      ∃ st'', run_op false (Some 0%nat) o st' = Ret (tt, st'') ∧
              content st'' 0%nat = Some c' ∧ content st'' 1%nat = Some (bytes_of "ef").
Proof.
  refine (X6_str_cpy_s_by_value false example_state 0%nat 1%nat (bytes_of "ab")
            1%nat 4%nat (bytes_of "ef") example_ab example_ef _ _ _); by_eval.
Defined.

(** X7.  Each of the eight mutating operations, called with well-formed
    arguments, returns, leaves the destination valid with the content
    the operation stands for, and touches nothing else: every other
    buffer keeps its block and its content, and every string outside the
    destination's block reads as before. *)
Theorem X7_operations_touch_only_dest NDEBUG st a b c o c' :
  str_in st a b c → op_effect st a b c o c' → Z.of_nat (length c') + 1 ≤ 2 ^ 63 →
  ∃ st',
    run_op NDEBUG (Some a) o st = Ret (tt, st') ∧
    content st' a = Some c' ∧
    str_ok (Some a) st' = Ret (true, st') ∧
    others_kept a b st st'.
Proof.
  intros H Heff Hsz.
  destruct (run_op_spec NDEBUG st a b c o c' H Heff Hsz) as (st' & E & Hu).
  exists st'. split; [done|]. by apply updated_effect.
Qed.

Lemma X7_witness :
  ∃ st',
    run_op false (Some 0%nat) (OpCopyFrom (Ptr 2%nat 0)) example_state = Ret (tt, st') ∧
    content st' 0%nat = Some (bytes_of "cd") ∧
    str_ok (Some 0%nat) st' = Ret (true, st') ∧
    others_kept 0%nat 1%nat example_state st'.
Proof.
  refine (X7_operations_touch_only_dest false example_state 0%nat 1%nat (bytes_of "ab")
            (OpCopyFrom (Ptr 2%nat 0)) (bytes_of "cd") example_ab _ _).
  - apply eff_cpy. exact example_cd.
  - by_eval.
Defined.

(** ** Comparison *)

Lemma compare_bytes_eq xs : ∀ ys,
  length xs = length ys → (compare_bytes xs ys =? 0) = bool_decide (xs = ys).
Proof.
  induction xs as [|x xs IH]; intros [|y ys] Hl; try done.
  simpl. destruct (Z.eqb_spec x y) as [->|Hne].
  - rewrite IH by (simpl in Hl; lia).
    apply bool_decide_ext. split; [by intros ->|by intros [= ->]].
  - rewrite bool_decide_eq_false_2 by (intros [= ? ?]; done).
    apply Z.eqb_neq. lia.
Qed.

Lemma read_bytes_str st a b c :
  str_in st a b c → read_bytes st (Ptr b 0) (Z.of_nat (length c)) = Some c.
Proof.
  intros H. destruct (str_in_struct _ _ _ _ H) as (v & rest & _ & _ & _ & _ & E & _).
  unfold read_bytes. rewrite E. cbn [mbind option_bind].
  rewrite length_app, length_fmap. cbn [length].
  destruct (Z.ltb_spec (Z.of_nat (length c + S (length rest))) (Z.of_nat (length c))); [lia|].
  rewrite nat_of_nat.
  rewrite take_app_length' by (by rewrite length_fmap).
  apply cell_values_bytes.
Qed.

(** X8.  On two valid buffers [str_eq] returns, changes nothing, and
    tells whether the two hold the same bytes.  The two may be one and
    the same buffer. *)
Theorem X8_str_eq_decides_equality NDEBUG st a1 b1 c1 a2 b2 c2 :
  str_in st a1 b1 c1 → str_in st a2 b2 c2 →
  str_eq NDEBUG (Some a1) (Some a2) st = Ret (bool_decide (c1 = c2), st).
Proof.
  intros H1 H2.
  pose proof (str_ok_valid _ _ _ _ H1) as Hok1.
  pose proof (str_ok_valid _ _ _ _ H2) as Hok2.
  destruct (str_in_struct _ _ _ _ H1) as (v1 & r1 & Hv1 & Hb1 & Hl1 & _).
  destruct (str_in_struct _ _ _ _ H2) as (v2 & r2 & Hv2 & Hb2 & Hl2 & _).
  unfold str_eq.
  erewrite bind_ret; last first.
  { apply assert_true. by rewrite (bind_ret _ _ _ _ _ Hok1). }
  rewrite (bind_ret _ _ _ _ _ (load_str_some _ _ _ Hv1)).
  rewrite (bind_ret _ _ _ _ _ (load_str_some _ _ _ Hv2)).
  rewrite Hl1, Hl2, Hb1, Hb2.
  destruct (Z.eqb_spec (Z.of_nat (length c1)) (Z.of_nat (length c2))) as [Heq|Hne].
  - unfold memcmp, bind.
    rewrite (read_bytes_str _ _ _ _ H1), Heq, (read_bytes_str _ _ _ _ H2).
    unfold ret. do 2 f_equal. apply compare_bytes_eq. lia.
  - unfold ret. do 2 f_equal. symmetry. apply bool_decide_eq_false_2.
    intros ->. done.
Qed.

Lemma X8_witness :
  str_eq false (Some 0%nat) (Some 1%nat) example_state
  = Ret (bool_decide (bytes_of "ab" = bytes_of "ef"), example_state).
Proof.
  exact (X8_str_eq_decides_equality false example_state 0%nat 1%nat (bytes_of "ab")
           1%nat 4%nat (bytes_of "ef") example_ab example_ef).
Defined.

(** ** A destroyed buffer *)

Lemma str_ok_zeroed st a :
  vars st !! a = Some (mk_str 0 0 NULL) → str_ok (Some a) st = Ret (false, st).
Proof.
  intros Hv. unfold str_ok.
  rewrite (bind_ret _ _ _ _ _ (load_str_some _ _ _ Hv)). reflexivity.
Qed.

Lemma assert_false (e : M bool) st : e st = Ret (false, st) → assert false e st = Abort.
Proof. intros E. unfold assert. by rewrite (bind_ret _ _ _ _ _ E). Qed.

Lemma assert_abort {A} (e : M bool) (k : M A) st :
  e st = Ret (false, st) → (assert false e ;;; k) st = Abort.
Proof. intros E. unfold bind at 1. by rewrite (assert_false _ _ E). Qed.

(** X9.  After [str_del] the struct no longer passes [str_ok], and with
    assertions compiled in every operation of the module that is given
    the destroyed buffer aborts at its first assertion, before it reads
    or writes any memory. *)
Theorem X9_use_after_del_aborts st a b c :
  str_in st a b c →
  ∃ st1,
    str_del (Some a) st = Ret (tt, st1) ∧
    str_ok (Some a) st1 = Ret (false, st1) ∧
    (∀ o, run_op false (Some a) o st1 = Abort) ∧
    (∀ s delim, str_tok false s (Some a) delim st1 = Abort) ∧
    (∀ inp, str_getline false (Some a) inp st1 = Abort) ∧
    (∀ s2, str_eq false (Some a) s2 st1 = Abort).
Proof.
  intros H. eexists. split; [by eapply str_del_spec|].
  set (st1 := mk_state _ _).
  assert (vars st1 !! a = Some (mk_str 0 0 NULL)) as Hv by apply lookup_insert_eq.
  pose proof (str_ok_zeroed _ _ Hv) as Hok.
  split; [done|]. split; [|split; [|split]].
  - intros [p|s|p n|ps|ss|p n|cs|fmt args]; cbn [run_op].
    + unfold str_cpy. apply assert_abort. by rewrite (bind_ret _ _ _ _ _ Hok).
    + unfold str_cpy_s. apply assert_abort. by rewrite (bind_ret _ _ _ _ _ Hok).
    + unfold str_ncpy. by apply assert_abort.
    + unfold str_cat. destruct (ps ++ [NULL]) as [|s1 rest] eqn:E.
      { by destruct ps. }
      unfold _str_cat. by apply assert_abort.
    + unfold str_cat_s. destruct (ss ++ [None]) as [|s1 rest] eqn:E.
      { by destruct ss. }
      unfold _str_cat_s. by apply assert_abort.
    + unfold str_ncat. by apply assert_abort.
    + unfold str_putc. destruct (cs ++ [0]) as [|c1 rest] eqn:E.
      { by destruct cs. }
      unfold _str_putc. by apply assert_abort.
    + unfold str_cat_fmt. apply assert_abort. by rewrite (bind_ret _ _ _ _ _ Hok).
  - intros s delim. unfold str_tok. apply assert_abort.
    by rewrite (bind_ret _ _ _ _ _ Hok).
  - intros inp. unfold str_getline. by apply assert_abort.
  - intros s2. unfold str_eq. apply assert_abort. by rewrite (bind_ret _ _ _ _ _ Hok).
Qed.

Lemma X9_witness :
  ∃ st1,
    str_del (Some 0%nat) example_state = Ret (tt, st1) ∧
    str_ok (Some 0%nat) st1 = Ret (false, st1) ∧
    (∀ o, run_op false (Some 0%nat) o st1 = Abort) ∧
    (∀ s delim, str_tok false s (Some 0%nat) delim st1 = Abort) ∧
    (∀ inp, str_getline false (Some 0%nat) inp st1 = Abort) ∧
    (∀ s2, str_eq false (Some 0%nat) s2 st1 = Abort).
Proof.
  exact (X9_use_after_del_aborts example_state 0%nat 1%nat (bytes_of "ab") example_ab).
Defined.

(** ** The validity check *)

Lemma memchr_cells_none cs c : ∀ n i,
  memchr_cells cs c n i = Some None ↔
  ∀ j, (j < n)%nat → ∃ x, cs !! j = Some (Byte x) ∧ x ≠ c.
Proof.
  induction cs as [|y cs IH]; intros n i.
  - destruct n as [|n]; simpl.
    + split; [intros _ j Hj; lia|done].
    + split; [done|]. intros H. destruct (H 0%nat) as (x & Hx & _); [lia|done].
  - destruct n as [|n]; simpl.
    + split; [intros _ j Hj; lia|done].
    + destruct y as [|v].
      { split; [done|]. intros H. destruct (H 0%nat) as (x & Hx & _); [lia|done]. }
      destruct (Z.eqb_spec v c) as [->|Hne].
      { split; [done|]. intros H. destruct (H 0%nat) as (x & Hx & Hc); [lia|].
        simpl in Hx. congruence. }
      rewrite IH. split.
      * intros H [|j] Hj; [by exists v|]. apply H. lia.
      * intros H j Hj. apply (H (S j)). lia.
Qed.

(** X10.  [str_ok] is exact: on a struct whose buffer pointer is the
    start of a block, it returns true (leaving the state as it is) if and
    only if the three invariants hold: the byte at index [len] is 0, no
    byte below is 0, and [alloc] is at least [str_round_up (len + 1)]. *)
Theorem X10_str_ok_exact st a v b :
  vars st !! a = Some v → buf v = Ptr b 0 → 0 ≤ len v < SIZE_MAX →
  str_ok (Some a) st = Ret (true, st) ↔ str_invariants st a.
Proof.
  intros Hv Hbuf Hlen.
  assert (size_wrap (len v + 1) = len v + 1) as Hw.
  { apply size_wrap_small. unfold SIZE_MAX in Hlen. lia. }
  unfold str_ok. rewrite (bind_ret _ _ _ _ _ (load_str_some _ _ _ Hv)), Hw, Hbuf.
  cbn [ptr_add]. rewrite Z.add_0_l.
  split.
  - intros E. unfold bind in E. unfold round_up in E.
    destruct (str_round_up (len v + 1)) as [r|] eqn:Er; [|done].
    cbn [ret] in E.
    destruct (Z.leb_spec r (alloc v)) as [Hr|Hr]; cbn [negb] in E; [|by injection E].
    unfold load in E.
    destruct (cells_from st (Ptr b (len v))) as [[|[|c] l]|] eqn:Ec; try done.
    destruct (Z.eqb_spec c 0) as [->|Hc]; cbn [negb] in E; [|by injection E].
    unfold memchr in E.
    destruct (cells_from_inv _ _ _ Ec) as (b0 & o0 & cells & [= <- <-] & Hh & _ & Hd).
    rewrite (cells_from_live _ _ _ 0 Hh) in E by lia.
    change (drop (nat_of 0) cells) with cells in E. cbn [mbind option_bind] in E.
    destruct (memchr_cells cells 0 (nat_of (len v)) 0) as [[i|]|] eqn:Em; [| |done].
    { cbn [ptr_add] in E. injection E as E. done. }
    exists v, b, cells, r.
    split; [done|]. split; [done|]. split; [done|]. split; [lia|].
    split; [|split; [by apply (memchr_cells_none cells 0 _ 0)|done]].
    assert (drop (nat_of (len v)) cells !! 0%nat = Some (Byte 0)) as Hd0 by (by rewrite <- Hd).
    rewrite lookup_drop, Nat.add_0_r in Hd0. done.
  - intros (v' & b' & cells & r & Hv' & Hbuf' & Hh & _ & Hz & Hnz & Er & Hr).
    assert (v' = v) as -> by congruence.
    assert (b' = b) as -> by congruence.
    rewrite (bind_ret _ _ _ _ _ (round_up_some _ _ _ Er)).
    destruct (Z.leb_spec r (alloc v)) as [_|]; [|lia]. cbn [negb].
    rewrite (bind_ret _ _ _ _ _ (load_live _ _ _ _ _ Hh (proj1 Hlen) Hz)).
    change (0 =? 0) with true. cbn [negb].
    unfold memchr, bind. rewrite (cells_from_live _ _ _ 0 Hh) by lia.
    change (drop (nat_of 0) cells) with cells. cbn [mbind option_bind].
    rewrite (proj2 (memchr_cells_none cells 0 (nat_of (len v)) 0) Hnz).
    reflexivity.
Qed.

Lemma X10_witness :
  str_ok (Some 0%nat) example_state = Ret (true, example_state)
  ↔ str_invariants example_state 0%nat.
Proof.
  refine (X10_str_ok_exact example_state 0%nat (mk_str 2 16 (Ptr 1%nat 0)) 1%nat _ _ _);
    by_eval.
Defined.

(** ** All the tokens of a string *)

Lemma filter_take_while_true (P : Z → Prop) `{!∀ x, Decision (P x)} f l :
  (∀ x, f x = true → P x) → filter P (take_while f l) = take_while f l.
Proof.
  intros Hf. induction l as [|x l IH]; [done|]. simpl.
  destruct (f x) eqn:E; [|done].
  rewrite filter_cons_True by (by apply Hf). by rewrite IH.
Qed.

Lemma filter_take_while_false (P : Z → Prop) `{!∀ x, Decision (P x)} f l :
  (∀ x, f x = true → ¬ P x) → filter P (take_while f l) = [].
Proof.
  intros Hf. induction l as [|x l IH]; [done|]. simpl.
  destruct (f x) eqn:E; [|done].
  rewrite filter_cons_False by (by apply Hf). done.
Qed.

Lemma after_token_shorter ds inp :
  token_of ds inp ≠ [] → (length (after_token ds inp) < length inp)%nat.
Proof.
  intros Ht. destruct (token_split ds inp) as (lead & Hsplit & _).
  rewrite Hsplit at 2. rewrite !length_app.
  destruct (token_of ds inp); [done|]. simpl. lia.
Qed.

(** The tokens are non-empty, free of delimiters, and together they are
    the input without its delimiters. *)
Lemma tokens_of_spec ds fuel : ∀ inp,
  (length inp < fuel)%nat →
  Forall (λ t, t ≠ [] ∧ Forall (λ x, x ∉ ds) t) (tokens_of fuel ds inp) ∧
  concat (tokens_of fuel ds inp) = filter (λ x, x ∉ ds) inp.
Proof.
  induction fuel as [|fuel IH]; intros inp Hf; [lia|].
  destruct (token_split ds inp) as (lead & Hsplit & Hlead & Hl & Ht & Ha & He & _).
  cbn [tokens_of]. destruct (decide (token_of ds inp = [])) as [E|E].
  - split; [constructor|]. simpl.
    rewrite Hsplit, E, (He E), !app_nil_r, Hlead.
    symmetry. apply filter_take_while_false.
    intros x Hx. unfold is_delim in Hx. apply bool_decide_eq_true in Hx. tauto.
  - pose proof (after_token_shorter _ _ E) as Hlt.
    destruct (IH (after_token ds inp)) as [IH1 IH2]; [lia|].
    split; [by constructor|].
    simpl. rewrite IH2. rewrite Hsplit at 3. rewrite !filter_app.
    rewrite Hlead, filter_take_while_false.
    2:{ intros x Hx. unfold is_delim in Hx. apply bool_decide_eq_true in Hx. tauto. }
    simpl. f_equal. unfold token_of. symmetry. apply filter_take_while_true.
    intros x Hx. unfold non_delim, is_delim in Hx.
    by apply negb_true_iff, bool_decide_eq_false in Hx.
Qed.

Lemma tok_loop_spec NDEBUG a bs delim ds fuel : ∀ inp o st b c,
  str_in st a b c → src_in st b (Ptr bs o) inp → src_in st b delim ds → ds ≠ [] →
  Z.of_nat (length inp) + 1 ≤ 2 ^ 63 → (length inp < fuel)%nat →
  ∃ st' c',
    tok_loop NDEBUG fuel (Ptr bs o) a delim st = Ret (tokens_of fuel ds inp, st') ∧
    updated a b c' st st'.
Proof.
  induction fuel as [|fuel IH]; intros inp o st b c H Hs Hd Hds Hsz Hf; [lia|].
  destruct (str_tok_spec NDEBUG st a b c bs o inp delim ds H Hs Hd Hds Hsz)
    as (st1 & E1 & Hu1 & [Hr _] & _).
  pose proof Hu1 as (b1 & H1 & Hf1 & Hb1).
  cbn [tok_loop tokens_of]. rewrite (bind_ret _ _ _ _ _ E1).
  destruct (decide (token_of ds inp = [])) as [E|E].
  - exists st1, (token_of ds inp). done.
  - pose proof (after_token_shorter _ _ E) as Hlt.
    unfold get at 1. unfold bind at 1.
    rewrite (content_str_in _ _ _ _ H1). unfold lift_opt, ret at 1, bind at 1.
    destruct (IH (after_token ds inp)
                (o + Z.of_nat (length inp - length (after_token ds inp))) st1 b1
                (token_of ds inp) H1) as (st' & c' & E' & Hu'); [| |done|lia|lia|].
    { split; [done|].
      pose proof (src_in_frame _ _ _ _ _ _ _ Hf1 Hb1 Hs) as [_ Hsep]. done. }
    { by eapply src_in_frame. }
    rewrite (bind_ret _ _ _ _ _ E'). exists st', c'. split; [done|].
    eapply updated_trans; [exact Hu1|]. intros b1' H1'.
    by rewrite (str_in_same_block _ _ _ _ _ _ H1 H1').
Qed.

(** X11.  The loop [while ((s = str_tok (s, &token, delim)))] over a
    string ends after at most as many calls as the string has bytes, plus
    one.  The tokens it sees are the maximal runs of non-delimiters in
    order: none is empty, none holds a delimiter, and together they are
    the input without its delimiters.  The input and the delimiters are
    never written to. *)
Theorem X11_tok_loop_all_tokens NDEBUG st a b c bs o inp delim ds :
  str_in st a b c → src_in st b (Ptr bs o) inp → src_in st b delim ds → ds ≠ [] →
  Z.of_nat (length inp) + 1 ≤ 2 ^ 63 →
  ∃ st' ts,
    tok_loop NDEBUG (S (length inp)) (Ptr bs o) a delim st = Ret (ts, st') ∧
    ts = tokens_of (S (length inp)) ds inp ∧
    Forall (λ t, t ≠ [] ∧ Forall (λ x, x ∉ ds) t) ts ∧
    concat ts = filter (λ x, x ∉ ds) inp ∧
    cstr_in st' (Ptr bs o) inp ∧ cstr_in st' delim ds ∧
    str_ok (Some a) st' = Ret (true, st').
Proof.
  intros H Hs Hd Hds Hsz.
  destruct (tok_loop_spec NDEBUG a bs delim ds (S (length inp)) inp o st b c H Hs Hd Hds Hsz)
    as (st' & c' & E & Hu); [lia|].
  destruct (tokens_of_spec ds (S (length inp)) inp) as [Ht1 Ht2]; [lia|].
  destruct (updated_effect _ _ _ _ _ Hu) as (_ & Hok & _ & Hk).
  exists st', (tokens_of (S (length inp)) ds inp).
  split; [done|]. split; [done|]. split; [done|]. split; [done|].
  split; [apply Hk; [apply Hs|apply Hs]|]. split; [apply Hk; [apply Hd|apply Hd]|done].
Qed.

Lemma X11_witness :
  ∃ st' ts,
    tok_loop false (S (length (bytes_of "  a  b "))) (Ptr 6%nat 0) 0%nat (Ptr 7%nat 0)
      example_state = Ret (ts, st') ∧
    ts = tokens_of (S (length (bytes_of "  a  b "))) (bytes_of " ") (bytes_of "  a  b ") ∧
    Forall (λ t, t ≠ [] ∧ Forall (λ x, x ∉ bytes_of " ") t) ts ∧
    concat ts = filter (λ x, x ∉ bytes_of " ") (bytes_of "  a  b ") ∧
    cstr_in st' (Ptr 6%nat 0) (bytes_of "  a  b ") ∧ cstr_in st' (Ptr 7%nat 0) (bytes_of " ") ∧
    str_ok (Some 0%nat) st' = Ret (true, st').
Proof.
  refine (X11_tok_loop_all_tokens false example_state 0%nat 1%nat (bytes_of "ab") 6%nat 0
            (bytes_of "  a  b ") (Ptr 7%nat 0) (bytes_of " ")
            example_ab example_input example_delim _ _).
  - discriminate.
  - by_eval.
Defined.

(** ** Lines *)

Lemma line_split inp :
  inp = line_of inp ++ (if has_newline inp then 10 :: after_line inp else []) ∧
  (has_newline inp = false → after_line inp = []).
Proof.
  induction inp as [|x inp [IH1 IH2]]; [done|]. simpl.
  destruct (Z.eqb_spec x 10) as [->|Hne]; simpl; [done|].
  split; [by rewrite <- IH1|done].
Qed.

Lemma nonzero_zeros l :
  (length (nonzero l) + length (filter (λ x : Z, x = 0%Z) l) = length l)%nat.
Proof.
  unfold nonzero. induction l as [|x l IH]; [done|].
  destruct (decide (x = 0)) as [->|Hne].
  - rewrite filter_cons_False by (intros ?; done).
    rewrite filter_cons_True by done. simpl. lia.
  - rewrite filter_cons_True by done.
    rewrite filter_cons_False by done. simpl. lia.
Qed.

Lemma nonzero_id l : 0 ∉ l → nonzero l = l.
Proof.
  unfold nonzero. induction l as [|x l IH]; [done|]. intros Hl.
  rewrite filter_cons_True by (intros ->; apply Hl; left).
  rewrite IH; [done|]. intros H0. apply Hl. by right.
Qed.

(** X12.  [str_getline] consumes the line and its newline, if there is
    one, and stores the line without its NUL bytes (a NUL reaches
    [str_putc] as its end marker and is dropped).  The value returned is
    the number of bytes consumed less the number of NUL bytes in the
    line; for a line without NUL bytes it is the number of bytes consumed,
    and it is 0 exactly at the end of the stream. *)
Theorem X12_getline_consumed NDEBUG st a b c inp :
  str_in st a b c → Forall (λ x, 0 ≤ x < 256) inp →
  Z.of_nat (length inp) + 1 ≤ 2 ^ 63 →
  ∃ st' n rest,
    str_getline NDEBUG (Some a) inp st = Ret ((n, rest), st') ∧
    inp = line_of inp ++ (if has_newline inp then 10 :: rest else []) ∧
    (has_newline inp = false → rest = []) ∧
    content st' a = Some (filter (λ x, x ≠ 0) (line_of inp)) ∧
    Z.of_nat (length inp) - Z.of_nat (length rest)
    = n + Z.of_nat (length (filter (λ x, x = 0) (line_of inp))) ∧
    (0 ∉ line_of inp →
     content st' a = Some (line_of inp) ∧
     n = Z.of_nat (length inp) - Z.of_nat (length rest) ∧
     (n = 0 ↔ inp = [])).
Proof.
  intros H Hin Hsz.
  destruct (str_getline_spec NDEBUG st a b c inp H Hin Hsz) as (st' & E & Hu).
  destruct (updated_effect _ _ _ _ _ Hu) as (Hc & _).
  destruct (line_split inp) as [Hsplit Hrest].
  pose proof (nonzero_zeros (line_of inp)) as Hnz.
  assert (Z.of_nat (length inp) - Z.of_nat (length (after_line inp))
          = Z.of_nat (length (line_of inp)) + (if has_newline inp then 1 else 0)) as Hcons.
  { rewrite Hsplit at 1. rewrite length_app.
    destruct (has_newline inp); [simpl; lia|]. rewrite Hrest by done. simpl. lia. }
  eexists st', _, (after_line inp). split; [exact E|].
  split; [done|]. split; [done|]. split; [done|].
  split; [destruct (has_newline inp); lia|].
  intros H0. rewrite (nonzero_id _ H0) in *. split; [done|].
  split; [symmetry; exact Hcons|].
  split.
  - intros Hn. destruct inp as [|x inp]; [done|]. exfalso.
    cbn [line_of has_newline] in Hn.
    destruct (x =? 10); cbn [orb length] in Hn; [lia|].
    destruct (has_newline inp); rewrite Nat2Z.inj_succ in Hn; lia.
  - intros ->. done.
Qed.

Lemma X12_witness :
  ∃ st' n rest,
    str_getline false (Some 0%nat) [102; 0; 111; 10; 98] example_state
    = Ret ((n, rest), st') ∧
    [102; 0; 111; 10; 98]
    = line_of [102; 0; 111; 10; 98]
      ++ (if has_newline [102; 0; 111; 10; 98] then 10 :: rest else []) ∧
    (has_newline [102; 0; 111; 10; 98] = false → rest = []) ∧
    content st' 0%nat = Some (filter (λ x, x ≠ 0) (line_of [102; 0; 111; 10; 98])) ∧
    Z.of_nat (length [102; 0; 111; 10; 98]) - Z.of_nat (length rest)
    = n + Z.of_nat (length (filter (λ x, x = 0) (line_of [102; 0; 111; 10; 98]))) ∧
    (0 ∉ line_of [102; 0; 111; 10; 98] →
     content st' 0%nat = Some (line_of [102; 0; 111; 10; 98]) ∧
     n = Z.of_nat (length [102; 0; 111; 10; 98]) - Z.of_nat (length rest) ∧
     (n = 0 ↔ [102; 0; 111; 10; 98] = [])).
Proof.
  refine (X12_getline_consumed false example_state 0%nat 1%nat (bytes_of "ab")
            [102; 0; 111; 10; 98] example_ab _ _).
  - repeat constructor; by_eval.
  - by_eval.
Defined.

(** ** Templates *)

(** X13.  [str_cat_fmt] appends the template with every specifier
    replaced by the text of its argument: the string for %s, the content
    of the buffer for %S, the decimal numeral for %i, %I, %u and %U;
    everything else is copied as it is.  A template without '%' is
    appended unchanged, whatever arguments follow.  The destination stays
    valid and nothing else changes. *)
Theorem X13_format_renders_template NDEBUG st a b c fmt tmpl args texts out :
  str_in st a b c → src_in st b fmt tmpl →
  Forall3 (arg_text st a b) (specs_of tmpl) args texts → render tmpl texts = Some out →
  Z.of_nat (length c + length out) + 1 ≤ 2 ^ 63 → Z.of_nat (length tmpl) + 1 ≤ 2 ^ 63 →
  ∃ st',
    str_cat_fmt NDEBUG (Some a) fmt args st = Ret (tt, st') ∧
    content st' a = Some (c ++ out) ∧
    (37 ∉ tmpl → out = tmpl) ∧
    str_ok (Some a) st' = Ret (true, st') ∧
    others_kept a b st st'.
Proof.
  intros H Hfmt Hargs Hout Hsz Hlen.
  destruct (str_cat_fmt_spec NDEBUG st a b c fmt tmpl args texts out H Hfmt Hargs Hout Hsz Hlen)
    as (st' & E & Hu).
  destruct (updated_effect _ _ _ _ _ Hu) as (Hc & Hok & Hk).
  exists st'. split; [done|]. split; [done|]. split; [|done].
  intros Hno. rewrite render_plain in Hout; [congruence|].
  apply Forall_forall. intros x Hx ->. done.
Qed.

Lemma example_fmt_ab : str_in example_state_fmt 0%nat 1%nat (bytes_of "ab").
Proof. solve_str_in. Defined.

Lemma X13_witness :
  ∃ st',
    str_cat_fmt false (Some 0%nat) (Ptr 9%nat 0) [VStr (Ptr 2%nat 0); VStrS (Some 1%nat)]
      example_state_fmt = Ret (tt, st') ∧
    content st' 0%nat = Some (bytes_of "ab" ++ bytes_of "<cd|ef>") ∧
    (37 ∉ bytes_of "<%s|%S>" → bytes_of "<cd|ef>" = bytes_of "<%s|%S>") ∧
    str_ok (Some 0%nat) st' = Ret (true, st') ∧
    others_kept 0%nat 1%nat example_state_fmt st'.
Proof.
  refine (X13_format_renders_template false example_state_fmt 0%nat 1%nat (bytes_of "ab")
            (Ptr 9%nat 0) (bytes_of "<%s|%S>") [VStr (Ptr 2%nat 0); VStrS (Some 1%nat)]
            [bytes_of "cd"; bytes_of "ef"] (bytes_of "<cd|ef>") example_fmt_ab _ _ _ _ _).
  - solve_src_in.
  - change (specs_of (bytes_of "<%s|%S>")) with [115; 83].
    constructor; [apply arg_text_s; solve_src_in|].
    constructor; [apply arg_text_S; solve_str_src_in 1%nat 4%nat|constructor].
  - by_eval.
  - by_eval.
  - by_eval.
Defined.




(** ** The option parser *)

Lemma arg_at_some argv k p st :
  argv !! k = Some p → arg_at argv (Z.of_nat k) st = Ret (p, st).
Proof.
  intros Hk. unfold arg_at.
  destruct (Z.ltb_spec (Z.of_nat k) 0); [lia|]. by rewrite nat_of_nat, Hk.
Qed.

Lemma arg_at_prev argv k p st :
  argv !! k = Some p → arg_at argv (Z.of_nat (S k) - 1) st = Ret (p, st).
Proof.
  intros Hk. replace (Z.of_nat (S k) - 1) with (Z.of_nat k) by lia. by apply arg_at_some.
Qed.

Lemma load_cstr st p bs : cstr_in st p bs → load p st = Ret (hd 0 bs, st).
Proof.
  intros (rest & E & _). destruct bs as [|x bs]; simpl in E; by eapply load_cells.
Qed.

(** A flag. *)
Lemma step_flag NDEBUG argv k oa o st p t :
  argv !! k = Some p → cstr_in st p t →
  t ∈ [bytes_of "-chess960"; bytes_of "-random"; bytes_of "-repeat"] →
  ∃ o', options_step NDEBUG argv (Z.of_nat k) oa o false st = Ret ((o', false), st) ∧
        ∀ s x, agrees o s → arg_strings x = [t] → agrees o' (set_option s x).
Proof.
  intros Hk Hp Ht. unfold options_step.
  rewrite (bind_ret _ _ _ _ _ (arg_at_some _ _ _ _ Hk)).
  rewrite (bind_ret _ _ _ _ _ (load_cstr _ _ _ Hp)).
  assert (hd 0 t = 45) as ->.
  { repeat (apply elem_of_cons in Ht as [->|Ht]; [done|]). by apply elem_of_nil in Ht. }
  change (45 =? 45) with true. cbv iota.
  unfold bind at 1, ret at 1.
  rewrite (bind_ret _ _ _ _ _ (read_cstr_cstr _ _ _ Hp)).
  apply elem_of_cons in Ht as [->|Ht]; [|apply elem_of_cons in Ht as [->|Ht];
    [|apply elem_of_cons in Ht as [->|Ht]; [|by apply elem_of_nil in Ht]]].
  - eexists. split; [reflexivity|].
    intros s [| | |v|v|v] (H1 & H2 & H3 & H4 & H5) [=]. by repeat split.
  - eexists. split; [reflexivity|].
    intros s [| | |v|v|v] (H1 & H2 & H3 & H4 & H5) [=]. by repeat split.
  - eexists. split; [reflexivity|].
    intros s [| | |v|v|v] (H1 & H2 & H3 & H4 & H5) [=]. by repeat split.
Qed.

(** A tag that asks for a value. *)
Lemma step_value_tag NDEBUG argv k oa o st p t :
  argv !! k = Some p → cstr_in st p t → asks_value t →
  options_step NDEBUG argv (Z.of_nat k) oa o false st = Ret ((o, true), st).
Proof.
  intros Hk Hp [Ht Hs]. unfold options_step.
  rewrite (bind_ret _ _ _ _ _ (arg_at_some _ _ _ _ Hk)).
  rewrite (bind_ret _ _ _ _ _ (load_cstr _ _ _ Hp)), Ht.
  change (45 =? 45) with true. cbv iota.
  unfold bind at 1, ret at 1.
  rewrite (bind_ret _ _ _ _ _ (read_cstr_cstr _ _ _ Hp)), Hs. done.
Qed.

Lemma is_value_not_tag v : is_value v → (hd 0 v =? 45) = false.
Proof. intros Hv. by apply Z.eqb_neq. Qed.

(** The value of "-concurrency" or "-games". *)
Lemma step_number NDEBUG argv k oa o st pt pv t v :
  argv !! k = Some pt → cstr_in st pt t →
  argv !! S k = Some pv → cstr_in st pv v → is_value v →
  t ∈ [bytes_of "-concurrency"; bytes_of "-games"] →
  ∃ o', options_step NDEBUG argv (Z.of_nat (S k)) oa o true st = Ret ((o', false), st) ∧
        ∀ s x, agrees o s → arg_strings x = [t; v] → agrees o' (set_option s x).
Proof.
  intros Hk Hpt Hk' Hpv Hv Ht. unfold options_step.
  rewrite (bind_ret _ _ _ _ _ (arg_at_some _ _ _ _ Hk')).
  rewrite (bind_ret _ _ _ _ _ (load_cstr _ _ _ Hpv)), (is_value_not_tag _ Hv).
  cbn [negb]. unfold bind at 1, ret at 1.
  rewrite (bind_ret _ _ _ _ _ (arg_at_prev _ _ _ _ Hk)).
  rewrite (bind_ret _ _ _ _ _ (read_cstr_cstr _ _ _ Hpt)).
  apply elem_of_cons in Ht as [->|Ht]; [|apply elem_of_cons in Ht as [->|Ht];
    [|by apply elem_of_nil in Ht]].
  - change (strcmp_eq (bytes_of "-concurrency") (bytes_of "-concurrency")) with true.
    cbv iota. rewrite bind_assoc, (bind_ret _ _ _ _ _ (read_cstr_cstr _ _ _ Hpv)).
    eexists. split; [reflexivity|].
    intros s [| | |w|w|w] (H1 & H2 & H3 & H4 & H5) [=]; subst. by repeat split.
  - change (strcmp_eq (bytes_of "-games") (bytes_of "-concurrency")) with false.
    change (strcmp_eq (bytes_of "-games") (bytes_of "-games")) with true.
    cbv iota. rewrite bind_assoc, (bind_ret _ _ _ _ _ (read_cstr_cstr _ _ _ Hpv)).
    eexists. split; [reflexivity|].
    intros s [| | |w|w|w] (H1 & H2 & H3 & H4 & H5) [=]; subst. by repeat split.
Qed.

(** The value of "-openings". *)
Lemma step_openings NDEBUG argv k oa o st pt pv v b c :
  argv !! k = Some pt → cstr_in st pt (bytes_of "-openings") →
  argv !! S k = Some pv → src_in st b pv v → is_value v →
  str_in st oa b c → Z.of_nat (length v) + 1 ≤ 2 ^ 63 →
  ∃ st', options_step NDEBUG argv (Z.of_nat (S k)) oa o true st = Ret ((o, false), st') ∧
         updated oa b v st st'.
Proof.
  intros Hk Hpt Hk' Hpv Hv H Hsz. unfold options_step.
  rewrite (bind_ret _ _ _ _ _ (arg_at_some _ _ _ _ Hk')).
  rewrite (bind_ret _ _ _ _ _ (load_cstr _ _ _ (proj1 Hpv))), (is_value_not_tag _ Hv).
  cbn [negb]. unfold bind at 1, ret at 1.
  rewrite (bind_ret _ _ _ _ _ (arg_at_prev _ _ _ _ Hk)).
  rewrite (bind_ret _ _ _ _ _ (read_cstr_cstr _ _ _ Hpt)).
  change (strcmp_eq (bytes_of "-openings") (bytes_of "-concurrency")) with false.
  change (strcmp_eq (bytes_of "-openings") (bytes_of "-games")) with false.
  cbv iota.
  destruct (str_cpy_spec NDEBUG st oa b c pv v H Hpv Hsz) as (st' & E & Hu).
  exists st'. split; [|done].
  rewrite !bind_assoc.
  erewrite bind_ret; [|by apply assert_true].
  rewrite bind_assoc, (bind_ret _ _ _ _ _ E). done.
Qed.

Lemma options_loop_step NDEBUG f argc argv i oa o ev o' ev' st st' :
  i < argc → options_step NDEBUG argv i oa o ev st = Ret ((o', ev'), st') →
  options_loop NDEBUG (S f) argc argv i oa o ev st
  = options_loop NDEBUG f argc argv (i + 1) oa o' ev' st'.
Proof.
  intros Hi E. cbn [options_loop]. destruct (Z.ltb_spec i argc); [|lia].
  by rewrite (bind_ret _ _ _ _ _ E).
Qed.

Lemma options_loop_end NDEBUG f argc argv i oa o ev st :
  argc ≤ i → options_loop NDEBUG (S f) argc argv i oa o ev st = Ret ((i, o, ev), st).
Proof. intros Hi. cbn [options_loop]. by destruct (Z.ltb_spec i argc); [lia|]. Qed.

Lemma argv_lookup (st : state) b argv strs k t :
  Forall2 (src_in st b) argv strs → strs !! k = Some t →
  ∃ p, argv !! k = Some p ∧ src_in st b p t ∧ (k < length argv)%nat.
Proof.
  intros Hall Hk. destruct (Forall2_lookup_r _ _ _ _ _ Hall Hk) as (p & Hp & Hs).
  exists p. split; [done|]. split; [done|]. by eapply lookup_lt_Some.
Qed.

Lemma asks_value_tags t :
  t ∈ [bytes_of "-concurrency"; bytes_of "-games"; bytes_of "-openings"] → asks_value t.
Proof.
  intros Ht. repeat (apply elem_of_cons in Ht as [->|Ht]; [by split|]).
  by apply elem_of_nil in Ht.
Qed.

(** One option: one or two rounds of the loop. *)
Lemma options_loop_one NDEBUG argv oa strs x pre tail fuel st b o s :
  strs = pre ++ arg_strings x ++ tail →
  Forall2 (src_in st b) argv strs →
  str_in st oa b (set_openings s) → agrees o s → arg_ok x →
  (∀ v, x = ArgOpenings v → Z.of_nat (length v) + 1 ≤ 2 ^ 63) →
  ∃ st' b' o',
    options_loop NDEBUG (length (arg_strings x) + fuel) (Z.of_nat (length argv)) argv
      (Z.of_nat (length pre)) oa o false st
    = options_loop NDEBUG fuel (Z.of_nat (length argv)) argv
        (Z.of_nat (length pre + length (arg_strings x))) oa o' false st'
    ∧ Forall2 (src_in st' b') argv strs
    ∧ str_in st' oa b' (set_openings (set_option s x))
    ∧ agrees o' (set_option s x)
    ∧ frame oa b st st' ∧ (b' = b ∨ heap st !! b' = None).
Proof.
  intros Hstrs Hargv H Ho Hx Hsz.
  assert (∀ j t, arg_strings x !! j = Some t → strs !! (length pre + j)%nat = Some t) as Hat.
  { intros j t Hj. rewrite Hstrs, lookup_app_r by lia.
    replace (length pre + j - length pre)%nat with j by lia.
    by apply lookup_app_l_Some. }
  assert (∀ t, arg_strings x !! 0%nat = Some t → strs !! length pre = Some t) as Hat0.
  { intros t Ht. rewrite <- (Nat.add_0_r (length pre)). by apply Hat. }
  assert (∀ t, arg_strings x !! 1%nat = Some t → strs !! S (length pre) = Some t) as Hat1.
  { intros t Ht. rewrite <- (Nat.add_1_r (length pre)). by apply Hat. }
  assert (∀ f o1 st1,
    options_loop NDEBUG f (Z.of_nat (length argv)) argv (Z.of_nat (length pre) + 1) oa o1 false st1
    = options_loop NDEBUG f (Z.of_nat (length argv)) argv (Z.of_nat (length pre + 1)) oa o1 false st1)
    as Hone by (intros; f_equal; lia).
  assert (∀ f o1 st1,
    options_loop NDEBUG f (Z.of_nat (length argv)) argv (Z.of_nat (S (length pre)) + 1) oa o1 false st1
    = options_loop NDEBUG f (Z.of_nat (length argv)) argv (Z.of_nat (length pre + 2)) oa o1 false st1)
    as Htwo by (intros; f_equal; lia).
  destruct x as [| | |v|v|v]; cbn [arg_strings length Nat.add] in *.
  1-3: destruct (argv_lookup st b argv strs (length pre) _ Hargv (Hat0 _ eq_refl))
         as (p & Hp & Hs & Hlt).
  1-3: destruct (step_flag NDEBUG argv (length pre) oa o st p _ Hp (proj1 Hs))
         as (o' & E & Hag); [repeat constructor|].
  1-3: assert (Z.of_nat (length pre) < Z.of_nat (length argv)) as Hi by lia.
  1-3: exists st, b, o'; rewrite (options_loop_step _ _ _ _ _ _ _ _ _ _ _ _ Hi E), Hone.
  1-3: split; [done|]; split; [done|]; split; [done|]; split; [by apply Hag|].
  1-3: split; [apply frame_refl|by left].
  all: destruct (argv_lookup st b argv strs (length pre) _ Hargv (Hat0 _ eq_refl))
         as (pt & Hpt & Hst & Hlt).
  all: destruct (argv_lookup st b argv strs (S (length pre)) _ Hargv (Hat1 _ eq_refl))
         as (pv & Hpv & Hsv & Hlt').
  all: assert (Z.of_nat (length pre) < Z.of_nat (length argv)) as Hi by lia.
  all: assert (Z.of_nat (S (length pre)) < Z.of_nat (length argv)) as Hi' by lia.
  all: erewrite (options_loop_step _ _ _ _ _ _ _ _ _ _ _ _ Hi);
         [|by apply (step_value_tag NDEBUG argv _ oa o st pt _ Hpt (proj1 Hst)),
                    asks_value_tags; repeat constructor].
  all: replace (Z.of_nat (length pre) + 1) with (Z.of_nat (S (length pre))) by lia.
  1-2: destruct (step_number NDEBUG argv (length pre) oa o st pt pv _ v Hpt (proj1 Hst)
                   Hpv (proj1 Hsv) Hx) as (o' & E & Hag); [repeat constructor|].
  1-2: exists st, b, o'; rewrite (options_loop_step _ _ _ _ _ _ _ _ _ _ _ _ Hi' E), Htwo.
  1-2: split; [done|]; split; [done|]; split; [done|]; split; [by apply Hag|].
  1-2: split; [apply frame_refl|by left].
  destruct (step_openings NDEBUG argv (length pre) oa o st pt pv v b _ Hpt (proj1 Hst)
              Hpv Hsv Hx H) as (st' & E & Hu).
  { by apply Hsz. }
  pose proof Hu as (b' & Hs' & Hf & Hb).
  exists st', b', o. rewrite (options_loop_step _ _ _ _ _ _ _ _ _ _ _ _ Hi' E), Htwo.
  split; [done|]. split.
  { eapply Forall2_impl; [exact Hargv|]. intros p t Hpt'. by eapply src_in_frame. }
  split; [done|]. split; [|done].
  destruct Ho as (H1 & H2 & H3 & H4 & H5). by repeat split.
Qed.

(** A well-formed run of options. *)
Lemma options_loop_args NDEBUG argv oa strs : ∀ xs pre tail fuel st b o s,
  strs = pre ++ concat (arg_strings <$> xs) ++ tail →
  Forall2 (src_in st b) argv strs →
  str_in st oa b (set_openings s) → agrees o s → Forall arg_ok xs →
  (∀ v, ArgOpenings v ∈ xs → Z.of_nat (length v) + 1 ≤ 2 ^ 63) →
  ∃ st' b' o',
    options_loop NDEBUG (length (concat (arg_strings <$> xs)) + fuel)
      (Z.of_nat (length argv)) argv (Z.of_nat (length pre)) oa o false st
    = options_loop NDEBUG fuel (Z.of_nat (length argv)) argv
        (Z.of_nat (length pre + length (concat (arg_strings <$> xs)))) oa o' false st'
    ∧ Forall2 (src_in st' b') argv strs
    ∧ str_in st' oa b' (set_openings (foldl set_option s xs))
    ∧ agrees o' (foldl set_option s xs)
    ∧ frame oa b st st' ∧ (b' = b ∨ heap st !! b' = None).
Proof.
  induction xs as [|x xs IH]; intros pre tail fuel st b o s Hstrs Hargv H Ho Hxs Hsz.
  - exists st, b, o. cbn [fmap list_fmap concat length foldl]. rewrite Nat.add_0_r.
    split; [done|]. split; [done|]. split; [done|]. split; [done|].
    split; [apply frame_refl|by left].
  - apply Forall_cons in Hxs as [Hx Hxs].
    rewrite fmap_cons in *. cbn [concat foldl] in *. rewrite length_app.
    assert (∀ v, x = ArgOpenings v → Z.of_nat (length v) + 1 ≤ 2 ^ 63) as Hsz1.
    { intros v ->. apply Hsz. left. }
    assert (∀ v, ArgOpenings v ∈ xs → Z.of_nat (length v) + 1 ≤ 2 ^ 63) as Hsz2.
    { intros v Hv. apply Hsz. by right. }
    destruct (options_loop_one NDEBUG argv oa strs x pre
                (concat (arg_strings <$> xs) ++ tail)
                (length (concat (arg_strings <$> xs)) + fuel) st b o s)
      as (st1 & b1 & o1 & E1 & Hargv1 & H1 & Ho1 & Hf1 & Hb1); try done.
    { by rewrite Hstrs, <- !app_assoc. }
    destruct (IH (pre ++ arg_strings x) tail fuel st1 b1 o1 (set_option s x))
      as (st2 & b2 & o2 & E2 & Hargv2 & H2 & Ho2 & Hf2 & Hb2); try done.
    { by rewrite Hstrs, <- !app_assoc. }
    exists st2, b2, o2. rewrite <- Nat.add_assoc, E1.
    rewrite length_app in E2. rewrite E2, Nat.add_assoc.
    split; [done|]. split; [done|]. split; [done|]. split; [done|].
    split; [by eapply frame_trans|by eapply frame_fresh].
Qed.

(** The state in which the loop starts. *)
Lemma options_start NDEBUG st argv strs :
  Forall2 (cstr_in st) argv strs →
  ∃ v b st1,
    str_new NDEBUG st = Ret (v, st1) ∧
    let oa := fresh (dom (vars st1)) in
    let st2 := mk_state (<[oa := v]> (vars st1)) (heap st1) in
    vars st !! oa = None ∧ vars st1 = vars st ∧ heap st !! b = None ∧
    (∀ b' x, heap st !! b' = Some x → heap st1 !! b' = Some x) ∧
    str_in st2 oa b [] ∧ Forall2 (src_in st2 b) argv strs.
Proof.
  intros Hargv.
  destruct (str_new_spec NDEBUG st) as (v & b & st1 & E & Hb & Hv & Hh & Hval & _).
  exists v, b, st1. split; [done|]. intros oa st2.
  split; [rewrite <- Hv; apply vars_fresh_none|]. split; [done|]. split; [done|].
  split; [done|]. split.
  - eapply str_val_in; [|apply lookup_insert_eq].
    destruct Hval as (rest & r & Hval). by exists rest, r.
  - eapply Forall2_impl; [exact Hargv|]. intros p t Hp.
    assert (ptr_block p ≠ Some b) as Hpb.
    { destruct Hp as (prest & Ep & _).
      destruct (cells_from_inv _ _ _ Ep) as (bp & o & all & -> & Hall & _).
      simpl. intros [= ->]. congruence. }
    split; [|done].
    eapply (cstr_in_frame oa b st); [|done|done].
    split; [intros a' Ha; subst st2; cbn [vars]; by rewrite lookup_insert_ne, Hv|].
    intros b' x _ Hx. by apply Hh.
Qed.

(** [options_new] on a well-formed command line. *)
Lemma options_new_spec NDEBUG st prog argv xs :
  Forall2 (cstr_in st) argv (prog :: concat (arg_strings <$> xs)) →
  Forall arg_ok xs →
  (∀ v, ArgOpenings v ∈ xs → Z.of_nat (length v) + 1 ≤ 2 ^ 63) →
  ∃ o st',
    options_new NDEBUG (Z.of_nat (length argv)) argv st = Ret (o, st') ∧
    holds st' o (foldl set_option default_settings xs) ∧
    Forall2 (cstr_in st') argv (prog :: concat (arg_strings <$> xs)) ∧
    vars st' = vars st.
Proof.
  intros Hargv Hxs Hsz.
  set (strs := prog :: concat (arg_strings <$> xs)) in *.
  destruct (options_start NDEBUG st argv strs Hargv)
    as (v & b & st1 & E & Hoa & Hv & Hb & Hh & H2 & Hargv2).
  set (oa := fresh (dom (vars st1))) in *.
  set (st2 := mk_state _ _) in *.
  set (o0 := mk_Options false 1 1 v false false).
  pose proof (Forall2_length _ _ _ Hargv) as Hlen. subst strs. cbn [length] in Hlen.
  destruct (options_loop_args NDEBUG argv oa (prog :: concat (arg_strings <$> xs)) xs
              [prog] [] 2%nat st2 b o0 default_settings)
    as (st3 & b3 & o3 & E3 & Hargv3 & H3 & Ho3 & Hf3 & Hb3); try done.
  { by rewrite app_nil_r. }
  destruct (str_in_struct _ _ _ _ H3) as (v3 & rest3 & Hv3 & Hbuf3 & Hl3 & Hh3 & _ & Hc3).
  exists (mk_Options (chess960 o3) (concurrency o3) (games o3) v3 (random o3) (repeat o3)),
    (mk_state (delete oa (vars st3)) (heap st3)).
  split; [|split; [|split]].
  - unfold options_new. rewrite (bind_ret _ _ _ _ _ E).
    unfold new_var at 1, bind at 1. fold oa. fold st2. fold o0.
    replace (S (nat_of (Z.of_nat (length argv))))
      with (length (concat (arg_strings <$> xs)) + 2)%nat by (rewrite nat_of_nat; lia).
    change 1 with (Z.of_nat (length [prog])).
    unfold bind at 1. rewrite E3.
    rewrite options_loop_end by (cbn [length]; lia).
    unfold ret at 1, bind at 1.
    by rewrite (bind_ret _ _ _ _ _ (load_str_some _ _ _ Hv3)).
  - split; [done|]. exists b3.
    destruct H3 as (rest & (v' & r & Hv' & Hbuf' & Hl' & Hh' & Ha' & Hr' & Hra') & Hc').
    assert (v' = v3) as -> by congruence.
    exists rest, r. cbn [openings heap]. by repeat split.
  - eapply Forall2_impl; [exact Hargv3|]. intros p t [Hp _].
    destruct Hp as (rest & Ep & Hall). exists rest. split; [|done].
    unfold cells_from, block_cells in *. done.
  - cbn [vars]. apply map_eq. intros a'. destruct (decide (a' = oa)) as [->|Hne].
    + by rewrite lookup_delete_eq, Hoa.
    + rewrite lookup_delete_ne by done. destruct Hf3 as [Hfv _].
      rewrite (Hfv a' Hne). subst st2. cbn [vars]. by rewrite lookup_insert_ne, Hv.
Qed.




(** ** Malformed command lines *)

Lemma options_loop_exit NDEBUG f argc argv i oa o ev st fmt args :
  i < argc → options_step NDEBUG argv i oa o ev st = Exit fmt args →
  options_loop NDEBUG (S f) argc argv i oa o ev st = Exit fmt args.
Proof.
  intros Hi E. cbn [options_loop]. destruct (Z.ltb_spec i argc); [|lia].
  unfold bind. by rewrite E.
Qed.

Lemma lookup_last {A} (x : A) l : (x :: l) !! length l = Some (default x (last l)).
Proof.
  revert x. induction l as [|y l IH]; intros x; [done|].
  cbn [length lookup list_lookup]. rewrite IH, (last_cons y l). by destruct (last l).
Qed.

(** A value where a tag is expected. *)
Lemma step_bad_value NDEBUG argv j oa o st pp pv prev v :
  argv !! j = Some pp → cstr_in st pp prev →
  argv !! S j = Some pv → cstr_in st pv v → is_value v →
  options_step NDEBUG argv (Z.of_nat (S j)) oa o false st
  = Exit "tag expected after '%s'. found value '%s' instead.\n" [prev; v].
Proof.
  intros Hj Hpp Hj' Hpv Hv. unfold options_step.
  rewrite (bind_ret _ _ _ _ _ (arg_at_some _ _ _ _ Hj')).
  rewrite (bind_ret _ _ _ _ _ (load_cstr _ _ _ Hpv)), (is_value_not_tag _ Hv).
  cbn [negb]. rewrite !bind_assoc.
  rewrite (bind_ret _ _ _ _ _ (arg_at_prev _ _ _ _ Hj)).
  rewrite bind_assoc, (bind_ret _ _ _ _ _ (read_cstr_cstr _ _ _ Hpp)).
  rewrite bind_assoc, (bind_ret _ _ _ _ _ (read_cstr_cstr _ _ _ Hpv)).
  reflexivity.
Qed.

(** A tag where a value is expected. *)
Lemma step_bad_tag NDEBUG argv j oa o st pt pt' t t' :
  argv !! j = Some pt → cstr_in st pt t →
  argv !! S j = Some pt' → cstr_in st pt' t' → hd 0 t' = 45 →
  options_step NDEBUG argv (Z.of_nat (S j)) oa o true st
  = Exit "value expected after '%s'. found tag '%s' instead.\n" [t; t'].
Proof.
  intros Hj Hpt Hj' Hpt' Ht'. unfold options_step.
  rewrite (bind_ret _ _ _ _ _ (arg_at_some _ _ _ _ Hj')).
  rewrite (bind_ret _ _ _ _ _ (load_cstr _ _ _ Hpt')), Ht'.
  change (45 =? 45) with true. cbv iota. rewrite !bind_assoc.
  rewrite (bind_ret _ _ _ _ _ (arg_at_prev _ _ _ _ Hj)).
  rewrite bind_assoc, (bind_ret _ _ _ _ _ (read_cstr_cstr _ _ _ Hpt)).
  rewrite bind_assoc, (bind_ret _ _ _ _ _ (read_cstr_cstr _ _ _ Hpt')).
  reflexivity.
Qed.

(** A tag that is none of the flags and asks for no value. *)
Lemma step_bad_unknown NDEBUG argv k oa o st p t :
  argv !! k = Some p → cstr_in st p t → hd 0 t = 45 →
  strstr_b (bytes_of "-concurrency -games -openings") t = false →
  t ∉ [bytes_of "-chess960"; bytes_of "-random"; bytes_of "-repeat"] →
  options_step NDEBUG argv (Z.of_nat k) oa o false st = Exit "invalid tag '%s'\n" [t].
Proof.
  intros Hk Hp Ht Hs Hflag. unfold options_step.
  rewrite (bind_ret _ _ _ _ _ (arg_at_some _ _ _ _ Hk)).
  rewrite (bind_ret _ _ _ _ _ (load_cstr _ _ _ Hp)), Ht.
  change (45 =? 45) with true. cbv iota.
  unfold bind at 1, ret at 1.
  rewrite (bind_ret _ _ _ _ _ (read_cstr_cstr _ _ _ Hp)), Hs.
  unfold strcmp_eq.
  rewrite !bool_decide_eq_false_2; [done| | |].
  all: intros ->; apply Hflag; repeat constructor.
Qed.

(** [options_new] on a command line that goes wrong. *)
Lemma options_new_reject NDEBUG st prog argv xs tail fmt args :
  Forall2 (cstr_in st) argv (prog :: concat (arg_strings <$> xs) ++ tail) →
  Forall arg_ok xs →
  (∀ v, ArgOpenings v ∈ xs → Z.of_nat (length v) + 1 ≤ 2 ^ 63) →
  bad_tail (default prog (last (concat (arg_strings <$> xs)))) tail fmt args →
  options_new NDEBUG (Z.of_nat (length argv)) argv st = Exit fmt args.
Proof.
  intros Hargv Hxs Hsz Hbad.
  set (l := concat (arg_strings <$> xs)) in *.
  set (strs := prog :: l ++ tail) in *.
  destruct (options_start NDEBUG st argv strs Hargv)
    as (v & b & st1 & E & Hoa & Hv & Hb & Hh & H2 & Hargv2).
  set (oa := fresh (dom (vars st1))) in *.
  set (st2 := mk_state _ _) in *.
  set (o0 := mk_Options false 1 1 v false false).
  pose proof (Forall2_length _ _ _ Hargv) as Hlen. subst strs.
  cbn [length] in Hlen. rewrite length_app in Hlen.
  destruct (options_loop_args NDEBUG argv oa (prog :: l ++ tail) xs
              [prog] tail (length tail + 2)%nat st2 b o0 default_settings)
    as (st3 & b3 & o3 & E3 & Hargv3 & H3 & Ho3 & Hf3 & Hb3); try done.
  fold l in E3. cbn [length] in E3.
  unfold options_new. rewrite (bind_ret _ _ _ _ _ E).
  unfold new_var at 1, bind at 1. fold oa. fold st2. fold o0.
  replace (S (nat_of (Z.of_nat (length argv))))
    with (length l + (length tail + 2))%nat by (rewrite nat_of_nat; lia).
  change 1 with (Z.of_nat 1).
  unfold bind at 1. rewrite E3. clear E3.
  assert (∀ j t, tail !! j = Some t →
            ∃ p, argv !! (1 + length l + j)%nat = Some p ∧ cstr_in st3 p t) as Htail.
  { intros j t Hj.
    destruct (argv_lookup st3 b3 argv (prog :: l ++ tail) (1 + length l + j) t Hargv3)
      as (p & Hp & [Hs _] & _); [|by exists p].
    change (prog :: l ++ tail) with ((prog :: l) ++ tail).
    rewrite lookup_app_r by (cbn [length]; lia).
    by replace (1 + length l + j - length (prog :: l))%nat with j by (cbn [length]; lia). }
  assert (∃ p, argv !! length l = Some p
               ∧ cstr_in st3 p (default prog (last l))) as (pp & Hpp & Hprev).
  { destruct (argv_lookup st3 b3 argv (prog :: l ++ tail) (length l)
                (default prog (last l)) Hargv3) as (p & Hp & [Hs _] & _); [|by exists p].
    change (prog :: l ++ tail) with ((prog :: l) ++ tail).
    apply lookup_app_l_Some, lookup_last. }
  replace (length tail + 2)%nat with (S (S (length tail))) by lia.
  destruct Hbad as [w rest Hw|t Ht|t t' rest Ht Ht'|t rest Ht Hs Hflag]; cbn [length] in Hlen.
  - destruct (Htail 0%nat w eq_refl) as (pv & Hpv & Hcv).
    rewrite Nat.add_0_r in Hpv.
    assert (Z.of_nat (1 + length l) < Z.of_nat (length argv)) as Hi by lia.
    rewrite (options_loop_exit _ _ _ _ _ _ _ _ _ _ _ Hi
               (step_bad_value NDEBUG argv (length l) oa o3 st3 pp pv _ w
                  Hpp Hprev Hpv Hcv Hw)).
    done.
  - destruct (Htail 0%nat t eq_refl) as (pt & Hpt & Hct).
    rewrite Nat.add_0_r in Hpt.
    assert (Z.of_nat (1 + length l) < Z.of_nat (length argv)) as Hi by lia.
    rewrite (options_loop_step _ _ _ _ _ _ _ _ _ _ _ _ Hi
               (step_value_tag NDEBUG argv (1 + length l) oa o3 st3 pt t Hpt Hct Ht)).
    rewrite options_loop_end by lia.
    replace (Z.of_nat (1 + length l) + 1 - Z.of_nat 1)
      with (Z.of_nat (1 + length l)) by lia.
    rewrite !bind_assoc, (bind_ret _ _ _ _ _ (arg_at_some _ _ _ _ Hpt)).
    rewrite bind_assoc, (bind_ret _ _ _ _ _ (read_cstr_cstr _ _ _ Hct)).
    reflexivity.
  - destruct (Htail 0%nat t eq_refl) as (pt & Hpt & Hct).
    destruct (Htail 1%nat t' eq_refl) as (pt' & Hpt' & Hct').
    rewrite Nat.add_0_r in Hpt. rewrite Nat.add_1_r in Hpt'.
    assert (Z.of_nat (1 + length l) < Z.of_nat (length argv)) as Hi by lia.
    assert (Z.of_nat (S (1 + length l)) < Z.of_nat (length argv)) as Hi' by lia.
    rewrite (options_loop_step _ _ _ _ _ _ _ _ _ _ _ _ Hi
               (step_value_tag NDEBUG argv (1 + length l) oa o3 st3 pt t Hpt Hct Ht)).
    replace (Z.of_nat (1 + length l) + 1) with (Z.of_nat (S (1 + length l))) by lia.
    rewrite (options_loop_exit _ _ _ _ _ _ _ _ _ _ _ Hi'
               (step_bad_tag NDEBUG argv (1 + length l) oa o3 st3 pt pt' t t'
                  Hpt Hct Hpt' Hct' Ht')).
    done.
  - destruct (Htail 0%nat t eq_refl) as (pt & Hpt & Hct).
    rewrite Nat.add_0_r in Hpt.
    assert (Z.of_nat (1 + length l) < Z.of_nat (length argv)) as Hi by lia.
    rewrite (options_loop_exit _ _ _ _ _ _ _ _ _ _ _ Hi
               (step_bad_unknown NDEBUG argv (1 + length l) oa o3 st3 pt t
                  Hpt Hct Ht Hs Hflag)).
    done.
Qed.

(** X16.  After a well-formed part, a command line that goes on with a
    value where a tag is expected, that ends in a tag asking for a value,
    that has a tag where that value should be, or that has a tag which is
    no flag and asks for no value, makes [options_new] end the program
    through [die] with the diagnostic of that case; no [Options] value is
    returned. *)
Theorem X16_options_reject NDEBUG st prog argv xs tail fmt args :
  Forall2 (cstr_in st) argv (prog :: concat (arg_strings <$> xs) ++ tail) →
  Forall arg_ok xs →
  (∀ v, ArgOpenings v ∈ xs → Z.of_nat (length v) + 1 ≤ 2 ^ 63) →
  bad_tail (default prog (last (concat (arg_strings <$> xs)))) tail fmt args →
  options_new NDEBUG (Z.of_nat (length argv)) argv st = Exit fmt args.
Proof.
  intros Hargv Hxs Hsz Hbad.
  by rewrite (options_new_reject NDEBUG st prog argv xs tail fmt args Hargv Hxs Hsz Hbad).
Qed.

Lemma X16_witness :
  options_new false (Z.of_nat (length example_bad_argv)) example_bad_argv example_cmd_state
  = Exit "value expected after '%s'\n" [bytes_of "-openings"].
Proof.
  refine (X16_options_reject false example_cmd_state (bytes_of "c-chess-cli") example_bad_argv
            [ArgGames (bytes_of "20"); ArgChess960] [bytes_of "-openings"] _ _ _ _ _ _).
  - repeat (constructor; [solve_cstr_in|]). constructor.
  - repeat constructor; by_eval.
  - intros v Hv.
    repeat (apply elem_of_cons in Hv as [Hv|Hv];
            [first [discriminate Hv | injection Hv as ->; by_eval]|]).
    by apply elem_of_nil in Hv.
  - apply bad_missing. split; by_eval.
Defined.

(** ** Numbers on the command line *)

Lemma atoi_digits_value ds : ∀ acc,
  Forall (λ d, 48 ≤ d ≤ 57) ds →
  atoi_digits ds acc = fold_left (λ acc d, acc * 10 + (d - 48)) ds acc.
Proof.
  induction ds as [|d ds IH]; intros acc Hds; [done|].
  apply Forall_cons in Hds as [Hd Hds]. cbn [atoi_digits fold_left].
  unfold isdigit.
  destruct (Z.leb_spec 48 d); [|lia]. destruct (Z.leb_spec d 57); [|lia].
  cbn [andb]. by apply IH.
Qed.

Lemma atoi_decimal ds n :
  is_decimal ds n → 0 ≤ n ≤ INT_MAX → atoi ds = n ∧ is_value ds.
Proof.
  intros (Hds & Hne & _ & Hval) Hn.
  destruct ds as [|d ds]; [done|].
  pose proof Hds as Hds'. apply Forall_cons in Hds' as [Hd _].
  split; [|unfold is_value; simpl; lia].
  cbn [atoi]. unfold isspace.
  destruct (Z.eqb_spec d 32); [lia|].
  destruct (Z.leb_spec 9 d); [|lia]. destruct (Z.leb_spec d 13); [lia|].
  cbn [andb orb].
  destruct (Z.eqb_spec d 45); [lia|]. destruct (Z.eqb_spec d 43); [lia|].
  rewrite atoi_digits_value by done. fold (digits_value (d :: ds)). rewrite Hval.
  unfold to_int, INT_MAX in *.
  rewrite Z.mod_small by lia.
  destruct (Z.ltb_spec n (2 ^ 31)); [done|lia].
Qed.

(** X17.  Numbers are passed in decimal: after "-games" and
    "-concurrency", the decimal numeral of a number from 0 to INT_MAX
    sets that number. *)
Theorem X17_options_decimal_numbers NDEBUG st prog argv gs g cs c :
  Forall2 (cstr_in st) argv
    [prog; bytes_of "-games"; gs; bytes_of "-concurrency"; cs] →
  is_decimal gs g → 0 ≤ g ≤ INT_MAX → is_decimal cs c → 0 ≤ c ≤ INT_MAX →
  ∃ o st',
    options_new NDEBUG (Z.of_nat (length argv)) argv st = Ret (o, st') ∧
    games o = g ∧ concurrency o = c ∧
    chess960 o = false ∧ random o = false ∧ repeat o = false.
Proof.
  intros Hargv Hgs Hg Hcs Hc.
  destruct (atoi_decimal _ _ Hgs Hg) as [Eg Hvg].
  destruct (atoi_decimal _ _ Hcs Hc) as [Ec Hvc].
  destruct (options_new_spec NDEBUG st prog argv [ArgGames gs; ArgConcurrency cs])
    as (o & st' & E & [(H1 & H2 & H3 & H4 & H5) _] & _); [done|by repeat constructor| |].
  { intros v Hv. repeat (apply elem_of_cons in Hv as [Hv|Hv]; [done|]).
    by apply elem_of_nil in Hv. }
  exists o, st'. split; [done|].
  cbn [foldl set_option default_settings set_games set_concurrency set_chess960
         set_random set_repeat] in *.
  by rewrite H1, H2, H3, H4, H5, Eg, Ec.
Qed.

Lemma X17_witness :
  ∃ o st',
    options_new false (Z.of_nat (length example_numbers_argv)) example_numbers_argv
      example_numbers_state = Ret (o, st') ∧
    games o = 20 ∧ concurrency o = 4 ∧
    chess960 o = false ∧ random o = false ∧ repeat o = false.
Proof.
  refine (X17_options_decimal_numbers false example_numbers_state (bytes_of "c-chess-cli")
            example_numbers_argv (bytes_of "20") 20 (bytes_of "4") 4 _ _ _ _ _).
  - repeat (constructor; [solve_cstr_in|]). constructor.
  - split; [repeat constructor; by_eval|]. split; [discriminate|]. split; [discriminate|].
    reflexivity.
  - by_eval.
  - split; [repeat constructor; by_eval|]. split; [discriminate|]. split; [discriminate|].
    reflexivity.
  - by_eval.
Defined.

(** ** A character that becomes NUL *)

(** One round of the loop of [_str_putc], whatever the character. *)
Lemma putc_one_raw NDEBUG st a b c next :
  str_in st a b c → Z.of_nat (length c + 1) + 1 ≤ 2 ^ 63 →
  ∃ st' b1 tail,
    owns st' a b1 (Z.of_nat (length c + 1))
      ((Byte <$> (c ++ [char_of_int next])) ++ Byte 0 :: tail) ∧
    ∀ B (k : M B),
      (v <- load_str (Some a) ;;
       str_resize NDEBUG (Some a) (size_wrap (len v + 1)) ;;;
       v <- load_str (Some a) ;;
       store (ptr_add (buf v) (size_wrap (len v - 1))) (char_of_int next) ;;; k) st
      = k st'.
Proof.
  intros H Hsz.
  destruct (str_resize_spec NDEBUG st a b c (Z.of_nat (length c + 1)) H)
    as (st1 & b1 & rest & U & E1 & Hh & Ho1 & Hf1 & Hb1); [lia|lia|].
  destruct (str_in_struct _ _ _ _ H) as (v & rest0 & Hv & Hbuf & Hl & _).
  pose proof Ho1 as (v1 & r1 & Hv1 & Hbuf1 & Hl1 & Hh1 & Ha1 & Hr1 & Hra1).
  rewrite nat_of_nat in *.
  set (cs1 := <[(length c + 1)%nat := Byte 0]> ((Byte <$> c) ++ Byte 0 :: rest ++ U)) in *.
  assert (length c + 1 < length cs1)%nat as Hlen1.
  { pose proof (str_round_up_spec _ ltac:(eassumption)) as (r & Hr & _ & _ & Hrn & _).
    rewrite Hr1 in Hr. injection Hr as <-. lia. }
  destruct (rest ++ U) as [|t0 tail] eqn:Etail.
  { unfold cs1 in Hlen1. rewrite length_insert, length_app, length_fmap in Hlen1.
    simpl in Hlen1. lia. }
  exists (set_block b1 (Live ((Byte <$> (c ++ [char_of_int next])) ++ Byte 0 :: tail)) st1),
    b1, tail.
  split.
  - apply (owns_set_block _ _ _ _ cs1); [done|].
    unfold cs1. rewrite length_insert, !length_app, !length_fmap, length_app. simpl. lia.
  - intros B k.
    rewrite (bind_ret _ _ _ _ _ (load_str_some _ _ _ Hv)).
    rewrite Hl, <- (Nat2Z.inj_add _ 1), size_wrap_id by lia.
    rewrite (bind_ret _ _ _ _ _ E1).
    rewrite (bind_ret _ _ _ _ _ (load_str_some _ _ _ Hv1)).
    rewrite Hbuf1, Hl1. cbn [ptr_add]. rewrite Z.add_0_l.
    rewrite size_wrap_id by lia.
    erewrite bind_ret; [|apply store_live; [exact Hh1|lia]].
    replace (nat_of (Z.of_nat (length c + 1) - 1)) with (length c)
      by (unfold nat_of; lia).
    unfold cs1. by rewrite putc_cells.
Qed.

(** A buffer with a NUL byte below its length does not pass [str_ok]. *)
Lemma str_ok_embedded_zero st a b c tail :
  owns st a b (Z.of_nat (length c + 1)) ((Byte <$> (c ++ [0])) ++ Byte 0 :: tail) →
  Forall byte_ok c → Z.of_nat (length c + 1) + 1 ≤ 2 ^ 63 →
  str_ok (Some a) st = Ret (false, st).
Proof.
  intros (v & r & Hv & Hbuf & Hl & Hh & Ha & Hr & Hra) Hc Hsz.
  unfold str_ok.
  rewrite (bind_ret _ _ _ _ _ (load_str_some _ _ _ Hv)), Hl, Hbuf.
  rewrite size_wrap_id by lia.
  rewrite (bind_ret _ _ _ _ _ (round_up_some _ _ _ Hr)).
  destruct (Z.leb_spec r (alloc v)); [|lia]. cbn [negb ptr_add]. rewrite Z.add_0_l.
  erewrite bind_ret; last first.
  { eapply load_live; [exact Hh|lia|].
    rewrite nat_of_nat, lookup_app_r by (rewrite length_fmap, length_app; simpl; lia).
    rewrite length_fmap, length_app. simpl.
    by replace (length c + 1 - (length c + 1))%nat with 0%nat by lia. }
  change (0 =? 0) with true. cbn [negb].
  unfold memchr, bind. rewrite (cells_from_live _ _ _ 0 Hh) by lia.
  change (drop (nat_of 0) ?l) with l. cbn [mbind option_bind].
  rewrite (memchr_cells_found c [] (Byte 0 :: tail) 0).
  - reflexivity.
  - eapply Forall_impl; [exact Hc|]. intros x Hx. by apply byte_ok_nonzero.
  - rewrite nat_of_nat. lia.
Qed.

(** X18.  [_str_putc] stores [(char) c]: an argument that is not 0 but a
    multiple of 256 puts a NUL byte into the buffer and counts it.  With
    assertions compiled in the call aborts at its final check; without
    them it returns a buffer that does not pass [str_ok]: its length is
    one more than before, while the string it holds is the old one. *)
Theorem X18_putc_multiple_of_256 st a b c next :
  str_in st a b c → next ≠ 0 → char_of_int next = 0 →
  Z.of_nat (length c + 1) + 1 ≤ 2 ^ 63 →
  str_putc false (Some a) [next] st = Abort ∧
  ∃ st' v,
    str_putc true (Some a) [next] st = Ret (tt, st') ∧
    str_ok (Some a) st' = Ret (false, st') ∧
    vars st' !! a = Some v ∧ len v = Z.of_nat (length c) + 1 ∧
    cstr_at st' (buf v) = Some c.
Proof.
  intros H Hnext Hch Hsz.
  pose proof H as (_ & _ & Hc).
  assert (∀ NDEBUG, ∃ st' b1 tail,
            owns st' a b1 (Z.of_nat (length c + 1)) ((Byte <$> (c ++ [0])) ++ Byte 0 :: tail) ∧
            putc_loop NDEBUG (Some a) [0] next st = Ret (tt, st')) as Hloop.
  { intros NDEBUG.
    destruct (putc_one_raw NDEBUG st a b c next H Hsz) as (st' & b1 & tail & Ho & E).
    rewrite Hch in Ho. exists st', b1, tail. split; [done|].
    cbn [putc_loop]. destruct (Z.eqb_spec next 0); [done|]. by rewrite E. }
  split.
  - destruct (Hloop false) as (st' & b1 & tail & Ho & E).
    unfold str_putc, _str_putc. cbn [app].
    erewrite bind_ret; [|apply assert_true; by eapply str_ok_valid].
    rewrite (bind_ret _ _ _ _ _ E).
    apply assert_false. by eapply str_ok_embedded_zero.
  - destruct (Hloop true) as (st' & b1 & tail & Ho & E).
    pose proof Ho as (v & r & Hv & Hbuf & Hl & Hh & _).
    exists st', v. split; [|split; [by eapply str_ok_embedded_zero|]].
    + unfold str_putc, _str_putc. cbn [app]. unfold assert at 1, bind at 1, ret at 1.
      by rewrite (bind_ret _ _ _ _ _ E).
    + split; [done|]. split; [lia|].
      rewrite Hbuf. apply cstr_at_cstr. exists (Byte 0 :: tail). split; [|done].
      rewrite (cells_from_live _ _ _ 0 Hh) by lia.
      change (drop (nat_of 0) ?l) with l. by rewrite fmap_app, <- app_assoc.
Qed.

Lemma X18_witness :
  str_putc false (Some 0%nat) [256] example_state = Abort ∧
  ∃ st' v,
    str_putc true (Some 0%nat) [256] example_state = Ret (tt, st') ∧
    str_ok (Some 0%nat) st' = Ret (false, st') ∧
    vars st' !! 0%nat = Some v ∧ len v = Z.of_nat (length (bytes_of "ab")) + 1 ∧
    cstr_at st' (buf v) = Some (bytes_of "ab").
Proof.
  refine (X18_putc_multiple_of_256 example_state 0%nat 1%nat (bytes_of "ab") 256
            example_ab _ _ _); by_eval.
Defined.

(** ** Arguments that must not be NULL *)

(** X19.  The checks on pointer arguments: with assertions compiled in,
    [str_dup (NULL)], [str_cpy (dest, NULL)], [str_cat_fmt (dest, NULL)]
    and [str_tok] with NULL or an empty string as the delimiters abort,
    even though the buffer is valid; [str_tok] checks its delimiters
    before it looks at the input, so also when the input is NULL. *)
Theorem X19_null_arguments_abort st a b c :
  str_in st a b c →
  str_dup false NULL st = Abort ∧
  str_cpy false (Some a) NULL st = Abort ∧
  (∀ args, str_cat_fmt false (Some a) NULL args st = Abort) ∧
  (∀ s, str_tok false s (Some a) NULL st = Abort) ∧
  (∀ s delim, cstr_in st delim [] → str_tok false s (Some a) delim st = Abort).
Proof.
  intros H. pose proof (str_ok_valid _ _ _ _ H) as Hok.
  split; [reflexivity|]. split; [|split; [|split]].
  - unfold str_cpy. apply assert_abort. by rewrite (bind_ret _ _ _ _ _ Hok).
  - intros args. unfold str_cat_fmt. apply assert_abort.
    by rewrite (bind_ret _ _ _ _ _ Hok).
  - intros s. unfold str_tok. apply assert_abort. by rewrite (bind_ret _ _ _ _ _ Hok).
  - intros s delim (rest & E & _). unfold str_tok. apply assert_abort.
    rewrite (bind_ret _ _ _ _ _ Hok).
    destruct (bool_decide (delim ≠ NULL)); [|done]. cbn [andb].
    by rewrite (bind_ret _ _ _ _ _ (load_cells _ _ _ _ E)).
Qed.

Lemma X19_witness :
  str_dup false NULL example_state = Abort ∧
  str_cpy false (Some 0%nat) NULL example_state = Abort ∧
  (∀ args, str_cat_fmt false (Some 0%nat) NULL args example_state = Abort) ∧
  (∀ s, str_tok false s (Some 0%nat) NULL example_state = Abort) ∧
  (∀ s delim, cstr_in example_state delim [] →
     str_tok false s (Some 0%nat) delim example_state = Abort).
Proof.
  exact (X19_null_arguments_abort example_state 0%nat 1%nat (bytes_of "ab") example_ab).
Defined.

(** ** Tags found by the substring test *)





(** ** All the lines of a stream *)

Lemma after_line_shorter inp : inp ≠ [] → (length (after_line inp) < length inp)%nat.
Proof.
  induction inp as [|x inp IH]; [done|]. intros _. simpl.
  destruct (x =? 10); [lia|]. destruct inp as [|y inp']; [simpl; lia|].
  specialize (IH ltac:(done)). lia.
Qed.

Lemma after_line_suffix (P : Z → Prop) inp : Forall P inp → Forall P (after_line inp).
Proof.
  induction 1 as [|x inp Hx Hinp IH]; [done|]. simpl. by destruct (x =? 10).
Qed.

Lemma line_of_no_newline inp : 10 ∉ line_of inp.
Proof.
  induction inp as [|x inp IH]; [by intros ?%elem_of_nil|]. simpl.
  destruct (Z.eqb_spec x 10) as [->|Hne]; [by intros ?%elem_of_nil|].
  intros [?|?]%elem_of_cons; [lia|done].
Qed.

Lemma last_no_newline l : l ≠ [] → 10 ∉ l → last l ≠ Some 10.
Proof.
  intros Hne Hl Hlast. apply Hl. by eapply last_Some_elem_of.
Qed.

Lemma last_app_cons {A} (l1 : list A) x l2 : last (l1 ++ x :: l2) = last (x :: l2).
Proof.
  induction l1 as [|y l1 IH]; [done|]. rewrite <- app_comm_cons, last_cons, IH.
  rewrite last_cons. by destruct (last l2).
Qed.

Lemma closing_after line after :
  after ≠ [] → closing (line ++ 10 :: after) = closing after.
Proof.
  intros Hne. unfold closing.
  assert (last (line ++ 10 :: after) = last after) as Hl.
  { rewrite last_app_cons, last_cons. destruct (last after) eqn:E; [done|].
    apply last_None in E. by destruct Hne. }
  destruct (decide (last after = Some 10)) as [Ha|Ha].
  - rewrite !decide_True; [done|right; done|right; congruence].
  - rewrite !decide_False; [done| |].
    + intros [?|?]; done.
    + intros [Hx|Hx]; [by destruct line|]. apply Ha. congruence.
Qed.

Lemma closing_newline line : closing (line ++ [10]) = [].
Proof. unfold closing. rewrite decide_True; [done|]. right. apply last_snoc. Qed.

Lemma closing_line l : l ≠ [] → 10 ∉ l → closing l = [10].
Proof.
  intros Hne Hl. unfold closing. rewrite decide_False; [done|].
  intros [?|Hlast]; [done|]. by apply (last_no_newline l).
Qed.

Lemma lines_of_join fuel : ∀ inp,
  (length inp < fuel)%nat →
  Forall (λ l, 10 ∉ l) (lines_of fuel inp) ∧
  concat ((λ l, l ++ [10]) <$> lines_of fuel inp) = inp ++ closing inp.
Proof.
  induction fuel as [|fuel IH]; intros inp Hf; [lia|].
  destruct inp as [|x inp']; [by split; [constructor|]|].
  set (inp := x :: inp') in *.
  change (lines_of (S fuel) inp) with (line_of inp :: lines_of fuel (after_line inp)).
  pose proof (after_line_shorter inp ltac:(done)) as Hlt.
  destruct (IH (after_line inp)) as [IH1 IH2]; [lia|].
  split; [constructor; [apply line_of_no_newline|done]|].
  rewrite fmap_cons. cbn [concat]. rewrite IH2.
  destruct (line_split inp) as [Hsplit Hrest].
  destruct (has_newline inp) eqn:Enl.
  - etransitivity; [|symmetry; exact (f_equal (λ l, l ++ closing l) Hsplit)].
    cbv beta iota.
    destruct (after_line inp) as [|y rest] eqn:Eaft.
    + by rewrite closing_newline, !app_nil_r.
    + rewrite closing_after by done. by rewrite <- !app_assoc.
  - etransitivity; [|symmetry; exact (f_equal (λ l, l ++ closing l) Hsplit)].
    cbv beta iota. rewrite (Hrest eq_refl), !app_nil_r.
    f_equal. symmetry. apply closing_line; [|apply line_of_no_newline].
    intros Hnil. rewrite Hnil in Hsplit. done.
Qed.

Lemma getline_all_spec NDEBUG a fuel : ∀ inp st b c,
  str_in st a b c → Forall byte_ok inp →
  Z.of_nat (length inp) + 1 ≤ 2 ^ 63 → (length inp < fuel)%nat →
  ∃ st' c',
    getline_all NDEBUG fuel a inp st = Ret (lines_of fuel inp, st') ∧
    updated a b c' st st'.
Proof.
  induction fuel as [|fuel IH]; intros inp st b c H Hin Hsz Hf; [lia|].
  destruct (str_getline_spec NDEBUG st a b c inp H) as (st1 & E1 & Hu1); [|done|].
  { eapply Forall_impl; [exact Hin|]. unfold byte_ok. intros x ?. lia. }
  pose proof Hu1 as (b1 & H1 & Hf1 & Hb1).
  cbn [getline_all]. rewrite (bind_ret _ _ _ _ _ E1). cbn [fst snd].
  destruct inp as [|x inp'].
  { exists st1, []. done. }
  set (inp := x :: inp') in *.
  change (lines_of (S fuel) inp) with (line_of inp :: lines_of fuel (after_line inp)).
  assert (0 ∉ line_of inp) as H0.
  { intros H0. destruct (line_split inp) as [Hsplit _].
    assert (0 ∈ inp) as Hin0 by (rewrite Hsplit; apply elem_of_app; by left).
    rewrite Forall_forall in Hin. specialize (Hin 0 Hin0). unfold byte_ok in Hin. lia. }
  rewrite (nonzero_id _ H0) in *.
  assert (Z.of_nat (length (line_of inp)) + (if has_newline inp then 1 else 0) ≠ 0) as Hn.
  { subst inp. cbn [line_of has_newline].
    destruct (x =? 10); cbn [orb length]; [lia|].
    destruct (has_newline inp'); rewrite Nat2Z.inj_succ; lia. }
  apply Z.eqb_neq in Hn. rewrite Hn.
  unfold get at 1, bind at 1.
  rewrite (content_str_in _ _ _ _ H1). unfold lift_opt, ret at 1, bind at 1.
  pose proof (after_line_shorter inp ltac:(done)) as Hlt.
  destruct (IH (after_line inp) st1 b1 (line_of inp) H1) as (st' & c' & E' & Hu');
    [by apply after_line_suffix|lia|lia|].
  rewrite (bind_ret _ _ _ _ _ E'). exists st', c'. split; [done|].
  eapply updated_trans; [exact Hu1|]. intros b1' H1'.
  by rewrite (str_in_same_block _ _ _ _ _ _ H1 H1').
Qed.

(** X21.  The loop [while (str_getline (&line, in))] over a stream
    without NUL bytes ends after at most as many calls as the stream has
    bytes, plus one, having seen every line: an empty line counts (the
    call returns 1 for it), no line holds a newline, and the lines, each
    followed by a newline, give back the stream, with a final newline
    added if it lacked one. *)
Theorem X21_getline_all_lines NDEBUG st a b c inp :
  str_in st a b c → Forall byte_ok inp → Z.of_nat (length inp) + 1 ≤ 2 ^ 63 →
  ∃ st' ls,
    getline_all NDEBUG (S (length inp)) a inp st = Ret (ls, st') ∧
    ls = lines_of (S (length inp)) inp ∧
    Forall (λ l, 10 ∉ l) ls ∧
    concat ((λ l, l ++ [10]) <$> ls) = inp ++ closing inp ∧
    str_ok (Some a) st' = Ret (true, st').
Proof.
  intros H Hin Hsz.
  destruct (getline_all_spec NDEBUG a (S (length inp)) inp st b c H Hin Hsz)
    as (st' & c' & E & Hu); [lia|].
  destruct (lines_of_join (S (length inp)) inp) as [Hl1 Hl2]; [lia|].
  destruct (updated_effect _ _ _ _ _ Hu) as (_ & Hok & _).
  by exists st', (lines_of (S (length inp)) inp).
Qed.

Lemma X21_witness :
  ∃ st' ls,
    getline_all false (S (length [97; 10; 10; 98])) 0%nat [97; 10; 10; 98] example_state
    = Ret (ls, st') ∧
    ls = lines_of (S (length [97; 10; 10; 98])) [97; 10; 10; 98] ∧
    Forall (λ l, 10 ∉ l) ls ∧
    concat ((λ l, l ++ [10]) <$> ls) = [97; 10; 10; 98] ++ closing [97; 10; 10; 98] ∧
    str_ok (Some 0%nat) st' = Ret (true, st').
Proof.
  refine (X21_getline_all_lines false example_state 0%nat 1%nat (bytes_of "ab")
            [97; 10; 10; 98] example_ab _ _).
  - repeat constructor; by_eval.
  - by_eval.
Defined.

(** ** Assertions only check *)

Lemma returns_as_refl {A} (m : M A) : returns_as m m.
Proof. by intros st x st' E. Qed.

Lemma returns_as_bind {A B} (m m' : M A) (k k' : A → M B) :
  returns_as m m' → (∀ x, returns_as (k x) (k' x)) →
  returns_as (bind m k) (bind m' k').
Proof.
  intros Hm Hk st y st2 E. unfold bind in *.
  destruct (m st) as [[x st1]| | | |] eqn:E1; try done.
  rewrite (Hm _ _ _ E1). by apply Hk.
Qed.

Lemma preserving_ret {A} (x : A) : state_preserving (ret x).
Proof. intros st y st' [= _ <-]. done. Qed.

Lemma preserving_bind {A B} (m : M A) (k : A → M B) :
  state_preserving m → (∀ x, state_preserving (k x)) → state_preserving (bind m k).
Proof.
  intros Hm Hk st y st2 E. unfold bind in E.
  destruct (m st) as [[x st1]| | | |] eqn:E1; try done.
  apply Hm in E1 as ->. by eapply Hk.
Qed.

Lemma preserving_load p : state_preserving (load p).
Proof.
  intros st x st' E. unfold load in E.
  destruct (cells_from st p) as [[|[|v] l]|]; try done. by injection E as _ <-.
Qed.

Lemma preserving_strlen p : state_preserving (strlen p).
Proof.
  intros st x st' E. unfold strlen in E.
  destruct (cells_from st p ≫= cstr_len); [|done]. by injection E as _ <-.
Qed.

Lemma preserving_memchr p c n : state_preserving (memchr p c n).
Proof.
  intros st x st' E. unfold memchr in E.
  destruct (cells_from st p ≫= _) as [[i|]|]; try done; by injection E as _ <-.
Qed.

Lemma preserving_load_str s : state_preserving (load_str s).
Proof.
  intros st x st' E. unfold load_str in E. destruct s as [a|]; [|done].
  destruct (vars st !! a); [|done]. by injection E as _ <-.
Qed.

Lemma preserving_round_up n : state_preserving (round_up n).
Proof.
  intros st x st' E. unfold round_up in E.
  destruct (str_round_up n); [|done]. by injection E as _ <-.
Qed.

Lemma preserving_ptr_ge p q : state_preserving (ptr_ge p q).
Proof.
  intros st x st' E. unfold ptr_ge in E.
  destruct (ptr_diff p q); [|done]. by injection E as _ <-.
Qed.

Lemma preserving_stuck {A} : state_preserving (@stuck A).
Proof. by intros st x st' E. Qed.

Ltac preserving :=
  repeat first
    [ apply preserving_ret | apply preserving_load | apply preserving_strlen
    | apply preserving_memchr | apply preserving_load_str | apply preserving_round_up
    | apply preserving_ptr_ge | apply preserving_stuck
    | apply preserving_bind; [|intros ?]
    | match goal with |- state_preserving (if ?c then _ else _) => destruct c end
    | match goal with |- state_preserving (match ?x with _ => _ end) => destruct x end ].

Lemma preserving_str_ok s : state_preserving (str_ok s).
Proof. unfold str_ok. destruct s; preserving. Qed.

Lemma returns_as_assert (e : M bool) :
  state_preserving e → returns_as (assert false e) (assert true e).
Proof.
  intros He st x st' E. unfold assert, bind in *.
  destruct (e st) as [[[|] st1]| | | |] eqn:E1; try done.
  apply He in E1 as ->. by destruct x.
Qed.

Create HintDb checks.

Ltac same_run :=
  repeat first
    [ apply returns_as_refl
    | solve [auto with checks]
    | apply returns_as_assert;
        repeat first [apply preserving_str_ok | progress preserving]
    | apply returns_as_bind; [|intros ?]
    | match goal with |- returns_as (if ?c then _ else _) _ => destruct c end
    | match goal with |- returns_as (match ?x with _ => _ end) _ => destruct x end ].

Lemma same_str_resize s n : returns_as (str_resize false s n) (str_resize true s n).
Proof. unfold str_resize. same_run. Qed.
#[local] Hint Resolve same_str_resize : checks.

Lemma same_str_new : returns_as (str_new false) (str_new true).
Proof. unfold str_new. same_run. Qed.

Lemma same_str_dup p : returns_as (str_dup false p) (str_dup true p).
Proof. unfold str_dup. same_run. Qed.

Lemma same_do_str_cpy d p n : returns_as (do_str_cpy false d p n) (do_str_cpy true d p n).
Proof. unfold do_str_cpy. same_run. Qed.
#[local] Hint Resolve same_do_str_cpy : checks.

Lemma same_str_cpy d p : returns_as (str_cpy false d p) (str_cpy true d p).
Proof. unfold str_cpy. same_run. Qed.
#[local] Hint Resolve same_str_cpy : checks.

Lemma same_str_cpy_s d s : returns_as (str_cpy_s false d s) (str_cpy_s true d s).
Proof. unfold str_cpy_s. same_run. Qed.

Lemma same_str_ncpy d p n : returns_as (str_ncpy false d p n) (str_ncpy true d p n).
Proof. unfold str_ncpy. same_run. Qed.

Lemma same_putc_loop d args : ∀ next,
  returns_as (putc_loop false d args next) (putc_loop true d args next).
Proof.
  induction args as [|c args IH]; intros next; cbn [putc_loop]; same_run.
Qed.
#[local] Hint Resolve same_putc_loop : checks.

Lemma same_str_putc d cs : returns_as (str_putc false d cs) (str_putc true d cs).
Proof. unfold str_putc, _str_putc. same_run. Qed.
#[local] Hint Resolve same_str_putc : checks.

Lemma same_do_str_cat d p n : returns_as (do_str_cat false d p n) (do_str_cat true d p n).
Proof. unfold do_str_cat. same_run. Qed.
#[local] Hint Resolve same_do_str_cat : checks.

Lemma same_str_ncat d p n : returns_as (str_ncat false d p n) (str_ncat true d p n).
Proof. unfold str_ncat. same_run. Qed.
#[local] Hint Resolve same_str_ncat : checks.

Lemma same_cat_loop d args : ∀ next,
  returns_as (cat_loop false d args next) (cat_loop true d args next).
Proof.
  induction args as [|p args IH]; intros next; cbn [cat_loop]; same_run.
Qed.
#[local] Hint Resolve same_cat_loop : checks.

Lemma same_str_cat d ps : returns_as (str_cat false d ps) (str_cat true d ps).
Proof. unfold str_cat, _str_cat. same_run. Qed.
#[local] Hint Resolve same_str_cat : checks.

Lemma same_cat_s_loop d args : ∀ next,
  returns_as (cat_s_loop false d args next) (cat_s_loop true d args next).
Proof.
  induction args as [|p args IH]; intros next; cbn [cat_s_loop]; same_run.
Qed.
#[local] Hint Resolve same_cat_s_loop : checks.

Lemma same_str_cat_s d ss : returns_as (str_cat_s false d ss) (str_cat_s true d ss).
Proof. unfold str_cat_s, _str_cat_s. same_run. Qed.
#[local] Hint Resolve same_str_cat_s : checks.

Lemma same_fmt_arg d sp args : returns_as (fmt_arg false d sp args) (fmt_arg true d sp args).
Proof. unfold fmt_arg. same_run. Qed.
#[local] Hint Resolve same_fmt_arg : checks.

Lemma same_fmt_loop d fuel : ∀ fmt n args,
  returns_as (fmt_loop false fuel d fmt n args) (fmt_loop true fuel d fmt n args).
Proof.
  induction fuel as [|fuel IH]; intros fmt n args; cbn [fmt_loop]; same_run.
Qed.
#[local] Hint Resolve same_fmt_loop : checks.

Lemma same_str_cat_fmt d fmt args :
  returns_as (str_cat_fmt false d fmt args) (str_cat_fmt true d fmt args).
Proof. unfold str_cat_fmt. same_run. Qed.

Lemma same_tok_take fuel : ∀ s t d n,
  returns_as (tok_take false fuel s t d n) (tok_take true fuel s t d n).
Proof.
  induction fuel as [|fuel IH]; intros s t d n; cbn [tok_take]; same_run.
Qed.
#[local] Hint Resolve same_tok_take : checks.

Lemma same_str_tok s t d : returns_as (str_tok false s t d) (str_tok true s t d).
Proof. unfold str_tok. same_run. Qed.

Lemma same_getline_loop out inp :
  returns_as (getline_loop false out inp) (getline_loop true out inp).
Proof. induction inp as [|c inp IH]; cbn [getline_loop]; same_run. Qed.
#[local] Hint Resolve same_getline_loop : checks.

Lemma same_str_getline out inp :
  returns_as (str_getline false out inp) (str_getline true out inp).
Proof. unfold str_getline. same_run. Qed.

Lemma same_str_eq s1 s2 : returns_as (str_eq false s1 s2) (str_eq true s1 s2).
Proof. unfold str_eq. same_run. Qed.

Lemma same_options_step argv i oa o ev :
  returns_as (options_step false argv i oa o ev) (options_step true argv i oa o ev).
Proof. unfold options_step. same_run. Qed.
#[local] Hint Resolve same_options_step : checks.

Lemma same_options_loop fuel : ∀ argc argv i oa o ev,
  returns_as (options_loop false fuel argc argv i oa o ev)
             (options_loop true fuel argc argv i oa o ev).
Proof.
  induction fuel as [|fuel IH]; intros argc argv i oa o ev; cbn [options_loop]; same_run.
Qed.
#[local] Hint Resolve same_options_loop : checks.

Lemma same_options_new argc argv :
  returns_as (options_new false argc argv) (options_new true argc argv).
Proof. unfold options_new. same_run. Qed.

(** X22. The assertions only check.  Whenever a call of the string
    functions or of [options_new] returns in a build with assertions, the
    same call in a build with [NDEBUG] returns the same result and leaves
    the same memory: no assertion changes the state, and none of the code
    depends on one having been evaluated. *)
Theorem X22_assertions_only_check :
  returns_as (str_new false) (str_new true) ∧
  (∀ p, returns_as (str_dup false p) (str_dup true p)) ∧
  (∀ s1 s2, returns_as (str_eq false s1 s2) (str_eq true s1 s2)) ∧
  (∀ d p, returns_as (str_cpy false d p) (str_cpy true d p)) ∧
  (∀ d s, returns_as (str_cpy_s false d s) (str_cpy_s true d s)) ∧
  (∀ d p n, returns_as (str_ncpy false d p n) (str_ncpy true d p n)) ∧
  (∀ d cs, returns_as (str_putc false d cs) (str_putc true d cs)) ∧
  (∀ d p n, returns_as (str_ncat false d p n) (str_ncat true d p n)) ∧
  (∀ d ps, returns_as (str_cat false d ps) (str_cat true d ps)) ∧
  (∀ d ss, returns_as (str_cat_s false d ss) (str_cat_s true d ss)) ∧
  (∀ d fmt args,
     returns_as (str_cat_fmt false d fmt args) (str_cat_fmt true d fmt args)) ∧
  (∀ s t d, returns_as (str_tok false s t d) (str_tok true s t d)) ∧
  (∀ out inp, returns_as (str_getline false out inp) (str_getline true out inp)) ∧
  (∀ argc argv, returns_as (options_new false argc argv) (options_new true argc argv)).
Proof.
  split; [exact same_str_new|].
  split; [exact same_str_dup|].
  split; [exact same_str_eq|].
  split; [exact same_str_cpy|].
  split; [exact same_str_cpy_s|].
  split; [exact same_str_ncpy|].
  split; [exact same_str_putc|].
  split; [exact same_str_ncat|].
  split; [exact same_str_cat|].
  split; [exact same_str_cat_s|].
  split; [exact same_str_cat_fmt|].
  split; [exact same_str_tok|].
  split; [exact same_str_getline|].
  exact same_options_new.
Qed.
